(** * JAX-GalSim: bounds, images, composition of profiles and the photon loop

    A shallow embedding of the parts of [jax_galsim] that anchor pixel buffers
    to integer frames ([bounds.py], [image.py]), combine surface-brightness
    profiles ([convolve.py], [gsobject.py]) and accumulate photons in chunks
    ([gsobject.py]).

    Conventions.
    - Python exceptions are values of [exn]; a call that may raise returns
      a [result].
    - Fluxes, gains, k-values and centroids are read as exact rationals [Q];
      what is proved of them uses comparisons, negation and the shape of the
      computation, never an identity that rounding would break.  A division
      of Python floats by zero raises [ZeroDivisionError] where a statement
      depends on it.
    - The coordinates of a [BoundsD] are floats with their special values
      ([pyfloat]: NaN, the infinities, overflow), finite values being exact;
      [Q] as a coordinate type stands for the floats that are finite
      numbers.
    - Methods that assign to attributes of [self] are functions from the
      object to the outcome and the object afterwards. *)

From Stdlib Require Import ZArith QArith Qminmax Qabs Qround Qfield List Bool Lia
  Lqa.
Import ListNotations.

Set Implicit Arguments.

(** ** Exceptions and fallible results *)

Inductive exn : Type :=
| TypeError
| NotImplementedError
| AttributeError
| IndexError
| GalSimBoundsError
| GalSimUndefinedBoundsError
| GalSimImmutableError
| GalSimIncompatibleValuesError
| GalSimValueError
| GalSimNotImplementedError
| ValueError
| ZeroDivisionError
| OverflowError.

Inductive result (A : Type) : Type :=
| Ok (a : A)
| Raise (e : exn).

Arguments Ok {A} a.
Arguments Raise {A} e.

Definition rbind {A B : Type} (r : result A) (k : A -> result B) : result B :=
  match r with
  | Ok a => k a
  | Raise e => Raise e
  end.

Notation "x <- r ;; k" := (rbind r (fun x => k))
  (at level 61, r at next level, right associativity).

(** ** Coordinates

    [BoundsI] holds integers and [BoundsD] reals; both classes share the code
    of [Bounds].  A coordinate handed to a constructor is either a plain
    Python number ([int], [float]) or a JAX array scalar; [_parse_args] tells
    them apart with [isinstance(v, (float, int))]. *)

Inductive scalar (T : Type) : Type :=
| Py (v : T)
| Jax (v : T).

Arguments Py {T} v.
Arguments Jax {T} v.

Definition value {T : Type} (s : scalar T) : T :=
  match s with Py v | Jax v => v end.

Definition is_py {T : Type} (s : scalar T) : bool :=
  match s with Py _ => true | Jax _ => false end.

(** Floats as [BoundsD] holds them: NaN, the two infinities, and the finite
    values, read exactly.  A finite result at or beyond [float_overflow]
    (the midpoint between the largest double and 2^1024) is an infinity. *)
Inductive pyfloat : Type :=
| NaN
| PInf
| NInf
| Fin (q : Q).

Definition float_overflow : Q := inject_Z (2 ^ 1024 - 2 ^ 970).

Definition f_round (q : Q) : pyfloat :=
  if Qle_bool float_overflow q then PInf
  else if Qle_bool q (- float_overflow) then NInf
  else Fin q.

(** Python's [a <= b], [a < b] and [a == b] on floats: every comparison with
    NaN is false. *)
Definition f_leb (a b : pyfloat) : bool :=
  match a, b with
  | NaN, _ | _, NaN => false
  | NInf, _ => true
  | _, PInf => true
  | PInf, _ => false
  | _, NInf => false
  | Fin p, Fin q => Qle_bool p q
  end.

Definition f_ltb (a b : pyfloat) : bool :=
  match a, b with
  | NaN, _ | _, NaN => false
  | PInf, _ => false
  | _, NInf => false
  | NInf, _ => true
  | _, PInf => true
  | Fin p, Fin q => negb (Qle_bool q p)
  end.

Definition f_eqb (a b : pyfloat) : bool :=
  match a, b with
  | PInf, PInf | NInf, NInf => true
  | Fin p, Fin q => Qeq_bool p q
  | _, _ => false
  end.

(** [jnp.minimum] and [jnp.maximum] on floats: NaN if either operand is. *)
Definition f_min (a b : pyfloat) : pyfloat :=
  match a, b with
  | NaN, _ | _, NaN => NaN
  | _, _ => if f_leb a b then a else b
  end.

Definition f_max (a b : pyfloat) : pyfloat :=
  match a, b with
  | NaN, _ | _, NaN => NaN
  | _, _ => if f_leb a b then b else a
  end.

(** [a + b] and [a / 2.0] on floats. *)
Definition f_add (a b : pyfloat) : pyfloat :=
  match a, b with
  | NaN, _ | _, NaN => NaN
  | PInf, NInf | NInf, PInf => NaN
  | PInf, _ | _, PInf => PInf
  | NInf, _ | _, NInf => NInf
  | Fin p, Fin q => f_round (p + q)
  end.

Definition f_half (a : pyfloat) : pyfloat :=
  match a with
  | Fin q => Fin (q / 2)
  | other => other
  end.

Definition f_isnan (a : pyfloat) : bool :=
  match a with NaN => true | _ => false end.

(** The Python integers that JAX converts to an array: those of its default
    integer type, [int32] (with [jax_enable_x64], [int64]); [jnp.minimum] and
    [jnp.maximum] raise [OverflowError] on the others. *)
Definition jax_int_ok (v : Z) : bool :=
  ((- 2 ^ 31 <=? v) && (v <? 2 ^ 31))%Z.

(** The operations the shared code uses on coordinates, instantiated at [Z],
    at [pyfloat] and at [Q].  [c_isnan] tells the floats that are not
    numbers, [c_jax_ok] the Python numbers that JAX converts to an array.
    [c_cast] stands for [cast_to_int] / [cast_to_float], which live in
    [jax_galsim.core.utils] and are not among the sources: all that is asked
    of the cast is that it keeps the number.  Of the comparisons only what
    Python guarantees is asked: on numbers, [a <= b] is the negation of
    [a > b]. *)

Class Coord (T : Type) : Type := {
  c_zero : T;
  c_eqb : T -> T -> bool;
  c_leb : T -> T -> bool;
  c_ltb : T -> T -> bool;
  c_min : T -> T -> T;
  c_max : T -> T -> T;
  c_cast : scalar T -> scalar T;
  c_isnan : T -> bool;
  c_jax_ok : T -> bool;
  c_cast_value : forall s, value (c_cast s) = value s;
  c_number_order : forall a b,
    c_isnan a = false -> c_isnan b = false -> c_leb a b = negb (c_ltb b a)
}.

(** Coordinate types every value of which is a number: the comparisons are
    those of a total order.  This holds of the integers and of the finite
    floats, not of [pyfloat]. *)
Class CoordTotal (T : Type) `{CT : Coord T} : Prop := {
  c_ltb_leb : forall a b, c_ltb a b = negb (c_leb b a);
  c_leb_total : forall a b, c_leb a b = true \/ c_leb b a = true;
  c_eqb_refl : forall a, c_eqb a a = true
}.

(** Modelled from the spec: [cast_to_int] and [cast_to_float]
    (jax_galsim/core/utils.py is not among the sources).  "[BoundsI]
    additionally requires integral inputs": an accepted input is kept as the
    plain Python number of the same value. *)
Definition cast_to_int (s : scalar Z) : scalar Z := Py (value s).
Definition cast_to_float (s : scalar Q) : scalar Q := Py (value s).
Definition cast_to_pyfloat (s : scalar pyfloat) : scalar pyfloat :=
  Py (value s).

#[export] Instance Coord_Z : Coord Z.
Proof.
  refine {| c_zero := 0%Z; c_eqb := Z.eqb; c_leb := Z.leb; c_ltb := Z.ltb;
            c_min := Z.min; c_max := Z.max; c_cast := cast_to_int;
            c_isnan := fun _ => false; c_jax_ok := jax_int_ok |}.
  - intros s. reflexivity.
  - intros a b _ _. rewrite Z.ltb_antisym, negb_involutive. reflexivity.
Defined.

#[export] Instance CoordTotal_Z : CoordTotal (CT := Coord_Z).
Proof.
  split; simpl.
  - intros a b. apply Z.ltb_antisym.
  - intros a b. destruct (Z.leb_spec a b); [now left | right].
    apply Z.leb_le. lia.
  - intros a. apply Z.eqb_refl.
Qed.

(** The floats that are finite numbers.  Conversion to a JAX array never
    raises on a float. *)
#[export] Instance Coord_Q : Coord Q.
Proof.
  refine {| c_zero := 0%Q; c_eqb := Qeq_bool; c_leb := Qle_bool;
            c_ltb := fun a b => negb (Qle_bool b a);
            c_min := Qmin; c_max := Qmax; c_cast := cast_to_float;
            c_isnan := fun _ => false; c_jax_ok := fun _ => true |}.
  - intros s. reflexivity.
  - intros a b _ _. rewrite negb_involutive. reflexivity.
Defined.

#[export] Instance CoordTotal_Q : CoordTotal (CT := Coord_Q).
Proof.
  split; simpl.
  - intros a b. reflexivity.
  - intros a b. destruct (Qlt_le_dec b a) as [H | H].
    + right. apply Qle_bool_iff. apply Qlt_le_weak. exact H.
    + left. apply Qle_bool_iff. exact H.
  - intros a. apply Qeq_bool_refl.
Qed.

(** All floats. *)
#[export] Instance Coord_F : Coord pyfloat.
Proof.
  refine {| c_zero := Fin 0; c_eqb := f_eqb; c_leb := f_leb; c_ltb := f_ltb;
            c_min := f_min; c_max := f_max; c_cast := cast_to_pyfloat;
            c_isnan := f_isnan; c_jax_ok := fun _ => true |}.
  - intros s. reflexivity.
  - intros [| | | p] [| | | q] Ha Hb; try discriminate; simpl;
      try reflexivity.
    rewrite negb_involutive. reflexivity.
Defined.

(** Modelled from the spec: [Position] (position.py is not among the sources),
    "a 2-tuple (x,y), integer or real.  Pure value type." *)
Record Position (T : Type) : Type := mkPosition { pos_x : T; pos_y : T }.

(** ** bounds.py *)

Record Bounds (T : Type) : Type := mkBounds {
  xmin : scalar T;
  xmax : scalar T;
  ymin : scalar T;
  ymax : scalar T;
  _isdefined : bool
}.

(** The positional and keyword forms [_parse_args] accepts; every other
    combination of arguments is [ArgsOther] and raises [TypeError]. *)
Inductive bounds_args (T : Type) : Type :=
| Args0
| Args4 (a b c d : scalar T)
| ArgsBounds (b : Bounds T)
| ArgsPos (p : Position (scalar T))
| ArgsPos2 (p q : Position (scalar T))
| ArgsKw (kxmin kxmax kymin kymax : scalar T)
| ArgsOther.

Arguments Args0 {T}.
Arguments ArgsOther {T}.

Section BoundsCode.

Context {T : Type} `{CT : Coord T}.

(** [isDefined] is inherited from the GalSim base class and returns the
    flag. *)
Definition isDefined (b : Bounds T) : bool := _isdefined b.

(** Python's [a > b] on two scalars. *)
Definition gt (a b : scalar T) : bool := c_ltb (value b) (value a).

(** The built-ins [min(a, b)] and [max(a, b)] return one of their arguments. *)
Definition py_min (a b : scalar T) : scalar T := if gt a b then b else a.
Definition py_max (a b : scalar T) : scalar T := if gt b a then b else a.

(** [jnp.minimum] and [jnp.maximum] convert their operands to JAX arrays and
    return a JAX array; the conversion of a Python integer outside the range
    of JAX's integers raises [OverflowError].  (The conversion of a float to
    JAX's float width is not modelled.) *)
Definition jax_ok (a : scalar T) : bool :=
  match a with
  | Py v => c_jax_ok v
  | Jax _ => true
  end.

Definition jnp_minimum (a b : scalar T) : result (scalar T) :=
  if jax_ok a && jax_ok b then Ok (Jax (c_min (value a) (value b)))
  else Raise OverflowError.

Definition jnp_maximum (a b : scalar T) : result (scalar T) :=
  if jax_ok a && jax_ok b then Ok (Jax (c_max (value a) (value b)))
  else Raise OverflowError.

(** The four coordinates of a bounds, and the two of a position, are ones
    JAX converts. *)
Definition coords_jax_ok (b : Bounds T) : bool :=
  jax_ok (xmin b) && jax_ok (xmax b) && jax_ok (ymin b) && jax_ok (ymax b).

Definition pos_jax_ok (p : Position (scalar T)) : bool :=
  jax_ok (pos_x p) && jax_ok (pos_y p).

(** The closing test of [_parse_args]: "for simple inputs, we can check if the
    bounds are valid". *)
Definition simple_and_invalid (x0 x1 y0 y1 : scalar T) : bool :=
  is_py x0 && is_py x1 && is_py y0 && is_py y1 && (gt x0 x1 || gt y0 y1).

Definition check_valid (b : Bounds T) : Bounds T :=
  if simple_and_invalid (xmin b) (xmax b) (ymin b) (ymax b)
  then mkBounds (xmin b) (xmax b) (ymin b) (ymax b) false
  else b.

Definition _parse_args (args : bounds_args T) : result (Bounds T) :=
  match args with
  | Args4 a b c d => Ok (check_valid (mkBounds a b c d true))
  | Args0 =>
      Ok (check_valid
            (mkBounds (Py c_zero) (Py c_zero) (Py c_zero) (Py c_zero) false))
  | ArgsBounds b0 =>
      Ok (check_valid (mkBounds (xmin b0) (xmax b0) (ymin b0) (ymax b0) true))
  | ArgsPos p =>
      Ok (check_valid (mkBounds (pos_x p) (pos_x p) (pos_y p) (pos_y p) true))
  | ArgsPos2 p q =>
      Ok (check_valid
            (mkBounds (py_min (pos_x p) (pos_x q)) (py_max (pos_x p) (pos_x q))
                      (py_min (pos_y p) (pos_y q)) (py_max (pos_y p) (pos_y q))
                      true))
  | ArgsKw a b c d => Ok (check_valid (mkBounds a b c d true))
  | ArgsOther => Raise TypeError
  end.

(** [BoundsI.__init__] and [BoundsD.__init__].  The integrality test of
    [BoundsI.__init__] rejects non-integral floats; at [T := Z] every input is
    integral and the test never fires. *)
Definition Bounds_init (args : bounds_args T) : result (Bounds T) :=
  b <- _parse_args args ;;
  Ok (mkBounds (c_cast (xmin b)) (c_cast (xmax b))
               (c_cast (ymin b)) (c_cast (ymax b)) (_isdefined b)).

(** [includes] with a [Bounds] or with a [Position]; the form with two
    numbers, which converts them with [float], is not modelled. *)
Definition includes (self b : Bounds T) : bool :=
  isDefined self && isDefined b
  && c_leb (value (xmin self)) (value (xmin b))
  && c_leb (value (xmax b)) (value (xmax self))
  && c_leb (value (ymin self)) (value (ymin b))
  && c_leb (value (ymax b)) (value (ymax self)).

Definition includes_xy (self : Bounds T) (x y : T) : bool :=
  isDefined self
  && c_leb (value (xmin self)) x && c_leb x (value (xmax self))
  && c_leb (value (ymin self)) y && c_leb y (value (ymax self)).

Definition includes_pos (self : Bounds T) (p : Position T) : bool :=
  includes_xy self (pos_x p) (pos_y p).

(** [__and__]: intersection. *)
Definition Bounds_and (self other : Bounds T) : result (Bounds T) :=
  if negb (isDefined self) || negb (isDefined other) then Bounds_init Args0
  else
    x0 <- jnp_maximum (xmin self) (xmin other) ;;
    x1 <- jnp_minimum (xmax self) (xmax other) ;;
    y0 <- jnp_maximum (ymin self) (ymin other) ;;
    y1 <- jnp_minimum (ymax self) (ymax other) ;;
    if gt x0 x1 || gt y0 y1 then Bounds_init Args0
    else Bounds_init (Args4 x0 x1 y0 y1).

(** [__add__]: union with a bounds or with a position of the matching class. *)
Inductive add_operand : Type :=
| AddBounds (b : Bounds T)
| AddPos (p : Position (scalar T))
| AddOther.

Definition Bounds_add (self : Bounds T) (other : add_operand) : result (Bounds T) :=
  match other with
  | AddBounds o =>
      if negb (isDefined o) then Ok self
      else if isDefined self then
        x0 <- jnp_minimum (xmin self) (xmin o) ;;
        x1 <- jnp_maximum (xmax self) (xmax o) ;;
        y0 <- jnp_minimum (ymin self) (ymin o) ;;
        y1 <- jnp_maximum (ymax self) (ymax o) ;;
        Bounds_init (Args4 x0 x1 y0 y1)
      else Ok o
  | AddPos p =>
      if isDefined self then
        x0 <- jnp_minimum (xmin self) (pos_x p) ;;
        x1 <- jnp_maximum (xmax self) (pos_x p) ;;
        y0 <- jnp_minimum (ymin self) (pos_y p) ;;
        y1 <- jnp_maximum (ymax self) (pos_y p) ;;
        Bounds_init (Args4 x0 x1 y0 y1)
      else Bounds_init (ArgsPos p)
  | AddOther => Raise TypeError
  end.

(** Equality of bounds is inherited from the GalSim base class: two bounds of
    one class are equal when their constructor arguments agree, and an
    undefined bounds has none. *)
Definition Bounds_eqb (a b : Bounds T) : bool :=
  if isDefined a then
    isDefined b
    && c_eqb (value (xmin a)) (value (xmin b))
    && c_eqb (value (xmax a)) (value (xmax b))
    && c_eqb (value (ymin a)) (value (ymin b))
    && c_eqb (value (ymax a)) (value (ymax b))
  else negb (isDefined b).

(** The invariant as the data model words it: "a bounds is either defined
    (xmin<=xmax and ymin<=ymax) or undefined (canonical empty value, all
    fields zero, flagged)". *)
Definition ordered (b : Bounds T) : Prop :=
  c_leb (value (xmin b)) (value (xmax b)) = true
  /\ c_leb (value (ymin b)) (value (ymax b)) = true.

Definition all_zero (b : Bounds T) : Prop :=
  value (xmin b) = c_zero /\ value (xmax b) = c_zero
  /\ value (ymin b) = c_zero /\ value (ymax b) = c_zero.

Definition spec_two_states (b : Bounds T) : Prop :=
  (isDefined b = true /\ ordered b) \/ (isDefined b = false /\ all_zero b).

(** Arguments made of plain Python numbers only. *)
Definition plain_bounds (b : Bounds T) : Prop :=
  is_py (xmin b) = true /\ is_py (xmax b) = true
  /\ is_py (ymin b) = true /\ is_py (ymax b) = true.

Definition plain_pos (p : Position (scalar T)) : Prop :=
  is_py (pos_x p) = true /\ is_py (pos_y p) = true.

Definition plain_args (args : bounds_args T) : Prop :=
  match args with
  | Args0 | ArgsOther => True
  | Args4 a b c d | ArgsKw a b c d =>
      is_py a = true /\ is_py b = true /\ is_py c = true /\ is_py d = true
  | ArgsBounds b => plain_bounds b
  | ArgsPos p => plain_pos p
  | ArgsPos2 p q => plain_pos p /\ plain_pos q
  end.

(** The empty bounds a failed or undefined intersection returns. *)
Definition empty_bounds : Bounds T :=
  mkBounds (c_cast (Py c_zero)) (c_cast (Py c_zero))
           (c_cast (Py c_zero)) (c_cast (Py c_zero)) false.

End BoundsCode.

Arguments AddOther {T}.

(** [BoundsI] at the integers. *)
Definition BoundsI : Type := Bounds Z.
Definition PositionI : Type := Position Z.

Definition BoundsI_init (args : bounds_args Z) : result BoundsI :=
  Bounds_init args.

(** [BoundsD] at the floats.  [PositionD] is used by the profiles, whose
    centroids and k-space positions are read as exact rationals. *)
Definition BoundsD : Type := Bounds pyfloat.
Definition PositionD : Type := Position Q.

Definition BoundsD_init (args : bounds_args pyfloat) : result BoundsD :=
  Bounds_init args.

(** [numpyShape]: rows, then columns. *)
Definition numpyShape (b : BoundsI) : Z * Z :=
  if isDefined b
  then ((value (ymax b) - value (ymin b) + 1)%Z,
        (value (xmax b) - value (xmin b) + 1)%Z)
  else (0%Z, 0%Z).

(** ** gsparams.py and position.py (interfaces only) *)

(** Modelled from the spec: [GSParams] (gsparams.py is not among the
    sources), the "global accuracy/size parameters (maximum/minimum FFT size,
    k-value accuracy, folding threshold, etc.)" attached to every object. *)
Record GSParams : Type := mkGSParams {
  minimum_fft_size : Z;
  maximum_fft_size : Z;
  folding_threshold : Q;
  kvalue_accuracy : Q
}.

Definition GSParams_eqb (g h : GSParams) : bool :=
  Z.eqb (minimum_fft_size g) (minimum_fft_size h)
  && Z.eqb (maximum_fft_size g) (maximum_fft_size h)
  && Qeq_bool (folding_threshold g) (folding_threshold h)
  && Qeq_bool (kvalue_accuracy g) (kvalue_accuracy h).

(** Python's [gsparams == self.gsparams], where [gsparams] may be [None]. *)
Definition opt_GSParams_eqb (g : option GSParams) (h : GSParams) : bool :=
  match g with
  | Some g' => GSParams_eqb g' h
  | None => false
  end.

(** Modelled from the spec: [GSParams.check(gsparams, default)], read off its
    call sites: the given parameters when there are some, else the default. *)
Definition GSParams_check (gsparams : option GSParams) (default : GSParams)
  : GSParams :=
  match gsparams with
  | Some g => g
  | None => default
  end.

(** Modelled from the spec: arithmetic of [PositionD] (position.py is not among
    the sources); [_centroid] relies on its "[+]" giving "a Position object
    with x=sum_i x_i and y=sum_i y_i". *)
Definition pos_add (p q : PositionD) : PositionD :=
  mkPosition (pos_x p + pos_x q)%Q (pos_y p + pos_y q)%Q.

Definition pos_neg (p : PositionD) : PositionD :=
  mkPosition (- pos_x p)%Q (- pos_y p)%Q.

(** ** The surface-brightness contract

    Concrete profile families are outside the sources.  A primitive profile is
    any value of a type [P] (its class together with its traced parameters)
    that answers the queries of the abstract contract; its [GSParams] are
    kept beside it, as [GSObject.__init__] does.  [C] is the type of k-space
    amplitudes. *)

Class Contract (P C : Type) : Type := {
  prim_eqb : P -> P -> bool;
  prim_flux : P -> Q;
  prim_centroid : P -> PositionD;
  prim_has_hard_edges : P -> bool;
  prim_is_analytic_x : P -> bool;
  prim_kValue : P -> PositionD -> result C
}.

(** What [convolve.py] asks of amplitudes: [jnp.abs], [1.0 / kval], the
    promotion of a real to an amplitude made by [jnp.where], and [jnp.prod]. *)
Class Amplitude (C : Type) : Type := {
  Cabs : C -> Q;
  Cinv : C -> C;
  CofQ : Q -> C;
  Cone : C;
  Cmul : C -> C -> C
}.

(** [galsim_warn] messages issued by [Convolution.__init__]. *)
Inductive warning : Type :=
| WarnTwoHardEdges
| WarnAllHardEdges
| WarnMoreThanTwo
| WarnNotAnalyticX.

Section Composition.

Variables P C : Type.
Context `{CP : Contract P C} `{AC : Amplitude C}.

(** [GSParams.combine] ("the most restrictive combination") is not among the
    sources; it is a parameter of the development. *)
Variable GSParams_combine : list GSParams -> GSParams.

#[warnings="-register-all"] Inductive GSObject : Type :=
| Primitive (p : P) (_gsparams : GSParams)
| Convolution (_obj_list : list GSObject) (_real_space : bool)
              (_gsparams : GSParams) (_propagate_gsparams : bool)
| Deconvolution (_orig_obj : GSObject) (_gsparams : GSParams)
                (_propagate_gsparams : bool).

Definition gsparams (o : GSObject) : GSParams :=
  match o with
  | Primitive _ g => g
  | Convolution _ _ g _ => g
  | Deconvolution _ g _ => g
  end.

(** [withGSParams] of [GSObject], [Convolution] and [Deconvolution], called
    with [gsparams] alone (no further keywords). *)
Fixpoint withGSParams (o : GSObject) (g : option GSParams) : GSObject :=
  if opt_GSParams_eqb g (gsparams o) then o
  else
    let g' := GSParams_check g (gsparams o) in
    match o with
    | Primitive p _ => Primitive p g'
    | Convolution l rs _ pg =>
        Convolution (if pg then map (fun c => withGSParams c (Some g')) l else l)
                    rs g' pg
    | Deconvolution c _ pg =>
        Deconvolution (if pg then withGSParams c (Some g') else c) g' pg
    end.

(** [jnp.prod(jnp.array(l))] on reals. *)
Definition jnp_prod (l : list Q) : Q := fold_left Qmult l 1%Q.

(** [flux]: [GSObject._flux] of the primitive, [Convolution._flux],
    [Deconvolution._flux]. *)
Fixpoint flux (o : GSObject) : Q :=
  match o with
  | Primitive p _ => prim_flux p
  | Convolution l _ _ _ => jnp_prod (map flux l)
  | Deconvolution c _ _ => (1 / flux c)%Q
  end.

(** Evaluation of a list comprehension whose elements may raise. *)
Fixpoint sequence {A : Type} (l : list (result A)) : result (list A) :=
  match l with
  | [] => Ok []
  | r :: rs => a <- r ;; as_ <- sequence rs ;; Ok (a :: as_)
  end.

(** [sum(cen_list[1:], cen_list[0])]. *)
Definition sum_positions (cen_list : list PositionD) : result PositionD :=
  match cen_list with
  | [] => Raise IndexError
  | c0 :: rest => Ok (fold_left pos_add rest c0)
  end.

Fixpoint centroid (o : GSObject) : result PositionD :=
  match o with
  | Primitive p _ => Ok (prim_centroid p)
  | Convolution l _ _ _ =>
      cen_list <- sequence (map centroid l) ;; sum_positions cen_list
  | Deconvolution c _ _ => cen <- centroid c ;; Ok (pos_neg cen)
  end.

Fixpoint has_hard_edges (o : GSObject) : bool :=
  match o with
  | Primitive p _ => prim_has_hard_edges p
  | Convolution l _ _ _ =>
      match l with
      | [c] => has_hard_edges c
      | _ => false
      end
  | Deconvolution _ _ _ => false
  end.

(** [is_analytic_x].  The second branch of [Convolution._is_analytic_x] calls
    [jnp.arry], which does not exist: it raises [AttributeError]. *)
Fixpoint is_analytic_x (o : GSObject) : result bool :=
  match o with
  | Primitive p _ => Ok (prim_is_analytic_x p)
  | Convolution l rs _ _ =>
      match l with
      | [c] => is_analytic_x c
      | _ =>
          if rs && Nat.eqb (length l) 2
          then _ <- sequence (map is_analytic_x l) ;; Raise AttributeError
          else Ok false
      end
  | Deconvolution _ _ _ => Ok false
  end.

(** [jnp.prod(jnp.array(kv_list))] on amplitudes. *)
Definition jnp_prod_C (l : list C) : C := fold_left Cmul l Cone.

(** [Deconvolution._min_acc_kvalue] and [_inv_min_acc_kvalue], from the
    wrapped object and the parameters of the deconvolution. *)
Definition _min_acc_kvalue (orig_obj_flux : Q) (g : GSParams) : Q :=
  (orig_obj_flux * kvalue_accuracy g)%Q.

Definition _inv_min_acc_kvalue (orig_obj_flux : Q) (g : GSParams) : Q :=
  (1 / _min_acc_kvalue orig_obj_flux g)%Q.

(** Python's [a < b] on reals. *)
Definition Qltb (a b : Q) : bool := negb (Qle_bool b a).

(** [_kValue]; [kValue] only parses its arguments into a position first. *)
Fixpoint _kValue (o : GSObject) (kpos : PositionD) : result C :=
  match o with
  | Primitive p _ => prim_kValue p kpos
  | Convolution l _ _ _ =>
      kv_list <- sequence (map (fun c => _kValue c kpos) l) ;;
      Ok (jnp_prod_C kv_list)
  | Deconvolution c g _ =>
      kval <- _kValue c kpos ;;
      Ok (if Qltb (Cabs kval) (_min_acc_kvalue (flux c) g)
          then CofQ (_inv_min_acc_kvalue (flux c) g)
          else Cinv kval)
  end.

(** [__eq__] of [GSObject], [Convolution] and [Deconvolution]; the fast path
    [self is other] is subsumed, an object being equal to itself. *)
Fixpoint GSObject_eqb (a b : GSObject) : bool :=
  match a, b with
  | Primitive p g, Primitive q h => prim_eqb p q && GSParams_eqb g h
  | Convolution l rs g pg, Convolution m rs' h pg' =>
      (fix list_eqb (l m : list GSObject) : bool :=
         match l, m with
         | [], [] => true
         | x :: l', y :: m' => GSObject_eqb x y && list_eqb l' m'
         | _, _ => false
         end) l m
      && Bool.eqb rs rs' && GSParams_eqb g h && Bool.eqb pg pg'
  | Deconvolution c g pg, Deconvolution d h pg' =>
      GSObject_eqb c d && GSParams_eqb g h && Bool.eqb pg pg'
  | _, _ => false
  end.

(** [Deconvolution.__init__] and the factory [Deconvolve]. *)
Definition Deconvolution_init (obj : GSObject) (gsparams_kw : option GSParams)
           (propagate_gsparams : bool) : GSObject :=
  let g := GSParams_check gsparams_kw (gsparams obj) in
  Deconvolution (if propagate_gsparams then withGSParams obj (Some g) else obj)
                g propagate_gsparams.

Definition Deconvolve (obj : GSObject) (gsparams_kw : option GSParams)
           (propagate_gsparams : bool) : GSObject :=
  Deconvolution_init obj gsparams_kw propagate_gsparams.

Definition orig_obj (o : GSObject) : option GSObject :=
  match o with
  | Deconvolution c _ _ => Some c
  | _ => None
  end.

(** A positional argument of [Convolution(...)]: an object, a list of objects,
    or anything else. *)
Inductive conv_arg : Type :=
| ArgObj (o : GSObject)
| ArgList (l : list GSObject)
| ArgBad.

(** The argument normalisation at the head of [Convolution.__init__], with the
    [isinstance(obj, GSObject)] test of the loop that follows. *)
Fixpoint all_objects (args : list conv_arg) : result (list GSObject) :=
  match args with
  | [] => Ok []
  | ArgObj o :: rest => os <- all_objects rest ;; Ok (o :: os)
  | _ :: _ => Raise TypeError
  end.

Definition conv_objects (args : list conv_arg) : result (list GSObject) :=
  match args with
  | [] => Raise TypeError
  | [ArgObj o] => Ok [o]
  | [ArgList l] => Ok l
  | [ArgBad] => Raise TypeError
  | _ => all_objects args
  end.

(** The loop "for obj in args: if not obj.is_analytic_x: ... break": whether
    some object is found not analytic in real space. *)
Fixpoint some_not_analytic_x (objs : list GSObject) : result bool :=
  match objs with
  | [] => Ok false
  | o :: rest =>
      ax <- is_analytic_x o ;;
      if negb ax then Ok true else some_not_analytic_x rest
  end.

(** [Convolution.__init__]: the warnings issued, and the object or the
    exception. *)
Definition Convolution_init (args : list conv_arg) (real_space : option bool)
           (gsparams_kw : option GSParams) (propagate_gsparams : bool)
  : list warning * result GSObject :=
  match conv_objects args with
  | Raise e => ([], Raise e)
  | Ok objs =>
      let hard_edge := forallb has_hard_edges objs in
      let n := length objs in
      let real_space1 :=
        match real_space with
        | None => if Nat.leb n 2 then hard_edge else false
        | Some b => b
        end in
      let w1 :=
        if negb real_space1 && hard_edge
        then (if Nat.eqb n 2 then [WarnTwoHardEdges] else [WarnAllHardEdges])
        else [] in
      let finish (w : list warning) (rs : bool) : list warning * result GSObject :=
        if rs then (w, Raise NotImplementedError)
        else
          let g := match gsparams_kw with
                   | None => GSParams_combine (map gsparams objs)
                   | Some g0 => g0
                   end in
          let obj_list :=
            if propagate_gsparams
            then map (fun o => withGSParams o (Some g)) objs
            else objs in
          (w, Ok (Convolution obj_list rs g propagate_gsparams)) in
      if real_space1 then
        if Nat.ltb 2 n then finish (w1 ++ [WarnMoreThanTwo]) false
        else
          match some_not_analytic_x objs with
          | Raise e => (w1, Raise e)
          | Ok true => finish (w1 ++ [WarnNotAnalyticX]) false
          | Ok false => finish w1 true
          end
      else finish w1 false
  end.

(** The convolution [Convolution.__init__] builds when it settles on the DFT
    method. *)
Definition dft_convolution (objs : list GSObject) (gsparams_kw : option GSParams)
           (propagate_gsparams : bool) : GSObject :=
  let g := match gsparams_kw with
           | None => GSParams_combine (map gsparams objs)
           | Some g0 => g0
           end in
  Convolution (if propagate_gsparams
               then map (fun o => withGSParams o (Some g)) objs
               else objs)
              false g propagate_gsparams.

(** The number of [Deconvolution] wrappers at the head of an object; equal
    objects have as many. *)
Fixpoint wrappers (o : GSObject) : nat :=
  match o with
  | Deconvolution c _ _ => S (wrappers c)
  | _ => O
  end.

(** Induction over objects, with the hypothesis for every child of a
    convolution. *)
Section Induction.

Variable Pr : GSObject -> Prop.
Hypothesis HPrim : forall p g, Pr (Primitive p g).
Hypothesis HConv : forall l rs g pg, Forall Pr l -> Pr (Convolution l rs g pg).
Hypothesis HDeconv : forall c g pg, Pr c -> Pr (Deconvolution c g pg).

Fixpoint GSObject_induction (o : GSObject) : Pr o :=
  match o with
  | Primitive p g => HPrim p g
  | Convolution l rs g pg =>
      HConv rs g pg
        ((fix children (l : list GSObject) : Forall Pr l :=
            match l with
            | [] => Forall_nil Pr
            | x :: l' => Forall_cons x (GSObject_induction x) (children l')
            end) l)
  | Deconvolution c g pg => HDeconv g pg (GSObject_induction c)
  end.

End Induction.

End Composition.

Arguments ArgBad {P}.

(** ** image.py *)

(** The element types of the alias table [Image._alias_dtypes]. *)
Inductive DType : Type :=
| int64 | uint16 | uint32 | int16 | int32
| float32 | float64 | complex64 | complex128.

Definition DType_eqb (d e : DType) : bool :=
  match d, e with
  | int64, int64 | uint16, uint16 | uint32, uint32 | int16, int16
  | int32, int32 | float32, float32 | float64, float64
  | complex64, complex64 | complex128, complex128 => true
  | _, _ => false
  end.

(** [_alias_dtypes.get(d)]: "[jnp.int64: jnp.int32], not equivalent, but will
    convert"; every other key maps to itself. *)
Definition _alias_dtypes (d : DType) : option DType :=
  match d with
  | int64 => Some int32
  | other => Some other
  end.

Definition _valid_dtypes : list DType :=
  [int32; float64; uint16; uint32; int16; float32; complex64; complex128].

Definition is_valid_dtype (d : DType) : bool :=
  existsb (DType_eqb d) _valid_dtypes.

(** [dtype.kind in ("i", "u")]. *)
Definition dtype_is_integer (d : DType) : bool :=
  match d with
  | int64 | uint16 | uint32 | int16 | int32 => true
  | _ => false
  end.

(** Python indexing of a sequence of length [n]: a negative index counts from
    the end; a slice bound is clipped to the sequence. *)
Definition wrap_index (n i : Z) : Z := if (i <? 0)%Z then (i + n)%Z else i.

Definition clip_index (n i : Z) : nat :=
  Z.to_nat (Z.max 0 (Z.min n (wrap_index n i))).

Definition py_slice {A : Type} (l : list A) (i1 i2 : Z) : list A :=
  let n := Z.of_nat (length l) in
  firstn (clip_index n i2 - clip_index n i1) (skipn (clip_index n i1) l).

(** [l.at[i].set/add]: an update at an index out of range is dropped. *)
Definition update_at {A : Type} (l : list A) (i : Z) (f : A -> A) : list A :=
  let n := Z.of_nat (length l) in
  let i' := wrap_index n i in
  if ((0 <=? i') && (i' <? n))%Z
  then firstn (Z.to_nat i') l
       ++ match nth_error l (Z.to_nat i') with
          | Some a => [f a]
          | None => []
          end
       ++ skipn (S (Z.to_nat i')) l
  else l.

Fixpoint map2 {A B D : Type} (f : A -> B -> D) (l : list A) (m : list B)
  : list D :=
  match l, m with
  | a :: l', b :: m' => f a b :: map2 f l' m'
  | _, _ => []
  end.

(** Coordinates of the image frame: adding an integer to a bound. *)
Definition scalar_add (s : scalar Z) (n : Z) : scalar Z :=
  match s with
  | Py v => Py (v + n)%Z
  | Jax v => Jax (v + n)%Z
  end.

(** Pixel values with the arithmetic of JAX arrays, and world coordinate
    systems (wcs.py), are outside the sources.  [V] is the type of pixel
    values, [convert d] the conversion of a value to element type [d],
    [result_type] the element type of an operation on two arrays and
    [result_type_scalar] on an array and a Python number. *)
Class PixelOps (V : Type) : Type := {
  vzero : V;
  vadd : V -> V -> V;
  vsub : V -> V -> V;
  vmul : V -> V -> V;
  convert : DType -> V -> V;
  result_type : DType -> DType -> DType;
  result_type_scalar : DType -> DType -> DType
}.

Class WcsOps (WCS : Type) : Type := {
  PixelScale : Q -> WCS
}.

Section Images.

Variables V WCS : Type.
Context `{PO : PixelOps V} `{WO : WcsOps WCS}.

(** A two-dimensional array: its element type and its rows. *)
Record ndarray : Type := mkArray {
  arr_dtype : DType;
  arr_rows : list (list V)
}.

Definition shape (a : ndarray) : Z * Z :=
  (Z.of_nat (length (arr_rows a)), Z.of_nat (length (hd [] (arr_rows a)))).

Definition shape_eqb (s t : Z * Z) : bool :=
  Z.eqb (fst s) (fst t) && Z.eqb (snd s) (snd t).

Definition astype (a : ndarray) (d : DType) : ndarray :=
  mkArray d (map (map (convert d)) (arr_rows a)).

(** [jnp.zeros(shape, dtype)]; a negative dimension is an error. *)
Definition jnp_zeros (sh : Z * Z) (d : DType) : result ndarray :=
  if ((fst sh <? 0) || (snd sh <? 0))%Z then Raise ValueError
  else Ok (mkArray d (repeat (repeat (convert d vzero) (Z.to_nat (snd sh)))
                             (Z.to_nat (fst sh)))).

(** Elementwise operations on arrays of one shape, and with a number. *)
Definition arr_binop (op : V -> V -> V) (a b : ndarray) : ndarray :=
  mkArray (result_type (arr_dtype a) (arr_dtype b))
          (map2 (map2 op) (arr_rows a) (arr_rows b)).

Definition arr_scalarop (op : V -> V -> V) (a : ndarray) (v : V) (dt : DType)
  : ndarray :=
  mkArray (result_type_scalar (arr_dtype a) dt)
          (map (map (fun x => op x v)) (arr_rows a)).

Record Image : Type := mkImage {
  _array : ndarray;
  _bounds : BoundsI;
  wcs : option WCS;
  _dtype : DType;
  _is_const : bool
}.

Definition isconst (im : Image) : bool := _is_const im.
Definition isinteger (im : Image) : bool := dtype_is_integer (arr_dtype (_array im)).
Definition Image_xmin (im : Image) : Z := value (xmin (_bounds im)).
Definition Image_ymin (im : Image) : Z := value (ymin (_bounds im)).

(** [_make_empty]: "galsim forces degenerate images to have at least 1
    pixel". *)
Definition _make_empty (sh : Z * Z) (d : DType) : result ndarray :=
  if (fst sh * snd sh =? 0)%Z then jnp_zeros (1%Z, 1%Z) d
  else jnp_zeros sh d.

(** The positional argument of [Image(...)] (or its keyword twin [array=],
    [bounds=], [image=], [ncol=]/[nrow=]) and the other keywords. *)
Inductive image_arg : Type :=
| ImgNone
| ImgShape (ncol nrow : Z)
| ImgArray (a : ndarray)
| ImgBounds (b : BoundsI)
| ImgImage (im : Image).

Record image_kwargs : Type := mkKwargs {
  kw_xmin : option Z;
  kw_ymin : option Z;
  kw_bounds : option BoundsI;
  kw_dtype : option DType;
  kw_init_value : option (V * DType);
  kw_scale : option Q;
  kw_wcs : option WCS;
  kw_make_const : bool
}.

Definition no_kwargs : image_kwargs :=
  mkKwargs None None None None None None None false.

Definition or_default {A : Type} (o : option A) (d : A) : A :=
  match o with Some a => a | None => d end.

(** [_get_xmin_ymin]: the array kept (or [None] for a formally undefined
    image), the origin, and the [dtype] keyword afterwards. *)
Definition _get_xmin_ymin (array : ndarray) (kw : image_kwargs)
  : result (option (ndarray * scalar Z * scalar Z) * option DType) :=
  let xmin0 := Py (or_default (kw_xmin kw) 1%Z) in
  let ymin0 := Py (or_default (kw_ymin kw) 1%Z) in
  let undefined_dtype := Some (or_default (kw_dtype kw) (arr_dtype array)) in
  match kw_bounds kw with
  | Some b =>
      if isDefined b then
        if negb (value (xmax b) - value (xmin b) + 1 =? snd (shape array))%Z
        then Raise GalSimIncompatibleValuesError
        else if negb (value (ymax b) - value (ymin b) + 1 =? fst (shape array))%Z
        then Raise GalSimIncompatibleValuesError
        else Ok (Some (array, xmin b, ymin b), kw_dtype kw)
      else Ok (None, undefined_dtype)
  | None =>
      if (snd (shape array) =? 0)%Z then Ok (None, undefined_dtype)
      else Ok (Some (array, xmin0, ymin0), kw_dtype kw)
  end.

(** The attribute [wcs] at the end of [Image.__init__]. *)
Definition init_wcs (scale : option Q) (w : option WCS) : result (option WCS) :=
  match scale with
  | Some sc =>
      match w with
      | Some _ => Raise GalSimIncompatibleValuesError
      | None => Ok (Some (PixelScale sc))
      end
  | None => Ok w
  end.

(** [self._array + init_value] under "[if init_value:]"; the field [_dtype]
    is not updated. *)
Definition add_init_value (a : ndarray) (init_value : option (V * DType))
  : ndarray :=
  match init_value with
  | Some (v, dt) => arr_scalarop vadd a v dt
  | None => a
  end.

(** [Image.__init__].  A keyword that the chosen form does not consume is
    left over and raises [TypeError]; the keyword [copy] is not modelled. *)
Definition Image_init (arg : image_arg) (kw : image_kwargs) : result Image :=
  let dtype0 := match kw_dtype kw with
                | Some d => _alias_dtypes d
                | None => None
                end in
  let check_dtype (d : option DType) : result unit :=
    match d with
    | Some d' => if is_valid_dtype d' then Ok tt else Raise GalSimValueError
    | None => Ok tt
    end in
  let origin_given :=
    match kw_xmin kw, kw_ymin kw with None, None => false | _, _ => true end in
  let bounds_given := match kw_bounds kw with Some _ => true | None => false end in
  let from_shape (ncol nrow : Z) : result Image :=
    if bounds_given then Raise TypeError else
    _ <- check_dtype dtype0 ;;
    let d := or_default dtype0 float32 in
    a <- _make_empty (nrow, ncol) d ;;
    let x0 := or_default (kw_xmin kw) 1%Z in
    let y0 := or_default (kw_ymin kw) 1%Z in
    b <- BoundsI_init (Args4 (Py x0) (Py (x0 + ncol - 1)%Z)
                             (Py y0) (Py (y0 + nrow - 1)%Z)) ;;
    w <- init_wcs (kw_scale kw) (kw_wcs kw) ;;
    Ok (mkImage (add_init_value a (kw_init_value kw)) b w d (kw_make_const kw)) in
  let from_bounds (b : BoundsI) : result Image :=
    if origin_given then Raise TypeError else
    _ <- check_dtype dtype0 ;;
    let d := or_default dtype0 float32 in
    a <- _make_empty (numpyShape b) d ;;
    w <- init_wcs (kw_scale kw) (kw_wcs kw) ;;
    Ok (mkImage (add_init_value a (kw_init_value kw)) b w d (kw_make_const kw)) in
  let from_nothing (dt : option DType) : result Image :=
    _ <- check_dtype dt ;;
    let d := or_default dt float32 in
    a <- jnp_zeros (1%Z, 1%Z) d ;;
    b <- BoundsI_init Args0 ;;
    match kw_init_value kw with
    | Some _ => Raise GalSimIncompatibleValuesError
    | None =>
        w <- init_wcs (kw_scale kw) (kw_wcs kw) ;;
        Ok (mkImage a b w d (kw_make_const kw))
    end in
  match arg with
  | ImgShape ncol nrow => from_shape ncol nrow
  | ImgBounds b => if bounds_given then Raise TypeError else from_bounds b
  | ImgNone =>
      match kw_bounds kw with
      | Some b => from_bounds b
      | None => from_nothing dtype0
      end
  | ImgArray array =>
      r <- _get_xmin_ymin array kw ;;
      match r with
      | (None, dt) =>
          from_nothing (match dt with Some d => _alias_dtypes d | None => None end)
      | (Some (array1, x0, y0), dt) =>
          _ <- check_dtype dtype0 ;;
          array2 <-
            match dtype0 with
            | None =>
                match _alias_dtypes (arr_dtype array1) with
                | Some d => Ok (astype array1 d)
                | None =>
                    if negb (is_valid_dtype (arr_dtype array1))
                    then Raise GalSimValueError
                    else Ok array1
                end
            | Some d => Ok (astype array1 d)
            end ;;
          let nrow := fst (shape array2) in
          let ncol := snd (shape array2) in
          b <- BoundsI_init (Args4 x0 (scalar_add x0 (ncol - 1))
                                   y0 (scalar_add y0 (nrow - 1))) ;;
          match kw_init_value kw with
          | Some _ => Raise GalSimIncompatibleValuesError
          | None =>
              w <- init_wcs (kw_scale kw) (kw_wcs kw) ;;
              Ok (mkImage array2 b w (arr_dtype array2) (kw_make_const kw))
          end
      end
  | ImgImage image =>
      if bounds_given || origin_given then Raise TypeError else
      _ <- check_dtype dtype0 ;;
      match kw_init_value kw with
      | Some _ => Raise GalSimIncompatibleValuesError
      | None =>
          let w0 := match kw_wcs kw, kw_scale kw with
                    | None, None => wcs image
                    | w', _ => w'
                    end in
          let d := or_default dtype0 (_dtype image) in
          w <- init_wcs (kw_scale kw) w0 ;;
          Ok (mkImage (astype (_array image) d) (_bounds image) w d
                      (kw_make_const kw))
      end
  end.

(** The operand of an arithmetic operator: an image, or a number together
    with the element type its Python type compares equal to. *)
Inductive operand : Type :=
| OImage (im : Image)
| OScalar (v : V) (dt : DType).

(** A method that assigns to [self]: its outcome and [self] afterwards. *)
Definition effect : Type := (result unit * Image)%type.

Definition set_array (self : Image) (a : ndarray) : Image :=
  mkImage a (_bounds self) (wcs self) (_dtype self) (_is_const self).

Definition resize (self : Image) (bounds : BoundsI) (w : option WCS) : effect :=
  if isconst self then (Raise GalSimImmutableError, self)
  else
    match _make_empty (numpyShape bounds) (_dtype self) with
    | Raise e => (Raise e, self)
    | Ok a =>
        (Ok tt,
         mkImage a bounds (match w with Some _ => w | None => wcs self end)
                 (_dtype self) (_is_const self))
    end.

Definition with_bounds_wcs (b : BoundsI) (w : option WCS) : image_kwargs :=
  mkKwargs None None (Some b) None None None w false.

Definition subImage (self : Image) (bounds : BoundsI) : result Image :=
  if negb (isDefined (_bounds self)) then Raise GalSimUndefinedBoundsError
  else if negb (includes (_bounds self) bounds) then Raise GalSimBoundsError
  else
    let i1 := (value (ymin bounds) - Image_ymin self)%Z in
    let i2 := (value (ymax bounds) - Image_ymin self + 1)%Z in
    let j1 := (value (xmin bounds) - Image_xmin self)%Z in
    let j2 := (value (xmax bounds) - Image_xmin self + 1)%Z in
    let subarray :=
      mkArray (arr_dtype (_array self))
              (map (fun row => py_slice row j1 j2)
                   (py_slice (arr_rows (_array self)) i1 i2)) in
    Image_init (ImgArray subarray) (with_bounds_wcs bounds (wcs self)).

(** [a.at[i1:i2, j1:j2].set(rhs)]. *)
Definition set_block (a : ndarray) (i1 i2 j1 j2 : Z) (rhs : ndarray) : ndarray :=
  let rows := arr_rows a in
  let n := Z.of_nat (length rows) in
  let r1 := clip_index n i1 in
  let r2 := clip_index n i2 in
  let put (row new : list V) : list V :=
    let m := Z.of_nat (length row) in
    let c1 := clip_index m j1 in
    let c2 := clip_index m j2 in
    firstn c1 row ++ map (convert (arr_dtype a)) (firstn (c2 - c1) new)
    ++ skipn c2 row in
  mkArray (arr_dtype a)
          (firstn r1 rows
           ++ map2 put (firstn (r2 - r1) (skipn r1 rows)) (arr_rows rhs)
           ++ skipn r2 rows).

Definition setSubImage (self : Image) (bounds : BoundsI) (rhs : Image) : effect :=
  if isconst self then (Raise GalSimImmutableError, self)
  else if negb (isDefined (_bounds self))
  then (Raise GalSimUndefinedBoundsError, self)
  else if negb (includes (_bounds self) bounds)
  then (Raise GalSimBoundsError, self)
  else if negb (shape_eqb (numpyShape bounds) (numpyShape (_bounds rhs)))
  then (Raise GalSimIncompatibleValuesError, self)
  else
    let i1 := (value (ymin bounds) - Image_ymin self)%Z in
    let i2 := (value (ymax bounds) - Image_ymin self + 1)%Z in
    let j1 := (value (xmin bounds) - Image_xmin self)%Z in
    let j2 := (value (xmax bounds) - Image_xmin self + 1)%Z in
    (Ok tt, set_array self (set_block (_array self) i1 i2 j1 j2 (_array rhs))).

Definition copyFrom (self rhs : Image) : effect :=
  if isconst self then (Raise GalSimImmutableError, self)
  else if negb (shape_eqb (numpyShape (_bounds self)) (numpyShape (_bounds rhs)))
  then (Raise GalSimIncompatibleValuesError, self)
  else (Ok tt, set_array self (_array rhs)).

(** [self.array[i, j]]: negative indices wrap, then the index is clamped. *)
Definition clamp_index (n i : Z) : nat :=
  Z.to_nat (Z.max 0 (Z.min (n - 1) (wrap_index n i))).

Definition _getValue (self : Image) (x y : Z) : V :=
  let rows := arr_rows (_array self) in
  let row := nth (clamp_index (Z.of_nat (length rows)) (y - Image_ymin self)) rows [] in
  nth (clamp_index (Z.of_nat (length row)) (x - Image_xmin self)) row vzero.

Definition getValue (self : Image) (x y : Z) : result V :=
  if negb (isDefined (_bounds self)) then Raise GalSimUndefinedBoundsError
  else if negb (includes_xy (_bounds self) x y) then Raise GalSimBoundsError
  else Ok (_getValue self x y).

(** [__getitem__]: a sub-image or a pixel value, by the kind of index. *)
Inductive index : Type :=
| IdxBounds (b : BoundsI)
| IdxPos (p : PositionI)
| IdxTuple (x y : Z)
| IdxOther.

Inductive item : Type :=
| ItemImage (im : Image)
| ItemValue (v : V).

Definition Image_getitem (self : Image) (idx : index) : result item :=
  match idx with
  | IdxBounds b => im <- subImage self b ;; Ok (ItemImage im)
  | IdxPos p => v <- getValue self (pos_x p) (pos_y p) ;; Ok (ItemValue v)
  | IdxTuple x y => v <- getValue self x y ;; Ok (ItemValue v)
  | IdxOther => Raise TypeError
  end.

Definition _setValue (self : Image) (x y : Z) (v : V) : Image :=
  let a := _array self in
  set_array self
    (mkArray (arr_dtype a)
       (update_at (arr_rows a) (y - Image_ymin self)
          (fun row => update_at row (x - Image_xmin self)
                        (fun _ => convert (arr_dtype a) v)))).

Definition setValue (self : Image) (pos : PositionI) (v : V) : effect :=
  if isconst self then (Raise GalSimImmutableError, self)
  else if negb (isDefined (_bounds self))
  then (Raise GalSimUndefinedBoundsError, self)
  else if negb (includes_pos (_bounds self) pos)
  then (Raise GalSimBoundsError, self)
  else (Ok tt, _setValue self (pos_x pos) (pos_y pos) v).

Definition _addValue (self : Image) (x y : Z) (v : V) : Image :=
  let a := _array self in
  set_array self
    (mkArray (arr_dtype a)
       (update_at (arr_rows a) (y - Image_ymin self)
          (fun row => update_at row (x - Image_xmin self)
                        (fun old => convert (arr_dtype a) (vadd old v))))).

Definition addValue (self : Image) (pos : PositionI) (v : V) : effect :=
  if isconst self then (Raise GalSimImmutableError, self)
  else if negb (isDefined (_bounds self))
  then (Raise GalSimUndefinedBoundsError, self)
  else if negb (includes_pos (_bounds self) pos)
  then (Raise GalSimBoundsError, self)
  else (Ok tt, _addValue self (pos_x pos) (pos_y pos) v).

(** [jnp.zeros_like(self._array) + value]. *)
Definition _fill (self : Image) (v : V) (dt : DType) : Image :=
  let a := _array self in
  let zeros_like :=
    mkArray (arr_dtype a)
            (map (map (fun _ => convert (arr_dtype a) vzero)) (arr_rows a)) in
  set_array self (arr_scalarop vadd zeros_like v dt).

Definition fill (self : Image) (v : V) (dt : DType) : effect :=
  if isconst self then (Raise GalSimImmutableError, self)
  else if negb (isDefined (_bounds self))
  then (Raise GalSimUndefinedBoundsError, self)
  else (Ok tt, _fill self v dt).

(** [setZero] fills with the Python integer [0]. *)
Definition setZero (self : Image) : effect :=
  if isconst self then (Raise GalSimImmutableError, self)
  else (Ok tt, _fill self vzero int64).

Definition check_image_consistency (im1 : Image) (im2 : operand) (integer : bool)
  : result unit :=
  if integer && negb (isinteger im1) then Raise GalSimValueError
  else
    match im2 with
    | OImage i2 =>
        if negb (shape_eqb (shape (_array im1)) (shape (_array i2)))
        then Raise GalSimIncompatibleValuesError
        else if integer && negb (isinteger i2) then Raise GalSimValueError
        else Ok tt
    | OScalar _ _ => Ok tt
    end.

(** [self.array <op> a], with [a] the array of an image or the number. *)
Definition apply_op (op : V -> V -> V) (self : Image) (other : operand) : ndarray :=
  match other with
  | OImage im => arr_binop op (_array self) (_array im)
  | OScalar v dt => arr_scalarop op (_array self) v dt
  end.

Definition operand_dtype (other : operand) : DType :=
  match other with
  | OImage im => arr_dtype (_array im)
  | OScalar _ dt => dt
  end.

Definition Image_add (self : Image) (other : operand) : result Image :=
  _ <- check_image_consistency self other false ;;
  Image_init (ImgArray (apply_op vadd self other))
             (with_bounds_wcs (_bounds self) (wcs self)).

Definition Image_sub (self : Image) (other : operand) : result Image :=
  _ <- check_image_consistency self other false ;;
  Image_init (ImgArray (apply_op vsub self other))
             (with_bounds_wcs (_bounds self) (wcs self)).

Definition Image_mul (self : Image) (other : operand) : result Image :=
  _ <- check_image_consistency self other false ;;
  Image_init (ImgArray (apply_op vmul self other))
             (with_bounds_wcs (_bounds self) (wcs self)).

(** The body shared, in the source by repetition, by [Image_iadd],
    [Image_isub] and [Image_imul]. *)
Definition inplace (op : V -> V -> V) (self : Image) (other : operand) : effect :=
  match check_image_consistency self other false with
  | Raise e => (Raise e, self)
  | Ok _ =>
      let dt := operand_dtype other in
      let d := arr_dtype (_array self) in
      if DType_eqb dt d
      then (Ok tt, set_array self (apply_op op self other))
      else (Ok tt, set_array self (astype (apply_op op self other) d))
  end.

Definition Image_iadd (self : Image) (other : operand) : effect :=
  inplace vadd self other.

Definition Image_isub (self : Image) (other : operand) : effect :=
  inplace vsub self other.

Definition Image_imul (self : Image) (other : operand) : effect :=
  inplace vmul self other.

(** The invariants of the data model on an image whose bounds are defined:
    the bounds are in order and the buffer has the shape
    [bounds.numpyShape()]. *)
Definition Image_invariant (im : Image) : Prop :=
  isDefined (_bounds im) = true ->
  (value (xmin (_bounds im)) <= value (xmax (_bounds im)))%Z
  /\ (value (ymin (_bounds im)) <= value (ymax (_bounds im)))%Z
  /\ shape (_array im) = numpyShape (_bounds im).

(** [b] lies fully inside [B]. *)
Definition fully_contained (b B : BoundsI) : Prop :=
  isDefined B = true /\ isDefined b = true
  /\ (value (xmin B) <= value (xmin b))%Z /\ (value (xmax b) <= value (xmax B))%Z
  /\ (value (ymin B) <= value (ymin b))%Z /\ (value (ymax b) <= value (ymax B))%Z.

(** The result of an operator is an image that carries the bounds and the
    wcs of [im]. *)
Definition carries_frame_of (im : Image) (res : result (Image))
  : Prop :=
  exists r, res = Ok r
            /\ Bounds_eqb (_bounds r) (_bounds im) = true
            /\ isDefined (_bounds r) = isDefined (_bounds im)
            /\ wcs r = wcs im.

End Images.

Arguments ImgNone {V WCS}.
Arguments ImgShape {V WCS} ncol nrow.
Arguments ImgArray {V WCS} a.
Arguments ImgBounds {V WCS} b.
Arguments ImgImage {V WCS} im.
Arguments OImage {V WCS} im.
Arguments OScalar {V WCS} v dt.
Arguments ItemImage {V WCS} im.
Arguments ItemValue {V WCS} v.
Arguments no_kwargs {V WCS}.
Arguments with_bounds_wcs {V WCS} b w.

(** ** The photon accumulation loop of gsobject.py *)

(** [jnp.abs(g - 1.0) + jnp.abs(thisN - Ntot) == 0]: the "weird way to say
    gain == 1 and thisN == Ntot" of the source. *)
Definition skip_scaling (g : Q) (thisN Ntot : Z) : bool :=
  Qeq_bool (Qabs (g - 1) + inject_Z (Z.abs (thisN - Ntot))) 0.

(** [g * thisN / Ntot]. *)
Definition flux_factor (g : Q) (thisN Ntot : Z) : Q :=
  (g * inject_Z thisN / inject_Z Ntot)%Q.

(** [int(n_photons + 0.5)] on a Python integer: truncation towards zero. *)
Definition int_plus_half (n : Z) : Z := if (0 <=? n)%Z then n else (n + 1)%Z.

(** Python's [a or b] on optional sizes: [a] unless it is [None] or zero. *)
Definition py_or (a b : option Z) : option Z :=
  match a with
  | Some n => if (n =? 0)%Z then b else a
  | None => b
  end.

(** Photon arrays (photon_array.py), random deviates, sensors (sensor.py),
    photon operators and [calculate_n_photons] (core/draw.py) are
    collaborators outside the sources; the loop sees them through the calls
    below.  [Img] is the image as the loop uses it. *)
Class Collaborators (PhotonArray Rng Img PhotonOp : Type) : Type := {
  new_PhotonArray : Z -> PhotonArray;
  shoot : Z -> Rng -> result (PhotonArray * Rng);
  set_num_keep : PhotonArray -> Z -> PhotonArray;
  scaleFlux : PhotonArray -> Q -> PhotonArray;
  scaleXY : PhotonArray -> Q -> PhotonArray;
  applyTo : PhotonOp -> PhotonArray -> Rng -> PhotonArray * Rng;
  accumulate : PhotonArray -> Img -> bool -> Q * Img;
  image_scale : Img -> Q;
  image_is_float : Img -> bool;
  image_has_pixel_scale : Img -> bool;
  image_setZero : Img -> result Img;
  ImageD_like : Img -> Img;
  image_iadd : Img -> Img -> Img;
  calculate_n_photons : option Z -> bool -> Q -> Rng -> Z * Q * Rng
}.

Section PhotonLoop.

Variables PhotonArray Rng Img PhotonOp : Type.
Context `{CO : Collaborators PhotonArray Rng Img PhotonOp}.

(** [_DrawPhotReturnTuple], less the fields that never change. *)
Record DrawPhotReturn : Type := mkReturn {
  r_photons : PhotonArray;
  r_rng : Rng;
  r_added_flux : Q;
  r_image : Img;
  r_resume : bool
}.

(** The successive steps of [_draw_phot_while_loop_shoot]. *)
Definition shoot_step (maxN thisN : Z) (rng : Rng) : result (PhotonArray * Rng) :=
  match shoot maxN rng with
  | Ok (photons, rng') => Ok (set_num_keep photons thisN, rng')
  | Raise _ => Raise GalSimNotImplementedError
  end.

Definition flux_step (g : Q) (thisN Ntot : Z) (photons : PhotonArray)
  : PhotonArray :=
  if skip_scaling g thisN Ntot then photons
  else scaleFlux photons (flux_factor g thisN Ntot).

Definition xy_step (image : Img) (photons : PhotonArray) : PhotonArray :=
  if negb (Qeq_bool (image_scale image) 1) then scaleXY photons (1 / image_scale image)
  else photons.

Fixpoint ops_step (photon_ops : list PhotonOp) (photons : PhotonArray) (rng : Rng)
  : PhotonArray * Rng :=
  match photon_ops with
  | [] => (photons, rng)
  | op :: rest => let (p, r) := applyTo op photons rng in ops_step rest p r
  end.

Definition accumulate_step (photons : PhotonArray) (image : Img) (resume : bool)
           (added_flux : Q) : Q * Img * bool :=
  if image_is_float image then
    let (f, image') := accumulate photons image resume in
    ((added_flux + f)%Q, image', true)
  else
    let (f, im1) := accumulate photons (ImageD_like image) false in
    ((added_flux + f)%Q, image_iadd image im1, resume).

Definition _draw_phot_while_loop_shoot (maxN thisN Ntot : Z) (rng : Rng) (g : Q)
           (image : Img) (photon_ops : list PhotonOp) (resume : bool)
           (added_flux : Q) : result DrawPhotReturn :=
  pr <- shoot_step maxN thisN rng ;;
  let photons := xy_step image (flux_step g thisN Ntot (fst pr)) in
  let (photons', rng') := ops_step photon_ops photons (snd pr) in
  let '(added, image', resume') :=
    accumulate_step photons' image resume added_flux in
  Ok (mkReturn photons' rng' added image' resume').

(** The dictionary threaded through [jax.lax.while_loop], less its constant
    entries ([obj], [g], [Ntot], [photon_ops], [local_wcs], [sensor],
    [orig_center]). *)
Record loop_state : Type := mkState {
  s_photons : PhotonArray;
  s_rng : Rng;
  s_added_flux : Q;
  s_Nleft : Z;
  s_resume : bool;
  s_image : Img
}.

Definition _cond_fun (s : loop_state) : bool := (0 <? s_Nleft s)%Z.

Definition _body_fun (maxN Ntot : Z) (g : Q) (photon_ops : list PhotonOp)
           (s : loop_state) : result loop_state :=
  let thisN := Z.min maxN (s_Nleft s) in
  r <- _draw_phot_while_loop_shoot maxN thisN Ntot (s_rng s) g (s_image s)
         photon_ops (s_resume s) (s_added_flux s) ;;
  Ok (mkState (r_photons r) (r_rng r) (r_added_flux r) (s_Nleft s - thisN)%Z
              (r_resume r) (r_image r)).

(** [jax.lax.while_loop]: [None] when the fuel runs out before the condition
    fails. *)
Fixpoint while_loop (fuel : nat) (cond : loop_state -> bool)
         (body : loop_state -> result loop_state) (s : loop_state)
  : option (result loop_state) :=
  if cond s then
    match fuel with
    | O => None
    | S fuel' =>
        match body s with
        | Ok s' => while_loop fuel' cond body s'
        | Raise e => Some (Raise e)
        end
    end
  else Some (Ok s).

Definition _draw_phot_while_loop (fuel : nat) (photons : PhotonArray) (rng : Rng)
           (image : Img) (g : Q) (Ntot maxN : Z) (photon_ops : list PhotonOp)
  : option (result DrawPhotReturn) :=
  match while_loop fuel _cond_fun (_body_fun maxN Ntot g photon_ops)
          (mkState photons rng 0%Q Ntot false image) with
  | None => None
  | Some (Raise e) => Some (Raise e)
  | Some (Ok s) =>
      Some (Ok (mkReturn (s_photons s) (s_rng s) (s_added_flux s) (s_image s)
                         false))
  end.

(** The factor handed on by [drawPhot]: "this call can save computations for
    the common case of gain == 1.0". *)
Definition drawPhot_g (g0 gain : Q) : Q :=
  if negb (Qeq_bool gain 1) then (g0 / gain)%Q else g0.

(** The capacity [drawPhot] settles on, from its argument [maxN] and the
    module-level [_JAX_GALSIM_PHOTON_ARRAY_SIZE]. *)
Definition drawPhot_maxN (maxN array_size : option Z) : option Z :=
  match maxN, array_size with
  | Some m, Some a => Some (Z.min m a)
  | _, _ => py_or array_size maxN
  end.

(** [drawPhot], up to the hand-over of the results to its caller's objects;
    only the default sensor is modelled. *)
Definition drawPhot (fuel : nat) (image : Img) (gain : Q) (add_to_image : bool)
           (n_photons : option Z) (rng : Rng) (max_extra_noise : Q)
           (poisson_flux : option bool) (photon_ops : list PhotonOp)
           (maxN array_size : option Z) : option (result DrawPhotReturn) :=
  let poisson := match poisson_flux with
                 | Some b => b
                 | None => match n_photons with None => true | Some _ => false end
                 end in
  if negb (image_has_pixel_scale image) then Some (Raise GalSimValueError)
  else
    let '(N, g0, rng1) := calculate_n_photons n_photons poisson max_extra_noise rng in
    let Ntot := match n_photons with
                | Some n => int_plus_half n
                | None => N
                end in
    let g := drawPhot_g g0 gain in
    match (if add_to_image then Ok image else image_setZero image) with
    | Raise e => Some (Raise e)
    | Ok image1 =>
        match drawPhot_maxN maxN array_size with
        | None =>
            Some (_draw_phot_while_loop_shoot Ntot Ntot Ntot rng1 g image1
                    photon_ops false 0%Q)
        | Some m =>
            _draw_phot_while_loop fuel (new_PhotonArray m) rng1 image1 g Ntot m
              photon_ops
        end
    end.

End PhotonLoop.

Arguments _cond_fun {PhotonArray Rng Img} s.

(** ** Stand-ins for the collaborators, and concrete inputs *)

(** A profile stand-in exposing only the abstract contract, with a constant
    real k-value. *)
Record StandIn : Type := mkStandIn {
  si_flux : Q;
  si_centroid : PositionD;
  si_has_hard_edges : bool;
  si_is_analytic_x : bool;
  si_kvalue : Q
}.

Definition StandIn_eqb (a b : StandIn) : bool :=
  Qeq_bool (si_flux a) (si_flux b)
  && Qeq_bool (pos_x (si_centroid a)) (pos_x (si_centroid b))
  && Qeq_bool (pos_y (si_centroid a)) (pos_y (si_centroid b))
  && Bool.eqb (si_has_hard_edges a) (si_has_hard_edges b)
  && Bool.eqb (si_is_analytic_x a) (si_is_analytic_x b)
  && Qeq_bool (si_kvalue a) (si_kvalue b).

#[export] Instance Contract_StandIn : Contract StandIn Q := {|
  prim_eqb := StandIn_eqb;
  prim_flux := si_flux;
  prim_centroid := si_centroid;
  prim_has_hard_edges := si_has_hard_edges;
  prim_is_analytic_x := si_is_analytic_x;
  prim_kValue := fun p _ => Ok (si_kvalue p)
|}.

#[export] Instance Amplitude_Q : Amplitude Q := {|
  Cabs := Qabs;
  Cinv := fun z => (1 / z)%Q;
  CofQ := fun q => q;
  Cone := 1%Q;
  Cmul := Qmult
|}.

Definition some_gsparams : GSParams :=
  mkGSParams 128%Z 8192%Z (5 # 1000) (1 # 100000).

Definition first_gsparams (l : list GSParams) : GSParams := hd some_gsparams l.

(** A smooth profile of flux 2 centred at (1, 0) and another of flux 3
    centred at (0, 2). *)
Definition smooth_a : GSObject StandIn :=
  Primitive (mkStandIn 2 (mkPosition 1 0) false true (1 # 2)) some_gsparams.

Definition smooth_b : GSObject StandIn :=
  Primitive (mkStandIn 3 (mkPosition 0 2) false true (1 # 4)) some_gsparams.

(** Integer pixels of one element type, and a wcs that is its pixel scale. *)
#[export] Instance PixelOps_Z : PixelOps Z := {|
  vzero := 0%Z;
  vadd := Z.add;
  vsub := Z.sub;
  vmul := Z.mul;
  convert := fun _ v => v;
  result_type := fun d _ => d;
  result_type_scalar := fun d _ => d
|}.

#[export] Instance WcsOps_Q : WcsOps Q := {| PixelScale := fun sc => sc |}.

Definition bounds_1_5 : BoundsI := mkBounds (Py 1%Z) (Py 5%Z) (Py 1%Z) (Py 5%Z) true.
Definition bounds_3_9 : BoundsI := mkBounds (Py 3%Z) (Py 9%Z) (Py 3%Z) (Py 9%Z) true.

(** [Image(BoundsI(1,5,1,5))]: five rows of five zeros. *)
Definition image_1_5 : Image Z Q :=
  mkImage (mkArray float32 (repeat (repeat 0%Z 5) 5)) bounds_1_5 None float32
          false.

(** A const image of one pixel holding 1, and two images of one row and two
    columns placed at different bounds with different pixel scales. *)
Definition const_pixel : Image Z Q :=
  mkImage (mkArray int32 [[1%Z]])
          (mkBounds (Py 1%Z) (Py 1%Z) (Py 1%Z) (Py 1%Z) true)
          None int32 true.

Definition row_left : Image Z Q :=
  mkImage (mkArray int32 [[1%Z; 2%Z]])
          (mkBounds (Py 1%Z) (Py 2%Z) (Py 1%Z) (Py 1%Z) true)
          (Some (1 # 5)) int32 false.

Definition row_right : Image Z Q :=
  mkImage (mkArray int32 [[10%Z; 20%Z]])
          (mkBounds (Py 5%Z) (Py 6%Z) (Py 7%Z) (Py 7%Z) true)
          (Some (3 # 1)) int32 false.

(** A source of unit-flux photons: a photon array is the list of its fluxes
    and the number kept, the image is the flux it has received. *)
#[export] Instance Collaborators_unit
  : Collaborators (list Q * Z) unit Q unit := {|
  new_PhotonArray := fun n => (repeat 0 (Z.to_nat n), n);
  shoot := fun n rng => Ok ((repeat 1 (Z.to_nat n), n), rng);
  set_num_keep := fun p k => (fst p, k);
  scaleFlux := fun p f => (map (fun x => Qred (x * f)) (fst p), snd p);
  scaleXY := fun p _ => p;
  applyTo := fun _ p rng => (p, rng);
  accumulate := fun p image _ =>
    let f := fold_right Qplus 0 (firstn (Z.to_nat (snd p)) (fst p)) in
    (Qred f, Qred (image + f));
  image_scale := fun _ => 1;
  image_is_float := fun _ => true;
  image_has_pixel_scale := fun _ => true;
  image_setZero := fun _ => Ok 0;
  ImageD_like := fun _ => 0;
  image_iadd := Qplus;
  calculate_n_photons := fun n _ _ rng =>
    (match n with Some k => k | None => 0%Z end, 1, rng)
|}.

(** The flux step as C2 words it, with [gain] in the place of [g]. *)
Definition claimed_flux_step (gain : Q) (thisN Ntot : Z) (photons : list Q * Z)
  : list Q * Z :=
  if Qeq_bool gain 1 && Z.eqb thisN Ntot then photons
  else scaleFlux photons (gain * inject_Z thisN / inject_Z Ntot).

(** ** bounds.py, continued *)

(** The order facts about [<=], [jnp.minimum] and [jnp.maximum] on which the
    union and the intersection rely; they hold of the integers and of the
    finite floats read exactly. *)
Class CoordOrder (T : Type) `{CT : Coord T} : Prop := {
  c_leb_trans : forall a b c,
    c_leb a b = true -> c_leb b c = true -> c_leb a c = true;
  c_max_lub : forall a b p, c_leb (c_max a b) p = c_leb a p && c_leb b p;
  c_min_glb : forall a b p, c_leb p (c_min a b) = c_leb p a && c_leb p b
}.

#[export] Instance CoordOrder_Z : CoordOrder (CT := Coord_Z).
Proof.
  split; simpl.
  - intros a b c H1 H2. apply Z.leb_le in H1. apply Z.leb_le in H2.
    apply Z.leb_le. lia.
  - intros a b p. apply eq_true_iff_eq.
    rewrite andb_true_iff, !Z.leb_le. apply Z.max_lub_iff.
  - intros a b p. apply eq_true_iff_eq.
    rewrite andb_true_iff, !Z.leb_le. apply Z.min_glb_iff.
Qed.

#[export] Instance CoordOrder_Q : CoordOrder (CT := Coord_Q).
Proof.
  split; simpl.
  - intros a b c H1 H2. apply Qle_bool_iff in H1. apply Qle_bool_iff in H2.
    apply Qle_bool_iff. eapply Qle_trans; eassumption.
  - intros a b p. apply eq_true_iff_eq.
    rewrite andb_true_iff, !Qle_bool_iff. apply Q.max_lub_iff.
  - intros a b p. apply eq_true_iff_eq.
    rewrite andb_true_iff, !Qle_bool_iff. apply Q.min_glb_iff.
Qed.

(** [BoundsI._center]: "just up and to the right of the true center". *)
Definition BoundsI_center (b : BoundsI) : PositionI :=
  mkPosition
    (value (xmin b) + (value (xmax b) - value (xmin b) + 1) / 2)%Z
    (value (ymin b) + (value (ymax b) - value (ymin b) + 1) / 2)%Z.

(** [BoundsD._center]: a [PositionD] whose coordinates are floats. *)
Definition BoundsD_center (b : BoundsD) : Position pyfloat :=
  mkPosition (f_half (f_add (value (xmax b)) (value (xmin b))))
             (f_half (f_add (value (ymax b)) (value (ymin b)))).

(** [Bounds.true_center], on a [BoundsD]. *)
Definition true_center (b : BoundsD) : result (Position pyfloat) :=
  if negb (isDefined b) then Raise GalSimUndefinedBoundsError
  else Ok (mkPosition (f_half (f_add (value (xmax b)) (value (xmin b))))
                      (f_half (f_add (value (ymax b)) (value (ymin b))))).

(** [BoundsI._area]. *)
Definition BoundsI_area (b : BoundsI) : Z :=
  if negb (isDefined b) then 0%Z
  else ((value (xmax b) - value (xmin b) + 1)
        * (value (ymax b) - value (ymin b) + 1))%Z.

Section BoundsTree.

Context {T : Type} `{CT : Coord T}.

(** [tree_flatten] (its traced children; the auxiliary data is [None]) and
    [tree_unflatten], which calls the constructor on the children. *)
Definition Bounds_tree_flatten (b : Bounds T) : list (scalar T) :=
  if isDefined b then [xmin b; xmax b; ymin b; ymax b] else [].

Definition Bounds_tree_unflatten (children : list (scalar T))
  : result (Bounds T) :=
  match children with
  | [] => Bounds_init Args0
  | [a; b; c; d] => Bounds_init (Args4 a b c d)
  | _ => Bounds_init ArgsOther
  end.

(** The points of a bounds: those [includes] accepts. *)
Definition covers (a b : Bounds T) : Prop :=
  forall x y, includes_xy b x y = true -> includes_xy a x y = true.

End BoundsTree.

(** ** convolve.py and gsobject.py, continued *)

(** The signed-flux part of the contract: a primitive may override
    [_negative_flux] (0.0 in [GSObject]); its [_positive_flux] is the one of
    [GSObject], [self.flux + self._negative_flux]. *)
Class FluxSigns (P : Type) : Type := {
  prim_negative_flux : P -> Q
}.

(** [Convolution._calc_pn], on the lists [pos_list] and [neg_list]. *)
Definition _calc_pn (pos_list neg_list : list Q) : result (Q * Q) :=
  match pos_list, neg_list with
  | p0 :: ps, n0 :: ns =>
      Ok (fold_left
            (fun net pn =>
               ((fst net * fst pn + snd net * snd pn)%Q,
                (fst net * snd pn + snd net * fst pn)%Q))
            (combine ps ns) (p0, n0))
  | _, _ => Raise IndexError
  end.

(** [GSObject._calculate_flux_per_photon], on [positive_flux] and
    [negative_flux]. *)
Definition _calculate_flux_per_photon (posflux negflux : Q) : Q :=
  let eta := (negflux / (posflux + negflux))%Q in
  (1 - 2 * eta)%Q.

Section CompositionMore.

Variables P C : Type.
Context `{CP : Contract P C} `{AC : Amplitude C} `{FS : FluxSigns P}.
Variable GSParams_combine : list GSParams -> GSParams.

(** The factory [Convolve]: it unpacks a single list and calls [Convolution]
    on the arguments, with the same keywords. *)
Definition Convolve (args : list (conv_arg P)) (real_space : option bool)
           (gsparams_kw : option GSParams) (propagate_gsparams : bool)
  : list warning * result (GSObject P) :=
  match args with
  | [] => ([], Raise TypeError)
  | [ArgObj o] =>
      Convolution_init GSParams_combine [ArgObj o] real_space gsparams_kw
        propagate_gsparams
  | [ArgList l] =>
      Convolution_init GSParams_combine (map (@ArgObj P) l) real_space
        gsparams_kw propagate_gsparams
  | [ArgBad] => ([], Raise TypeError)
  | _ =>
      Convolution_init GSParams_combine args real_space gsparams_kw
        propagate_gsparams
  end.

(** [(positive_flux, negative_flux)]: of a primitive by [GSObject], of a
    convolution by [_calc_pn] on those of its children, of a deconvolution by
    [GSObject] again ([_negative_flux] is 0.0). *)
Fixpoint signed_fluxes (o : GSObject P) : result (Q * Q) :=
  match o with
  | Primitive p _ =>
      Ok ((prim_flux p + prim_negative_flux p)%Q, prim_negative_flux p)
  | Convolution l _ _ _ =>
      pn_list <- sequence (map signed_fluxes l) ;;
      _calc_pn (map fst pn_list) (map snd pn_list)
  | Deconvolution c _ _ => Ok ((1 / flux c + 0)%Q, 0%Q)
  end.

Definition positive_flux (o : GSObject P) : result Q :=
  pn <- signed_fluxes o ;; Ok (fst pn).

Definition negative_flux (o : GSObject P) : result Q :=
  pn <- signed_fluxes o ;; Ok (snd pn).

(** [_flux_per_photon]: 1.0 in [GSObject], computed in [Convolution]. *)
Definition _flux_per_photon (o : GSObject P) : result Q :=
  match o with
  | Convolution _ _ _ _ =>
      pn <- signed_fluxes o ;;
      Ok (_calculate_flux_per_photon (fst pn) (snd pn))
  | _ => Ok 1%Q
  end.

(** No convolution inside the object asks for real-space convolution. *)
Fixpoint no_real_space (o : GSObject P) : bool :=
  match o with
  | Primitive _ _ => true
  | Convolution l rs _ _ => negb rs && forallb no_real_space l
  | Deconvolution c _ _ => no_real_space c
  end.

(** The comparison of two lists of objects made by [Convolution.__eq__]. *)
Definition obj_list_eqb (l m : list (GSObject P)) : bool :=
  (fix list_eqb (l m : list (GSObject P)) : bool :=
     match l, m with
     | [], [] => true
     | x :: l', y :: m' => GSObject_eqb x y && list_eqb l' m'
     | _, _ => false
     end) l m.

End CompositionMore.

(** Stand-ins with no negative flux. *)
#[export] Instance FluxSigns_StandIn : FluxSigns StandIn := {|
  prim_negative_flux := fun _ => 0%Q
|}.

(** ** The photon loop, run by run *)

Section PhotonRuns.

Variables PhotonArray Rng Img PhotonOp : Type.
Context `{CO : Collaborators PhotonArray Rng Img PhotonOp}.

(** [thisN] of the iteration that starts in state [s]. *)
Definition thisN_of (maxN : Z) (s : loop_state PhotonArray Rng Img) : Z :=
  Z.min maxN (s_Nleft s).

(** A completed run of [jax.lax.while_loop]: the states in which the body
    was entered, in order, and the state in which the condition failed. *)
Inductive loop_run (body : loop_state PhotonArray Rng Img
                           -> result (loop_state PhotonArray Rng Img))
  : loop_state PhotonArray Rng Img -> list (loop_state PhotonArray Rng Img)
    -> loop_state PhotonArray Rng Img -> Prop :=
| run_done (s : loop_state PhotonArray Rng Img) :
    _cond_fun s = false -> loop_run body s [] s
| run_step (s s1 s' : loop_state PhotonArray Rng Img)
           (tr : list (loop_state PhotonArray Rng Img)) :
    _cond_fun s = true -> body s = Ok s1 -> loop_run body s1 tr s' ->
    loop_run body s (s :: tr) s'.

End PhotonRuns.

Definition Zsum (l : list Z) : Z := fold_right Z.add 0%Z l.

Definition Qsum (l : list Q) : Q := fold_right Qplus 0 l.

(** ** image.py, continued *)

Section ImagesMore.

Variables V WCS : Type.
Context `{PO : PixelOps V} `{WO : WcsOps WCS}.

(** The array has [nrow] rows of [ncol] values each. *)
Definition rectangular (a : ndarray V) (nrow ncol : Z) : Prop :=
  Z.of_nat (length (arr_rows a)) = nrow
  /\ Forall (fun row => Z.of_nat (length row) = ncol) (arr_rows a).

(** An image on defined bounds, in order, whose buffer has one value for
    every position of the bounds. *)
Definition Image_wf (im : Image V WCS) : Prop :=
  isDefined (_bounds im) = true
  /\ (value (xmin (_bounds im)) <= value (xmax (_bounds im)))%Z
  /\ (value (ymin (_bounds im)) <= value (ymax (_bounds im)))%Z
  /\ rectangular (_array im)
       (value (ymax (_bounds im)) - value (ymin (_bounds im)) + 1)
       (value (xmax (_bounds im)) - value (xmin (_bounds im)) + 1).

(** [self._array.at[y - self.ymin, x - self.xmin]] updated by [f]: the shape
    common to [_setValue] and [_addValue]. *)
Definition update_pixel (self : Image V WCS) (x y : Z) (f : V -> V)
  : Image V WCS :=
  set_array self
    (mkArray (arr_dtype (_array self))
       (update_at (arr_rows (_array self)) (y - Image_ymin self)
          (fun row => update_at row (x - Image_xmin self) f))).

(** [copy]: [Image(self.array.copy(), bounds=self.bounds, wcs=self.wcs)]. *)
Definition copy (self : Image V WCS) : result (Image V WCS) :=
  Image_init (ImgArray (_array self))
             (with_bounds_wcs (_bounds self) (wcs self)).

End ImagesMore.

Section ImageBlocks.

Variables V : Type.
Context `{PO : PixelOps V}.

(** One row of [a.at[..., j1:j2].set(new)]. *)
Definition put_row (d : DType) (j1 j2 : Z) (row new : list V) : list V :=
  let m := Z.of_nat (length row) in
  let c1 := clip_index m j1 in
  let c2 := clip_index m j2 in
  firstn c1 row ++ map (convert d) (firstn (c2 - c1) new) ++ skipn c2 row.

End ImageBlocks.

Section ImageFlips.

Variables V WCS : Type.
Context `{PO : PixelOps V} `{WO : WcsOps WCS}.

(** What [_Image] returns: an [Image] made by [Image.__new__], without
    [__init__]; the attribute [_is_const] is not set on it. *)
Record RawImage : Type := mkRaw {
  raw_array : ndarray V;
  raw_bounds : BoundsI;
  raw_wcs : option WCS;
  raw_dtype : DType
}.

Definition _Image (array : ndarray V) (bounds : BoundsI) (w : option WCS)
  : RawImage :=
  match _alias_dtypes (arr_dtype array) with
  | Some d => mkRaw (astype array d) bounds w d
  | None => mkRaw array bounds w (arr_dtype array)
  end.

(** The object with the attribute [_is_const] set to [c]: the methods that
    do not read the attribute see the fields of the object only. *)
Definition with_is_const (r : RawImage) (c : bool) : Image V WCS :=
  mkImage (raw_array r) (raw_bounds r) (raw_wcs r) (raw_dtype r) c.

(** [self.array.at[:, ::-1].get()], [at[::-1, :]] and [at[::-1, ::-1]]. *)
Definition flip_lr (self : Image V WCS) : RawImage :=
  _Image (mkArray (arr_dtype (_array self))
                  (map (@rev V) (arr_rows (_array self))))
         (_bounds self) None.

Definition flip_ud (self : Image V WCS) : RawImage :=
  _Image (mkArray (arr_dtype (_array self)) (rev (arr_rows (_array self))))
         (_bounds self) None.

Definition rot_180 (self : Image V WCS) : RawImage :=
  _Image (mkArray (arr_dtype (_array self))
                  (map (@rev V) (rev (arr_rows (_array self)))))
         (_bounds self) None.

End ImageFlips.

(** ** random.py *)

(** [jax.random]: splitting a key, and drawing from a key, are outside the
    sources. *)
Class KeyOps (Key : Type) : Type := {
  jrandom_split : Key -> Key * Key;
  jrandom_uniform : Key -> Q;
  jrandom_bits : Key -> Z
}.

Section Random.

Variable Key : Type.
Context `{KO : KeyOps Key}.

(** [jax.lax.fori_loop(lower, upper, body, init)]: no iteration when
    [upper <= lower]. *)
Fixpoint fori_steps {A : Type} (n : nat) (i : Z) (body : Z -> A -> A) (val : A)
  : A :=
  match n with
  | O => val
  | S n' => fori_steps n' (i + 1)%Z body (body i val)
  end.

Definition fori_loop {A : Type} (lower upper : Z) (body : Z -> A -> A)
           (init : A) : A :=
  fori_steps (Z.to_nat (upper - lower)) lower body init.

(** [jax.lax.scan(f, init, None, length)]. *)
Fixpoint scan {A B : Type} (f : A -> A * B) (init : A) (length : nat)
  : A * list B :=
  match length with
  | O => (init, [])
  | S n =>
      let (carry, y) := f init in
      let (final, ys) := scan f carry n in
      (final, y :: ys)
  end.

(** A deviate is its key; a method returns its value and the deviate
    afterwards. *)
Record BaseDeviate : Type := mkDeviate { _key : Key }.

Definition duplicate (self : BaseDeviate) : BaseDeviate :=
  mkDeviate (_key self).

Definition _reset (self rng : BaseDeviate) : BaseDeviate :=
  mkDeviate (_key rng).

Definition discard (self : BaseDeviate) (n : Z) : BaseDeviate :=
  let _discard (i : Z) (key : Key) : Key := fst (jrandom_split key) in
  mkDeviate (fori_loop 0 n _discard (_key self)).

Definition raw (self : BaseDeviate) : Z * BaseDeviate :=
  let (key, subkey) := jrandom_split (_key self) in
  (jrandom_bits subkey, mkDeviate key).

(** [UniformDeviate._generate_one] and [UniformDeviate._generate]; of the
    array only the number of values matters. *)
Definition _generate_one (key : Key) : Key * Q :=
  let (_key, subkey) := jrandom_split key in
  (_key, jrandom_uniform subkey).

Definition _generate (key : Key) (size : nat) : Key * list Q :=
  scan _generate_one key size.

Definition generate (self : BaseDeviate) (size : nat) : list Q * BaseDeviate :=
  let (key, array) := _generate (_key self) size in
  (array, mkDeviate key).

Definition call (self : BaseDeviate) : Q * BaseDeviate :=
  let (key, val) := _generate_one (_key self) in
  (val, mkDeviate key).

(** [n] successive calls of the deviate. *)
Fixpoint calls (self : BaseDeviate) (n : nat) : list Q * BaseDeviate :=
  match n with
  | O => ([], self)
  | S n' =>
      let (v, self1) := call self in
      let (vs, self2) := calls self1 n' in
      (v :: vs, self2)
  end.

End Random.

(** ** gsobject.py: image sizes *)

(** The last two statements of [getGoodImageSize], on [Nd]:
    [N = ceil(Nd * (1 - 1e-12))], then [2 * ((N + 1) // 2)]. *)
Definition good_image_size (Nd : Q) : Z :=
  let N := Qceiling (Nd * (1 - (1 # 1000000000000))) in
  (2 * ((N + 1) / 2))%Z.

(** [getGoodImageSize], with the constant [2 * pi] and the [stepk] of the
    object given. *)
Definition getGoodImageSize (two_pi stepk pixel_scale : Q) : Z :=
  good_image_size (two_pi / (pixel_scale * stepk)).

(** A window of [bounds_1_5]. *)
Definition bounds_2_3 : BoundsI :=
  mkBounds (Py 2%Z) (Py 3%Z) (Py 2%Z) (Py 3%Z) true.

(** * Properties *)

(** ** Bounds *)

Section BoundsFacts.

Context {T : Type} `{CT : Coord T} {CL : CoordTotal (CT := CT)}.

Lemma c_leb_refl (a : T) : c_leb a a = true.
Proof. destruct (c_leb_total a a); assumption. Qed.

Lemma gt_false_leb (a b : scalar T) :
  gt a b = false -> c_leb (value a) (value b) = true.
Proof.
  unfold gt. rewrite c_ltb_leb. intros H.
  apply negb_false_iff in H. exact H.
Qed.

Lemma gt_true_leb (a b : scalar T) :
  gt a b = true -> c_leb (value b) (value a) = true.
Proof.
  unfold gt. rewrite c_ltb_leb. intros H.
  apply negb_true_iff in H.
  destruct (c_leb_total (value a) (value b)) as [E | E]; congruence.
Qed.

Lemma py_min_le_max (a b : scalar T) :
  c_leb (value (py_min a b)) (value (py_max a b)) = true.
Proof.
  unfold py_min, py_max.
  destruct (gt a b) eqn:Hab; destruct (gt b a) eqn:Hba.
  - apply c_leb_refl.
  - apply gt_true_leb. exact Hab.
  - apply gt_false_leb. exact Hab.
  - apply c_leb_refl.
Qed.

Lemma py_min_plain (a b : scalar T) :
  is_py a = true -> is_py b = true -> is_py (py_min a b) = true.
Proof. unfold py_min. destruct (gt a b); auto. Qed.

Lemma py_max_plain (a b : scalar T) :
  is_py a = true -> is_py b = true -> is_py (py_max a b) = true.
Proof. unfold py_max. destruct (gt b a); auto. Qed.

(** What the closing test of [_parse_args] does to plain fields: the flag
    follows the order of the fields, which are left as they are. *)
Lemma check_valid_plain (x0 x1 y0 y1 : scalar T) :
  is_py x0 = true -> is_py x1 = true -> is_py y0 = true -> is_py y1 = true ->
  check_valid (mkBounds x0 x1 y0 y1 true)
  = mkBounds x0 x1 y0 y1 (negb (gt x0 x1 || gt y0 y1)).
Proof.
  intros H0 H1 H2 H3. unfold check_valid, simple_and_invalid. simpl.
  rewrite H0, H1, H2, H3. simpl.
  destruct (gt x0 x1 || gt y0 y1); reflexivity.
Qed.

Lemma flag_ordered (x0 x1 y0 y1 : scalar T) :
  negb (gt x0 x1 || gt y0 y1) = true ->
  c_leb (value x0) (value x1) = true /\ c_leb (value y0) (value y1) = true.
Proof.
  intros H. apply negb_true_iff in H. apply orb_false_iff in H.
  destruct H as [Hx Hy]. split; apply gt_false_leb; assumption.
Qed.

Lemma flag_not_gt (x0 x1 y0 y1 : scalar T) :
  negb (gt x0 x1 || gt y0 y1) = true ->
  gt x0 x1 = false /\ gt y0 y1 = false.
Proof.
  intros H. apply negb_true_iff in H. apply orb_false_iff in H. exact H.
Qed.

Lemma parse_args_Args0 :
  _parse_args (T := T) Args0
  = Ok (mkBounds (Py c_zero) (Py c_zero) (Py c_zero) (Py c_zero) false).
Proof.
  unfold _parse_args, check_valid, simple_and_invalid. simpl.
  destruct (gt (Py c_zero) (Py c_zero) || gt (Py c_zero) (Py c_zero));
    reflexivity.
Qed.

(** A constructor fed plain numbers flags its result defined only when the
    fields are in order. *)
Lemma parse_args_plain_defined (args : bounds_args T) (b : Bounds T) :
  plain_args args -> _parse_args args = Ok b ->
  _isdefined b = true -> ordered b.
Proof.
  unfold ordered.
  destruct args as [| x0 x1 y0 y1 | b0 | p | p q | x0 x1 y0 y1 |];
    intros Hp Hb Hd; simpl in Hp.
  - rewrite parse_args_Args0 in Hb. inversion Hb; subst. discriminate.
  - destruct Hp as (H0 & H1 & H2 & H3).
    unfold _parse_args in Hb. rewrite check_valid_plain in Hb by assumption.
    inversion Hb; subst; simpl in *. apply flag_ordered; assumption.
  - destruct Hp as (H0 & H1 & H2 & H3).
    unfold _parse_args in Hb. rewrite check_valid_plain in Hb by assumption.
    inversion Hb; subst; simpl in *. apply flag_ordered; assumption.
  - destruct Hp as (H0 & H1).
    unfold _parse_args in Hb. rewrite check_valid_plain in Hb by assumption.
    inversion Hb; subst; simpl in *. apply flag_ordered; assumption.
  - destruct Hp as ((H0 & H1) & (H2 & H3)).
    unfold _parse_args in Hb.
    rewrite check_valid_plain in Hb by auto using py_min_plain, py_max_plain.
    inversion Hb; subst; simpl in *. apply flag_ordered; assumption.
  - destruct Hp as (H0 & H1 & H2 & H3).
    unfold _parse_args in Hb. rewrite check_valid_plain in Hb by assumption.
    inversion Hb; subst; simpl in *. apply flag_ordered; assumption.
  - unfold _parse_args in Hb. discriminate.
Qed.

(** A constructor fed plain numbers flags its result defined only when
    neither [xmin > xmax] nor [ymin > ymax] holds; no order law is used. *)
Lemma parse_args_plain_flag (args : bounds_args T) (b : Bounds T) :
  plain_args args -> _parse_args args = Ok b ->
  _isdefined b = true ->
  gt (xmin b) (xmax b) = false /\ gt (ymin b) (ymax b) = false.
Proof.
  destruct args as [| x0 x1 y0 y1 | b0 | p | p q | x0 x1 y0 y1 |];
    intros Hp Hb Hd; simpl in Hp.
  - unfold _parse_args, check_valid, simple_and_invalid in Hb. simpl in Hb.
    destruct (gt (Py c_zero) (Py c_zero) || gt (Py c_zero) (Py c_zero));
      inversion Hb; subst; discriminate.
  - destruct Hp as (H0 & H1 & H2 & H3).
    unfold _parse_args in Hb. rewrite check_valid_plain in Hb by assumption.
    inversion Hb; subst; simpl in *. apply flag_not_gt; assumption.
  - destruct Hp as (H0 & H1 & H2 & H3).
    unfold _parse_args in Hb. rewrite check_valid_plain in Hb by assumption.
    inversion Hb; subst; simpl in *. apply flag_not_gt; assumption.
  - destruct Hp as (H0 & H1).
    unfold _parse_args in Hb. rewrite check_valid_plain in Hb by assumption.
    inversion Hb; subst; simpl in *. apply flag_not_gt; assumption.
  - destruct Hp as ((H0 & H1) & (H2 & H3)).
    unfold _parse_args in Hb.
    rewrite check_valid_plain in Hb by auto using py_min_plain, py_max_plain.
    inversion Hb; subst; simpl in *. apply flag_not_gt; assumption.
  - destruct Hp as (H0 & H1 & H2 & H3).
    unfold _parse_args in Hb. rewrite check_valid_plain in Hb by assumption.
    inversion Hb; subst; simpl in *. apply flag_not_gt; assumption.
  - unfold _parse_args in Hb. discriminate.
Qed.

Lemma Bounds_init_Args0 :
  Bounds_init (T := T) Args0
  = Ok (mkBounds (c_cast (Py c_zero)) (c_cast (Py c_zero))
                 (c_cast (Py c_zero)) (c_cast (Py c_zero)) false).
Proof. unfold Bounds_init. rewrite parse_args_Args0. reflexivity. Qed.

Lemma Bounds_init_Args4_plain (x0 x1 y0 y1 : T) :
  Bounds_init (Args4 (Py x0) (Py x1) (Py y0) (Py y1))
  = Ok (mkBounds (c_cast (Py x0)) (c_cast (Py x1))
                 (c_cast (Py y0)) (c_cast (Py y1))
                 (negb (c_ltb x1 x0 || c_ltb y1 y0))).
Proof.
  unfold Bounds_init, _parse_args.
  rewrite check_valid_plain by reflexivity. reflexivity.
Qed.


Lemma Bounds_eqb_refl (b : Bounds T) : Bounds_eqb b b = true.
Proof.
  unfold Bounds_eqb. destruct (isDefined b) eqn:E; simpl.
  - rewrite !c_eqb_refl. reflexivity.
  - reflexivity.
Qed.

(** C6.  With [u] undefined, [u & b] and [b & u] are the undefined empty
    bounds whatever [b] is; [b + u] is [b] itself; and [u + b] is [b] itself
    when [b] is defined and the undefined [u] otherwise, in both cases equal
    to [b]. *)
Theorem C6_undefined_absorbing_identity (u b : Bounds T) :
  isDefined u = false ->
  Bounds_and u b = Ok empty_bounds
  /\ Bounds_and b u = Ok empty_bounds
  /\ isDefined empty_bounds = false
  /\ Bounds_add b (AddBounds u) = Ok b
  /\ (exists r, Bounds_add u (AddBounds b) = Ok r
                /\ Bounds_eqb r b = true
                /\ (isDefined b = true -> r = b)).
Proof.
  intros Hu. repeat split.
  - unfold Bounds_and. rewrite Hu. simpl. apply Bounds_init_Args0.
  - unfold Bounds_and. rewrite Hu. rewrite orb_true_r. apply Bounds_init_Args0.
  - unfold Bounds_add. rewrite Hu. reflexivity.
  - unfold Bounds_add. destruct (isDefined b) eqn:Hb; simpl.
    + rewrite Hu. exists b. repeat split. apply Bounds_eqb_refl.
    + exists u. repeat split.
      * unfold Bounds_eqb. rewrite Hu, Hb. reflexivity.
      * discriminate.
Qed.

End BoundsFacts.



(** A NaN among the numbers: [BoundsD(nan, 1.0, 0.0, 1.0)] stays flagged
    defined, [nan > 1.0] being false, although [nan <= 1.0] is false too. *)
Lemma C5_nan_defined_unordered :
  exists b : BoundsD,
    BoundsD_init (Args4 (Py NaN) (Py (Fin 1)) (Py (Fin 0)) (Py (Fin 1))) = Ok b
    /\ isDefined b = true
    /\ gt (xmin b) (xmax b) = false
    /\ ~ ordered b.
Proof.
  eexists. split; [reflexivity |]. split; [reflexivity |].
  split; [reflexivity |]. intros [Hx _]. simpl in Hx. discriminate.
Qed.

Lemma C6_undefined_absorbing_identity_witness :
  Bounds_and (mkBounds (Py 0%Z) (Py 0%Z) (Py 0%Z) (Py 0%Z) false)
             (mkBounds (Py 1%Z) (Py 4%Z) (Py 2%Z) (Py 3%Z) true)
  = Ok (mkBounds (Py 0%Z) (Py 0%Z) (Py 0%Z) (Py 0%Z) false).
Proof.
  assert (Hu : isDefined (mkBounds (Py 0%Z) (Py 0%Z) (Py 0%Z) (Py 0%Z) false)
               = false) by reflexivity.
  exact (proj1 (@C6_undefined_absorbing_identity Z _ _ _
                  (mkBounds (Py 1%Z) (Py 4%Z) (Py 2%Z) (Py 3%Z) true) Hu)).
Defined.

(** ** Composition of profiles *)

Section CompositionFacts.

Context {P C : Type} `{CP : Contract P C} `{AC : Amplitude C}.
Variable GSParams_combine : list GSParams -> GSParams.

Lemma GSParams_eqb_refl (g : GSParams) : GSParams_eqb g g = true.
Proof.
  unfold GSParams_eqb. rewrite !Z.eqb_refl, !Qeq_bool_refl. reflexivity.
Qed.

Lemma withGSParams_eq (o : GSObject P) (g : option GSParams) :
  withGSParams o g =
  if opt_GSParams_eqb g (gsparams o) then o
  else
    let g' := GSParams_check g (gsparams o) in
    match o with
    | Primitive p _ => Primitive p g'
    | Convolution l rs _ pg =>
        Convolution (if pg then map (fun c => withGSParams c (Some g')) l else l)
                    rs g' pg
    | Deconvolution c _ pg =>
        Deconvolution (if pg then withGSParams c (Some g') else c) g' pg
    end.
Proof. destruct o; reflexivity. Qed.

(** Asking an object for the parameters it already has returns the object. *)
Lemma withGSParams_own (o : GSObject P) :
  withGSParams o (Some (gsparams o)) = o.
Proof.
  rewrite withGSParams_eq. simpl. rewrite GSParams_eqb_refl. reflexivity.
Qed.

(** Changing the parameters changes neither flux nor centroid. *)
Lemma flux_withGSParams (o : GSObject P) :
  forall g, flux (withGSParams o g) = flux o.
Proof.
  induction o as [p g0 | l rs g0 pg IH | c g0 pg IH] using GSObject_induction;
    intros g; rewrite withGSParams_eq;
    destruct (opt_GSParams_eqb g _); try reflexivity; simpl.
  - destruct pg; [| reflexivity].
    rewrite map_map. f_equal. apply map_ext_in.
    intros x Hx. rewrite Forall_forall in IH. apply IH. exact Hx.
  - destruct pg; [| reflexivity]. rewrite IH. reflexivity.
Qed.

Lemma centroid_withGSParams (o : GSObject P) :
  forall g, centroid (withGSParams o g) = centroid o.
Proof.
  induction o as [p g0 | l rs g0 pg IH | c g0 pg IH] using GSObject_induction;
    intros g; rewrite withGSParams_eq;
    destruct (opt_GSParams_eqb g _); try reflexivity; simpl.
  - destruct pg; [| reflexivity].
    rewrite map_map. do 2 f_equal. apply map_ext_in.
    intros x Hx. rewrite Forall_forall in IH. apply IH. exact Hx.
  - destruct pg; [| reflexivity]. rewrite IH. reflexivity.
Qed.

Lemma GSObject_eqb_wrappers (a : GSObject P) :
  forall b, GSObject_eqb a b = true -> wrappers a = wrappers b.
Proof.
  induction a as [p g | l rs g pg | c IH g pg];
    intros [q h | m rs' h pg' | d h pg'];
    simpl; intros H; try discriminate; try reflexivity.
  apply andb_true_iff in H. destruct H as [H _].
  apply andb_true_iff in H. destruct H as [H _].
  f_equal. apply IH. exact H.
Qed.

(** C1, as amended.  [Deconvolve(Deconvolve(obj))] is a [Deconvolution] of the
    [Deconvolution] of [obj], both with the parameters of [obj]: unwrapping it
    twice gives back [obj] itself, but it is never equal to [obj], in either
    order of the comparison. *)
Theorem C1_double_deconvolve (obj : GSObject P) :
  Deconvolve (Deconvolve obj None true) None true
  = Deconvolution (Deconvolution obj (gsparams obj) true) (gsparams obj) true
  /\ match orig_obj (Deconvolve (Deconvolve obj None true) None true) with
     | Some inner => orig_obj inner = Some obj
     | None => False
     end
  /\ GSObject_eqb (Deconvolve (Deconvolve obj None true) None true) obj = false
  /\ GSObject_eqb obj (Deconvolve (Deconvolve obj None true) None true) = false.
Proof.
  assert (E : Deconvolve (Deconvolve obj None true) None true
              = Deconvolution (Deconvolution obj (gsparams obj) true)
                              (gsparams obj) true).
  { unfold Deconvolve, Deconvolution_init. unfold GSParams_check at 2.
    rewrite withGSParams_own. unfold GSParams_check.
    rewrite withGSParams_own. reflexivity. }
  rewrite E. split; [reflexivity |]. split; [reflexivity |].
  split.
  - destruct (GSObject_eqb _ obj) eqn:H; [| reflexivity].
    apply GSObject_eqb_wrappers in H. simpl in H. lia.
  - destruct (GSObject_eqb obj _) eqn:H; [| reflexivity].
    apply GSObject_eqb_wrappers in H. simpl in H. lia.
Qed.

Lemma all_analytic_none_missing (objs : list (GSObject P)) :
  Forall (fun o => is_analytic_x o = Ok true) objs ->
  some_not_analytic_x objs = Ok false.
Proof.
  induction 1 as [| o l Ho _ IH]; simpl.
  - reflexivity.
  - rewrite Ho. simpl. exact IH.
Qed.

(** C3, as amended.  With [real_space=True], the constructor raises
    [NotImplementedError] when there are at most two children and each is
    analytic in real space.  With more than two children, or with a child that
    is not analytic in real space, it warns, switches to the DFT method and
    returns the convolution. *)
Theorem C3_real_space_requested (objs : list (GSObject P))
        (gsparams_kw : option GSParams) (propagate_gsparams : bool) :
  ((length objs <= 2)%nat ->
   Forall (fun o => is_analytic_x o = Ok true) objs ->
   Convolution_init GSParams_combine [ArgList objs] (Some true) gsparams_kw
     propagate_gsparams
   = ([], Raise NotImplementedError))
  /\ ((2 < length objs)%nat ->
      Convolution_init GSParams_combine [ArgList objs] (Some true) gsparams_kw
        propagate_gsparams
      = ([WarnMoreThanTwo],
         Ok (dft_convolution GSParams_combine objs gsparams_kw propagate_gsparams)))
  /\ ((length objs <= 2)%nat ->
      some_not_analytic_x objs = Ok true ->
      Convolution_init GSParams_combine [ArgList objs] (Some true) gsparams_kw
        propagate_gsparams
      = ([WarnNotAnalyticX],
         Ok (dft_convolution GSParams_combine objs gsparams_kw propagate_gsparams))).
Proof.
  unfold Convolution_init, dft_convolution. simpl conv_objects. cbv iota beta.
  split; [| split].
  - intros Hn Ha.
    assert (E : Nat.ltb 2 (length objs) = false) by (apply Nat.ltb_ge; lia).
    rewrite E. rewrite (all_analytic_none_missing Ha). reflexivity.
  - intros Hn.
    assert (E : Nat.ltb 2 (length objs) = true) by (apply Nat.ltb_lt; lia).
    rewrite E. reflexivity.
  - intros Hn Hs.
    assert (E : Nat.ltb 2 (length objs) = false) by (apply Nat.ltb_ge; lia).
    rewrite E, Hs. reflexivity.
Qed.

(** Whatever the form of the call, a convolution that is returned is the DFT
    convolution of the objects given. *)
Lemma Convolution_init_returns (args : list (conv_arg P)) (objs : list (GSObject P))
      (real_space : option bool) (gsparams_kw : option GSParams)
      (propagate_gsparams : bool) (w : list warning) (c : GSObject P) :
  conv_objects args = Ok objs ->
  Convolution_init GSParams_combine args real_space gsparams_kw propagate_gsparams
  = (w, Ok c) ->
  c = dft_convolution GSParams_combine objs gsparams_kw propagate_gsparams.
Proof.
  intros Ho. unfold Convolution_init, dft_convolution. rewrite Ho.
  cbv zeta.
  destruct (match real_space with
            | Some b => b
            | None => if Nat.leb (length objs) 2
                      then forallb (@has_hard_edges P C CP) objs else false
            end).
  - destruct (Nat.ltb 2 (length objs)).
    + intros H. inversion H. reflexivity.
    + destruct (some_not_analytic_x objs) as [[|] |]; intros H; inversion H.
      reflexivity.
  - intros H. inversion H. reflexivity.
Qed.

Lemma jnp_prod_pair (x y : Q) : (jnp_prod [x; y] == x * y)%Q.
Proof. unfold jnp_prod. simpl. ring. Qed.

(** C7.  A convolution that has been constructed from a list of objects has
    for flux the product of their fluxes and for centroid the sum of their
    centroids; for two objects [a] and [b], the flux is [a.flux * b.flux] and
    the centroid [a.centroid + b.centroid]. *)
Theorem C7_convolution_flux_centroid (args : list (conv_arg P))
        (objs : list (GSObject P)) (real_space : option bool)
        (gsparams_kw : option GSParams) (propagate_gsparams : bool)
        (w : list warning) (c : GSObject P) :
  conv_objects args = Ok objs ->
  Convolution_init GSParams_combine args real_space gsparams_kw propagate_gsparams
  = (w, Ok c) ->
  flux c = jnp_prod (map (@flux P C CP) objs)
  /\ centroid c
     = (cen_list <- sequence (map (@centroid P C CP) objs) ;;
        sum_positions cen_list)
  /\ (forall a b, objs = [a; b] ->
        (flux c == flux a * flux b)%Q
        /\ centroid c
           = (ca <- centroid a ;; cb <- centroid b ;; Ok (pos_add ca cb))).
Proof.
  intros Ho Hc. rewrite (Convolution_init_returns _ _ _ _ Ho Hc).
  unfold dft_convolution.
  set (g := match gsparams_kw with
            | Some g0 => g0
            | None => GSParams_combine (map (@gsparams P) objs)
            end).
  assert (Hf : flux (Convolution
                       (if propagate_gsparams
                        then map (fun o => withGSParams o (Some g)) objs
                        else objs) false g propagate_gsparams)
               = jnp_prod (map (@flux P C CP) objs)).
  { simpl. destruct propagate_gsparams; [| reflexivity].
    rewrite map_map. f_equal. apply map_ext. intros o.
    apply flux_withGSParams. }
  assert (Hcen : centroid (Convolution
                       (if propagate_gsparams
                        then map (fun o => withGSParams o (Some g)) objs
                        else objs) false g propagate_gsparams)
               = (cen_list <- sequence (map (@centroid P C CP) objs) ;;
                  sum_positions cen_list)).
  { simpl. destruct propagate_gsparams; [| reflexivity].
    rewrite map_map. do 2 f_equal. apply map_ext. intros o.
    apply centroid_withGSParams. }
  split; [exact Hf |]. split; [exact Hcen |].
  intros a b ->. split.
  - rewrite Hf. simpl map. apply jnp_prod_pair.
  - rewrite Hcen. simpl.
    destruct (centroid a) as [ca |]; [| reflexivity]. simpl.
    destruct (centroid b) as [cb |]; reflexivity.
Qed.

Lemma Qltb_true (a b : Q) : Qltb a b = true <-> (a < b)%Q.
Proof.
  unfold Qltb. rewrite negb_true_iff. split.
  - intros H. apply Qnot_le_lt. intros Hle.
    apply Qle_bool_iff in Hle. congruence.
  - intros H. destruct (Qle_bool b a) eqn:E; [| reflexivity].
    apply Qle_bool_iff in E. exfalso. exact (Qlt_not_le _ _ H E).
Qed.

Lemma Qltb_false (a b : Q) : Qltb a b = false <-> (b <= a)%Q.
Proof.
  unfold Qltb. rewrite negb_false_iff. apply Qle_bool_iff.
Qed.


End CompositionFacts.

(** ** Images *)

Section ImageFacts.

Variables V WCS : Type.
Context `{PO : PixelOps V} `{WO : WcsOps WCS}.

Lemma includes_fully_contained (B b : BoundsI) :
  includes B b = true <-> fully_contained b B.
Proof.
  unfold includes, fully_contained. simpl.
  rewrite !andb_true_iff, !Z.leb_le. tauto.
Qed.

(** C9.  On an image with defined bounds, [subImage(b)] and [im[b]] raise the
    bounds error whenever [b] is not fully contained in the bounds of the
    image; no image is returned. *)
Theorem C9_subImage_outside (im : Image V WCS) (b : BoundsI) :
  isDefined (_bounds im) = true ->
  ~ fully_contained b (_bounds im) ->
  subImage im b = Raise GalSimBoundsError
  /\ Image_getitem im (IdxBounds b) = Raise GalSimBoundsError.
Proof.
  intros Hd Hn.
  assert (E : includes (_bounds im) b = false).
  { destruct (includes (_bounds im) b) eqn:E; [| reflexivity].
    exfalso. apply Hn. apply includes_fully_contained. exact E. }
  assert (S : subImage im b = Raise GalSimBoundsError).
  { unfold subImage. rewrite Hd, E. reflexivity. }
  split; [exact S |]. unfold Image_getitem. rewrite S. reflexivity.
Qed.

(** Every mutating method named by the data model refuses a const image and
    leaves it as it was. *)
Lemma const_image_methods_raise (im rhs : Image V WCS) (b : BoundsI)
      (w : option WCS) (pos : PositionI) (v : V) (dt : DType) :
  isconst im = true ->
  setValue im pos v = (Raise GalSimImmutableError, im)
  /\ addValue im pos v = (Raise GalSimImmutableError, im)
  /\ fill im v dt = (Raise GalSimImmutableError, im)
  /\ setZero im = (Raise GalSimImmutableError, im)
  /\ resize im b w = (Raise GalSimImmutableError, im)
  /\ setSubImage im b rhs = (Raise GalSimImmutableError, im)
  /\ copyFrom im rhs = (Raise GalSimImmutableError, im).
Proof.
  intros Hc.
  unfold setValue, addValue, fill, setZero, resize, setSubImage, copyFrom.
  rewrite Hc. repeat split.
Qed.

(** The in-place operators have no such test: on a const image of the right
    shape they succeed and replace the buffer. *)
Lemma inplace_ignores_const (op : V -> V -> V) (im im2 : Image V WCS) :
  isconst im = true ->
  shape (_array im) = shape (_array im2) ->
  exists a, inplace op im (OImage im2) = (Ok tt, set_array im a)
            /\ arr_rows a
               = map (map (if DType_eqb (arr_dtype (_array im2))
                                        (arr_dtype (_array im))
                           then (fun x => x)
                           else convert (arr_dtype (_array im))))
                     (map2 (map2 op) (arr_rows (_array im))
                           (arr_rows (_array im2))).
Proof.
  intros _ Hs. unfold inplace, check_image_consistency. simpl.
  unfold shape_eqb. rewrite Hs, !Z.eqb_refl. simpl.
  destruct (DType_eqb _ _).
  - eexists. split; [reflexivity |]. simpl.
    rewrite map_ext with (g := fun l => l) by (intros; apply map_id).
    rewrite map_id. reflexivity.
  - eexists. split; reflexivity.
Qed.

Lemma length_map2 {A B D : Type} (f : A -> B -> D) (l : list A) (m : list B) :
  length l = length m -> length (map2 f l m) = length l.
Proof.
  revert m. induction l as [| a l IH]; intros [| b m]; simpl; intros H;
    try reflexivity; try discriminate.
  f_equal. apply IH. congruence.
Qed.

Lemma shape_arr_binop (op : V -> V -> V) (a b : ndarray V) :
  shape a = shape b -> shape (arr_binop op a b) = shape a.
Proof.
  unfold shape, arr_binop. simpl. intros H.
  injection H as H1 H2.
  apply Nat2Z.inj in H1. apply Nat2Z.inj in H2.
  destruct (arr_rows a) as [| r1 l1]; destruct (arr_rows b) as [| r2 l2];
    simpl in *; try discriminate; [reflexivity |].
  rewrite !length_map2 by congruence. reflexivity.
Qed.

Lemma shape_astype (a : ndarray V) (d : DType) : shape (astype a d) = shape a.
Proof.
  unfold shape, astype. simpl. rewrite length_map.
  destruct (arr_rows a); simpl; [reflexivity |]. rewrite length_map.
  reflexivity.
Qed.

Lemma alias_is_valid (d : DType) :
  exists d', _alias_dtypes d = Some d' /\ is_valid_dtype d' = true.
Proof. destruct d; eexists; split; reflexivity. Qed.

(** [Image(array, bounds=b, wcs=w)], as every binary operator ends: with [b]
    defined, in order and of the shape of the array, the image has bounds
    equal to [b] and the wcs [w]; with [b] undefined, it is an empty image with
    the wcs [w]. *)
Lemma Image_init_array_bounds (a : ndarray V) (b : BoundsI) (w : option WCS) :
  (isDefined b = true ->
   (value (xmin b) <= value (xmax b))%Z
   /\ (value (ymin b) <= value (ymax b))%Z
   /\ shape a = numpyShape b) ->
  exists r, Image_init (ImgArray a) (with_bounds_wcs b w) = Ok r
            /\ Bounds_eqb (_bounds r) b = true
            /\ isDefined (_bounds r) = isDefined b
            /\ wcs r = w
            /\ _is_const r = false
            /\ (isDefined b = true ->
                exists d, _array r = astype a d
                          /\ value (xmin (_bounds r)) = value (xmin b)
                          /\ value (xmax (_bounds r)) = value (xmax b)
                          /\ value (ymin (_bounds r)) = value (ymin b)
                          /\ value (ymax (_bounds r)) = value (ymax b)).
Proof.
  intros Hinv. unfold Image_init, with_bounds_wcs, _get_xmin_ymin.
  cbn [kw_xmin kw_ymin kw_bounds kw_dtype kw_init_value kw_scale kw_wcs
       kw_make_const].
  destruct (isDefined b) eqn:Hd.
  - destruct (Hinv eq_refl) as (Hx & Hy & Hs).
    unfold numpyShape in Hs. rewrite Hd in Hs. rewrite Hs. cbn [fst snd].
    rewrite !Z.eqb_refl. cbn [negb rbind].
    destruct (alias_is_valid (arr_dtype a)) as (d & Ha & _). rewrite Ha.
    cbn [rbind]. rewrite shape_astype, Hs. cbn [fst snd].
    unfold BoundsI_init, Bounds_init, _parse_args, check_valid,
      simple_and_invalid.
    cbn [xmin xmax ymin ymax _isdefined].
    assert (Gx : gt (xmin b)
                    (scalar_add (xmin b)
                       (value (xmax b) - value (xmin b) + 1 - 1)) = false).
    { unfold gt. destruct (xmin b); simpl in *; apply Z.ltb_ge; lia. }
    assert (Gy : gt (ymin b)
                    (scalar_add (ymin b)
                       (value (ymax b) - value (ymin b) + 1 - 1)) = false).
    { unfold gt. destruct (ymin b); simpl in *; apply Z.ltb_ge; lia. }
    rewrite Gx, Gy. rewrite !andb_false_r.
    cbn [rbind init_wcs xmin xmax ymin ymax _isdefined].
    eexists. split; [reflexivity |].
    assert (Vx : value (scalar_add (xmin b)
                          (value (xmax b) - value (xmin b) + 1 - 1))
                 = value (xmax b)).
    { destruct (xmin b); simpl; lia. }
    assert (Vy : value (scalar_add (ymin b)
                          (value (ymax b) - value (ymin b) + 1 - 1))
                 = value (ymax b)).
    { destruct (ymin b); simpl; lia. }
    unfold Bounds_eqb, isDefined.
    cbn [_bounds wcs _is_const _array xmin xmax ymin ymax _isdefined c_cast
         Coord_Z cast_to_int value c_eqb].
    unfold isDefined in Hd. rewrite Hd, Vx, Vy, !Z.eqb_refl.
    repeat split. intros _. exists d. repeat split.
  - cbn [rbind or_default].
    destruct (alias_is_valid (arr_dtype a)) as (d & Ha & Hv).
    rewrite Ha. rewrite Hv. unfold jnp_zeros.
    cbn [fst snd Z.ltb Z.compare orb rbind or_default].
    unfold BoundsI_init. rewrite Bounds_init_Args0.
    cbn [rbind init_wcs].
    eexists. split; [reflexivity |].
    unfold Bounds_eqb, isDefined. cbn [_bounds wcs _is_const _isdefined].
    unfold isDefined in Hd. rewrite Hd.
    repeat split. discriminate.
Qed.

(** A binary operator on two images: the shape test, then the construction of
    the result on the bounds and wcs of the left operand. *)
Lemma binary_operator (op : V -> V -> V) (im1 im2 : Image V WCS) :
  Image_invariant im1 ->
  (shape (_array im1) <> shape (_array im2) ->
   (_ <- check_image_consistency im1 (OImage im2) false ;;
    Image_init (ImgArray (apply_op op im1 (OImage im2)))
               (with_bounds_wcs (_bounds im1) (wcs im1)))
   = Raise GalSimIncompatibleValuesError)
  /\ (shape (_array im1) = shape (_array im2) ->
      exists r,
        (_ <- check_image_consistency im1 (OImage im2) false ;;
         Image_init (ImgArray (apply_op op im1 (OImage im2)))
                    (with_bounds_wcs (_bounds im1) (wcs im1)))
        = Ok r
        /\ Bounds_eqb (_bounds r) (_bounds im1) = true
        /\ isDefined (_bounds r) = isDefined (_bounds im1)
        /\ wcs r = wcs im1).
Proof.
  intros Hinv. unfold check_image_consistency. simpl. split.
  - intros Hne.
    assert (E : shape_eqb (shape (_array im1)) (shape (_array im2)) = false).
    { destruct (shape_eqb _ _) eqn:E; [| reflexivity]. exfalso. apply Hne.
      unfold shape_eqb in E. apply andb_true_iff in E. destruct E as [E1 E2].
      apply Z.eqb_eq in E1. apply Z.eqb_eq in E2.
      destruct (shape (_array im1)), (shape (_array im2)). simpl in *.
      congruence. }
    rewrite E. reflexivity.
  - intros He. unfold shape_eqb. rewrite He, !Z.eqb_refl. simpl.
    destruct (@Image_init_array_bounds
                (arr_binop op (_array im1) (_array im2))
                (_bounds im1) (wcs im1)) as (r & Hr & Hb & Hd & Hw & _).
    { intros Hdef. destruct (Hinv Hdef) as (Hx & Hy & Hs).
      rewrite shape_arr_binop by exact He. auto. }
    exists r. auto.
Qed.

(** C10.  For two images, [+], [-] and [*] test the shapes of the two arrays
    and nothing else of the right operand: with different shapes they raise,
    and with equal shapes they return an image whose bounds equal those of the
    left operand and whose wcs is that of the left operand. *)
Theorem C10_binary_operators (im1 im2 : Image V WCS) :
  Image_invariant im1 ->
  (shape (_array im1) <> shape (_array im2) ->
   Image_add im1 (OImage im2) = Raise GalSimIncompatibleValuesError
   /\ Image_sub im1 (OImage im2) = Raise GalSimIncompatibleValuesError
   /\ Image_mul im1 (OImage im2) = Raise GalSimIncompatibleValuesError)
  /\ (shape (_array im1) = shape (_array im2) ->
      carries_frame_of im1 (Image_add im1 (OImage im2))
      /\ carries_frame_of im1 (Image_sub im1 (OImage im2))
      /\ carries_frame_of im1 (Image_mul im1 (OImage im2))).
Proof.
  intros Hinv. split.
  - intros Hne. unfold Image_add, Image_sub, Image_mul.
    repeat split; apply (proj1 (binary_operator _ im2 Hinv)); exact Hne.
  - intros He. unfold carries_frame_of, Image_add, Image_sub, Image_mul.
    repeat split; apply (proj2 (binary_operator _ im2 Hinv)); exact He.
Qed.

End ImageFacts.

(** ** The photon loop *)

Lemma inject_Z_abs_zero (n : Z) : inject_Z (Z.abs n) == 0 -> n = 0%Z.
Proof. unfold Qeq. simpl. lia. Qed.

Lemma Qabs_zero (x : Q) : Qabs x == 0 -> x == 0.
Proof.
  apply Qabs_case; intros Hs E; lra.
Qed.

(** The test of the source does say "g == 1 and thisN == Ntot". *)
Lemma skip_scaling_iff (g : Q) (thisN Ntot : Z) :
  skip_scaling g thisN Ntot = true <-> (g == 1 /\ thisN = Ntot).
Proof.
  unfold skip_scaling. rewrite Qeq_bool_iff. split.
  - intros H.
    pose proof (Qabs_nonneg (g - 1)) as Ha.
    assert (Hb : 0 <= inject_Z (Z.abs (thisN - Ntot))).
    { unfold Qle. simpl. lia. }
    assert (Ea : Qabs (g - 1) == 0) by lra.
    assert (Eb : inject_Z (Z.abs (thisN - Ntot)) == 0) by lra.
    split.
    + apply Qabs_zero in Ea. lra.
    + apply inject_Z_abs_zero in Eb. lia.
  - intros [Hg ->]. rewrite Z.sub_diag.
    change (inject_Z (Z.abs 0)) with 0.
    assert (E : Qabs (g - 1) == 0).
    { rewrite (Qabs_wd (g - 1) 0) by lra. reflexivity. }
    lra.
Qed.

Section PhotonFacts.

Variables PhotonArray Rng Img PhotonOp : Type.
Context `{CO : Collaborators PhotonArray Rng Img PhotonOp}.

(** The flux step, by cases. *)
Lemma flux_step_cases (g : Q) (thisN Ntot : Z) (photons : PhotonArray) :
  ((g == 1 /\ thisN = Ntot) -> flux_step g thisN Ntot photons = photons)
  /\ (~ (g == 1 /\ thisN = Ntot) ->
      flux_step g thisN Ntot photons
      = scaleFlux photons (g * inject_Z thisN / inject_Z Ntot)).
Proof.
  unfold flux_step, flux_factor. split; intros H.
  - apply skip_scaling_iff in H. rewrite H. reflexivity.
  - destruct (skip_scaling g thisN Ntot) eqn:E; [| reflexivity].
    exfalso. apply H. apply skip_scaling_iff. exact E.
Qed.

Lemma drawPhot_g_cases (g0 gain : Q) :
  (gain == 1 -> drawPhot_g g0 gain = g0)
  /\ (~ gain == 1 -> drawPhot_g g0 gain = g0 / gain).
Proof.
  unfold drawPhot_g. split; intros H.
  - apply Qeq_bool_iff in H. rewrite H. reflexivity.
  - destruct (Qeq_bool gain 1) eqn:E; [| reflexivity].
    exfalso. apply H. apply Qeq_bool_iff. exact E.
Qed.

(** C2, as amended.  In every iteration of the loop, [maxN] photons are shot
    and [thisN = min(maxN, Nleft)] of them are kept; their flux is scaled by
    [g * thisN / Ntot], where [g] is the factor of the photon-number
    calculation divided by [gain] (left as it is when [gain] is 1), the
    multiplication being skipped exactly when [g] is 1 and [thisN = Ntot]; and
    [thisN] photons fewer are left to shoot. *)
Theorem C2_photon_chunks (maxN Ntot : Z) (g0 gain : Q)
        (photon_ops : list PhotonOp) (s s' : loop_state PhotonArray Rng Img) :
  _cond_fun s = true ->
  _body_fun maxN Ntot (drawPhot_g g0 gain) photon_ops s = Ok s' ->
  exists (shot : PhotonArray) (rng1 : Rng) (g : Q),
    shoot maxN (s_rng s) = Ok (shot, rng1)
    /\ ((gain == 1 -> g = g0) /\ (~ gain == 1 -> g = g0 / gain))
    /\ (exists scaled : PhotonArray,
          ((g == 1 /\ Z.min maxN (s_Nleft s) = Ntot ->
            scaled = set_num_keep shot (Z.min maxN (s_Nleft s)))
           /\ (~ (g == 1 /\ Z.min maxN (s_Nleft s) = Ntot) ->
               scaled
               = scaleFlux (set_num_keep shot (Z.min maxN (s_Nleft s)))
                   (g * inject_Z (Z.min maxN (s_Nleft s)) / inject_Z Ntot)))
          /\ s_photons s'
             = fst (ops_step photon_ops (xy_step (s_image s) scaled) rng1))
    /\ s_Nleft s' = (s_Nleft s - Z.min maxN (s_Nleft s))%Z.
Proof.
  intros _ Hb. unfold _body_fun, _draw_phot_while_loop_shoot, shoot_step in Hb.
  destruct (shoot maxN (s_rng s)) as [[shot rng1] |] eqn:Hs;
    cbn [rbind fst snd] in Hb; [| discriminate].
  exists shot, rng1, (drawPhot_g g0 gain).
  split; [reflexivity |]. split; [apply drawPhot_g_cases |].
  set (thisN := Z.min maxN (s_Nleft s)) in *.
  set (kept := set_num_keep shot thisN) in *.
  set (scaled := flux_step (drawPhot_g g0 gain) thisN Ntot kept) in *.
  destruct (ops_step photon_ops (xy_step (s_image s) scaled) rng1)
    as [photons' rng'] eqn:Ho.
  destruct (accumulate_step photons' (s_image s) (s_resume s) (s_added_flux s))
    as [[added image'] resume'].
  cbn [rbind] in Hb. inversion Hb; subst s'; clear Hb.
  cbn [s_photons s_Nleft r_photons]. split; [| reflexivity].
  exists scaled. split; [apply flux_step_cases |]. rewrite Ho. reflexivity.
Qed.

(** With a positive capacity and a source that can be shot, the loop comes to
    an end within [Nleft] iterations. *)
Lemma while_loop_terminates (maxN Ntot : Z) (g : Q) (photon_ops : list PhotonOp)
      (fuel : nat) :
  (0 < maxN)%Z ->
  forall s : loop_state PhotonArray Rng Img,
    (Z.to_nat (s_Nleft s) <= fuel)%nat ->
    while_loop fuel _cond_fun (_body_fun maxN Ntot g photon_ops) s <> None.
Proof.
  intros Hm. induction fuel as [| fuel IH]; intros s Hf; simpl;
    destruct (_cond_fun s) eqn:Hc; try discriminate.
  - unfold _cond_fun in Hc. apply Z.ltb_lt in Hc. lia.
  - destruct (_body_fun maxN Ntot g photon_ops s) as [s1 |] eqn:Hb;
      [| discriminate].
    apply IH.
    assert (E : s_Nleft s1 = (s_Nleft s - Z.min maxN (s_Nleft s))%Z).
    { unfold _body_fun in Hb.
      destruct (_draw_phot_while_loop_shoot _ _ _ _ _ _ _ _ _);
        cbn [rbind] in Hb; [| discriminate].
      inversion Hb. reflexivity. }
    unfold _cond_fun in Hc. apply Z.ltb_lt in Hc. rewrite E. lia.
Qed.

End PhotonFacts.

(** ** Concrete runs *)

(** C1, as stated, fails at a primitive profile: the double deconvolution is
    not equal to it. *)
Lemma C1_counterexample :
  GSObject_eqb (Deconvolve (Deconvolve smooth_a None true) None true) smooth_a
  = false.
Proof. reflexivity. Qed.

(** C2, as stated, fails for [gain = 2] with four photons in one chunk: the
    fluxes are scaled by 1/2, where the claim has them scaled by 2. *)
Lemma C2_counterexample :
  exists r,
    drawPhot 4 0 2 false (Some 4%Z) tt 0 None [] (Some 4%Z) None = Some (Ok r)
    /\ r_photons r = ([1 # 2; 1 # 2; 1 # 2; 1 # 2], 4%Z)
    /\ claimed_flux_step 2 4 4 ([1; 1; 1; 1], 4%Z) = ([2; 2; 2; 2], 4%Z)
    /\ r_photons r <> claimed_flux_step 2 4 4 ([1; 1; 1; 1], 4%Z).
Proof.
  eexists. split; [vm_compute; reflexivity |].
  split; [reflexivity |]. split; [reflexivity |].
  vm_compute. discriminate.
Qed.

Lemma C2_photon_chunks_witness :
  exists s',
    _body_fun 4 10 (drawPhot_g 1 2) []
      (mkState (new_PhotonArray 4) tt 0 10%Z false 0) = Ok s'
    /\ s_Nleft s' = 6%Z.
Proof.
  assert (Hc : _cond_fun (mkState (new_PhotonArray 4) tt 0 10%Z false 0) = true)
    by reflexivity.
  destruct (_body_fun 4 10 (drawPhot_g 1 2) []
              (mkState (new_PhotonArray 4) tt 0 10%Z false 0))
    as [s' |] eqn:Hb.
  - exists s'. split; [reflexivity |].
    destruct (C2_photon_chunks 4 10 1 2 [] _ Hc Hb)
      as (shot & rng1 & g & _ & _ & _ & Hn).
    rewrite Hn. reflexivity.
  - vm_compute in Hb. discriminate.
Defined.

(** C3, as stated, fails for three children: the constructor warns and
    returns a convolution. *)
Lemma C3_counterexample :
  Convolution_init first_gsparams [ArgList [smooth_a; smooth_b; smooth_a]]
    (Some true) None true
  = ([WarnMoreThanTwo],
     Ok (Convolution [smooth_a; smooth_b; smooth_a] false some_gsparams true))
  /\ snd (Convolution_init first_gsparams
            [ArgList [smooth_a; smooth_b; smooth_a]] (Some true) None true)
     <> Raise NotImplementedError.
Proof. split; [reflexivity | discriminate]. Qed.

Lemma C3_real_space_requested_witness :
  Convolution_init first_gsparams [ArgList [smooth_a; smooth_b]] (Some true)
    None true
  = ([], Raise NotImplementedError).
Proof.
  apply (proj1 (C3_real_space_requested first_gsparams [smooth_a; smooth_b]
                  None true)).
  - simpl. lia.
  - repeat constructor.
Defined.

(** C4 fails on the code.  [Image(array([[1]]), make_const=True)] is a const
    image; [im += im] on it raises nothing and leaves 2 where 1 was, the image
    still being const, whereas [setValue] on it raises and changes nothing. *)
Theorem C4_inplace_add_mutates_const :
  Image_init (ImgArray (mkArray int32 [[1%Z]]))
             (mkKwargs None None None None None None None true)
  = Ok const_pixel
  /\ isconst const_pixel = true
  /\ Image_iadd const_pixel (OImage const_pixel)
     = (Ok tt,
        mkImage (mkArray int32 [[2%Z]])
                (mkBounds (Py 1%Z) (Py 1%Z) (Py 1%Z) (Py 1%Z) true)
                None int32 true)
  /\ fst (Image_iadd const_pixel (OImage const_pixel))
     <> Raise GalSimImmutableError
  /\ snd (Image_iadd const_pixel (OImage const_pixel)) <> const_pixel
  /\ setValue const_pixel (mkPosition 1%Z 1%Z) 2%Z
     = (Raise GalSimImmutableError, const_pixel).
Proof.
  split; [reflexivity |]. split; [reflexivity |]. split; [reflexivity |].
  split; [discriminate |]. split; [discriminate | reflexivity].
Qed.

Lemma C7_convolution_flux_centroid_witness :
  Convolution_init first_gsparams [ArgObj smooth_a; ArgObj smooth_b] None None
    true
  = ([], Ok (Convolution [smooth_a; smooth_b] false some_gsparams true))
  /\ (flux (Convolution [smooth_a; smooth_b] false some_gsparams true)
       == 2 * 3)%Q
  /\ centroid (Convolution [smooth_a; smooth_b] false some_gsparams true)
     = Ok (mkPosition (1 + 0) (0 + 2)).
Proof.
  assert (Ho : conv_objects [ArgObj smooth_a; ArgObj smooth_b]
               = Ok [smooth_a; smooth_b]) by reflexivity.
  assert (Hc : Convolution_init first_gsparams
                 [ArgObj smooth_a; ArgObj smooth_b] None None true
               = ([], Ok (Convolution [smooth_a; smooth_b] false
                                      some_gsparams true)))
    by reflexivity.
  split; [exact Hc |].
  destruct (C7_convolution_flux_centroid first_gsparams _ _ _ _ Ho Hc)
    as (_ & _ & H).
  exact (H smooth_a smooth_b eq_refl).
Defined.


Lemma C9_subImage_outside_witness :
  BoundsI_init (Args4 (Py 1%Z) (Py 5%Z) (Py 1%Z) (Py 5%Z)) = Ok bounds_1_5
  /\ BoundsI_init (Args4 (Py 3%Z) (Py 9%Z) (Py 3%Z) (Py 9%Z)) = Ok bounds_3_9
  /\ Image_init (ImgBounds bounds_1_5) no_kwargs = Ok image_1_5
  /\ Image_getitem image_1_5 (IdxBounds bounds_3_9) = Raise GalSimBoundsError.
Proof.
  split; [reflexivity |]. split; [reflexivity |]. split; [reflexivity |].
  assert (Hd : isDefined (_bounds image_1_5) = true) by reflexivity.
  assert (Hn : ~ fully_contained bounds_3_9 (_bounds image_1_5)).
  { unfold fully_contained. simpl. lia. }
  exact (proj2 (C9_subImage_outside image_1_5 Hd Hn)).
Defined.

Lemma C10_binary_operators_witness :
  carries_frame_of row_left (Image_add row_left (OImage row_right)).
Proof.
  assert (Hinv : Image_invariant row_left).
  { intros _. simpl. repeat split; lia. }
  exact (proj1 (proj2 (C10_binary_operators row_right Hinv) eq_refl)).
Defined.

(** * Further properties *)

(** ** Bounds: centre, area, inclusion, intersection, union *)

(** X1.  The centre of a defined integer bounds with xmin<=xmax and
    ymin<=ymax is one of its pixels. *)
Theorem BoundsI_center_included (b : BoundsI) :
  isDefined b = true ->
  ordered b ->
  includes_pos b (BoundsI_center b) = true.
Proof.
  intros Hd [Hx Hy]. simpl in Hx, Hy.
  apply Z.leb_le in Hx. apply Z.leb_le in Hy.
  unfold includes_pos, includes_xy, BoundsI_center. simpl.
  rewrite Hd. simpl.
  rewrite !andb_true_iff, !Z.leb_le.
  assert (Dx : (0 <= (value (xmax b) - value (xmin b) + 1) / 2
                < value (xmax b) - value (xmin b) + 1)%Z).
  { split; [apply Z.div_pos; lia | apply Z.div_lt_upper_bound; lia]. }
  assert (Dy : (0 <= (value (ymax b) - value (ymin b) + 1) / 2
                < value (ymax b) - value (ymin b) + 1)%Z).
  { split; [apply Z.div_pos; lia | apply Z.div_lt_upper_bound; lia]. }
  lia.
Qed.

Lemma Qhalf_between (a b : Q) : a <= b -> a <= (b + a) / 2 /\ (b + a) / 2 <= b.
Proof.
  intros H.
  assert (E : (b + a) / 2 == (b + a) * (1 # 2)) by (unfold Qdiv; reflexivity).
  rewrite E. split; lra.
Qed.

Lemma f_add_finite (a b : pyfloat) (s : Q) :
  f_add a b = Fin s ->
  exists p q, a = Fin p /\ b = Fin q /\ s = (p + q)%Q.
Proof.
  destruct a as [| | | p]; destruct b as [| | | q]; simpl; try discriminate.
  unfold f_round. destruct (Qle_bool float_overflow (p + q)); [discriminate |].
  destruct (Qle_bool (p + q) (- float_overflow)); [discriminate |].
  intros H. injection H as <-. exists p, q. repeat split.
Qed.


(** Beyond the range of the floats the centre is not a point of the bounds:
    for [BoundsD(1e308, 1.5e308, 0.0, 1.0)] the sum overflows to infinity. *)
Lemma true_center_overflow :
  exists b : BoundsD,
    BoundsD_init (Args4 (Py (Fin (inject_Z (10 ^ 308))))
                        (Py (Fin (inject_Z (15 * 10 ^ 307))))
                        (Py (Fin 0)) (Py (Fin 1))) = Ok b
    /\ isDefined b = true
    /\ ordered b
    /\ true_center b = Ok (mkPosition PInf (Fin (1 / 2)))
    /\ includes_pos b (mkPosition PInf (Fin (1 / 2))) = false.
Proof.
  eexists. split; [reflexivity |]. split; [reflexivity |].
  split; [split; vm_compute; reflexivity |].
  split; vm_compute; reflexivity.
Qed.

(** X3.  The area of an integer bounds never grows by restriction: a bounds
    included in another has at most its area, and at least one pixel when
    it is in order. *)
Theorem BoundsI_area_monotone (a b : BoundsI) :
  includes a b = true ->
  ordered b ->
  (1 <= BoundsI_area b <= BoundsI_area a)%Z.
Proof.
  unfold includes, BoundsI_area. simpl.
  rewrite !andb_true_iff, !Z.leb_le.
  intros (((((Ha & Hb) & H1) & H2) & H3) & H4) [Hx Hy].
  simpl in Hx, Hy. apply Z.leb_le in Hx. apply Z.leb_le in Hy.
  rewrite Ha, Hb. simpl. nia.
Qed.

Section BoundsAlgebra.

Context {T : Type} `{CT : Coord T} {CL : CoordTotal (CT := CT)}
        {CO : CoordOrder (CT := CT)}.

Lemma includes_xy_spec (b : Bounds T) (x y : T) :
  includes_xy b x y = true <->
  isDefined b = true
  /\ c_leb (value (xmin b)) x = true /\ c_leb x (value (xmax b)) = true
  /\ c_leb (value (ymin b)) y = true /\ c_leb y (value (ymax b)) = true.
Proof. unfold includes_xy. rewrite !andb_true_iff. tauto. Qed.

Lemma includes_spec (a b : Bounds T) :
  includes a b = true <->
  isDefined a = true /\ isDefined b = true
  /\ c_leb (value (xmin a)) (value (xmin b)) = true
  /\ c_leb (value (xmax b)) (value (xmax a)) = true
  /\ c_leb (value (ymin a)) (value (ymin b)) = true
  /\ c_leb (value (ymax b)) (value (ymax a)) = true.
Proof. unfold includes. rewrite !andb_true_iff. tauto. Qed.

Lemma c_leb_reflexive (a : T) : c_leb a a = true.
Proof. destruct (c_leb_total a a); assumption. Qed.

(** X4.  [includes] on two bounds says what it should of their points: a
    bounds that includes [b] covers every point of [b]; and a defined bounds
    that covers every point of a defined [b] in order includes [b]. *)
Theorem includes_covers (a b : Bounds T) :
  (includes a b = true -> covers a b)
  /\ (isDefined a = true -> isDefined b = true -> ordered b ->
      covers a b -> includes a b = true).
Proof.
  split.
  - intros H x y Hb. apply includes_spec in H.
    destruct H as (Ha & _ & H1 & H2 & H3 & H4).
    apply includes_xy_spec in Hb. destruct Hb as (_ & B1 & B2 & B3 & B4).
    apply includes_xy_spec. repeat split; try assumption;
      eapply c_leb_trans; eassumption.
  - intros Ha Hb [Hx Hy] Hc.
    assert (L : includes_xy a (value (xmin b)) (value (ymin b)) = true).
    { apply Hc. apply includes_xy_spec.
      repeat split; auto using c_leb_reflexive. }
    assert (U : includes_xy a (value (xmax b)) (value (ymax b)) = true).
    { apply Hc. apply includes_xy_spec.
      repeat split; auto using c_leb_reflexive. }
    apply includes_xy_spec in L. apply includes_xy_spec in U.
    apply includes_spec. tauto.
Qed.

Lemma not_gt_leb (a b : scalar T) :
  gt a b = false <-> c_leb (value a) (value b) = true.
Proof.
  unfold gt. rewrite c_ltb_leb, negb_false_iff. tauto.
Qed.

Lemma jnp_maximum_ok (u v : scalar T) :
  jax_ok u = true -> jax_ok v = true ->
  jnp_maximum u v = Ok (Jax (c_max (value u) (value v))).
Proof. intros Hu Hv. unfold jnp_maximum. rewrite Hu, Hv. reflexivity. Qed.

Lemma jnp_minimum_ok (u v : scalar T) :
  jax_ok u = true -> jax_ok v = true ->
  jnp_minimum u v = Ok (Jax (c_min (value u) (value v))).
Proof. intros Hu Hv. unfold jnp_minimum. rewrite Hu, Hv. reflexivity. Qed.

Lemma coords_jax_ok_spec (b : Bounds T) :
  coords_jax_ok b = true ->
  jax_ok (xmin b) = true /\ jax_ok (xmax b) = true
  /\ jax_ok (ymin b) = true /\ jax_ok (ymax b) = true.
Proof. unfold coords_jax_ok. rewrite !andb_true_iff. tauto. Qed.

(** The intersection, where [jnp.maximum] and [jnp.minimum] are exact. *)
Lemma Bounds_and_exact (a b : Bounds T) :
  coords_jax_ok a = true -> coords_jax_ok b = true ->
  exists r, Bounds_and a b = Ok r
            /\ forall x y,
                 includes_xy r x y = includes_xy a x y && includes_xy b x y.
Proof.
  intros Ja Jb.
  apply coords_jax_ok_spec in Ja. destruct Ja as (A0 & A1 & A2 & A3).
  apply coords_jax_ok_spec in Jb. destruct Jb as (B0 & B1 & B2 & B3).
  unfold Bounds_and.
  destruct (isDefined a) eqn:Ha; simpl.
  2:{ rewrite Bounds_init_Args0. eexists. split; [reflexivity |].
      intros x y. unfold includes_xy at 2. rewrite Ha. reflexivity. }
  destruct (isDefined b) eqn:Hb; simpl.
  2:{ rewrite Bounds_init_Args0. eexists. split; [reflexivity |].
      intros x y. unfold includes_xy at 3. rewrite Hb. simpl.
      rewrite andb_false_r. reflexivity. }
  rewrite (jnp_maximum_ok _ _ A0 B0), (jnp_minimum_ok _ _ A1 B1),
    (jnp_maximum_ok _ _ A2 B2), (jnp_minimum_ok _ _ A3 B3).
  cbn [rbind].
  set (x0 := Jax (c_max (value (xmin a)) (value (xmin b)))).
  set (x1 := Jax (c_min (value (xmax a)) (value (xmax b)))).
  set (y0 := Jax (c_max (value (ymin a)) (value (ymin b)))).
  set (y1 := Jax (c_min (value (ymax a)) (value (ymax b)))).
  assert (P : forall x y,
             includes_xy a x y && includes_xy b x y
             = c_leb (value x0) x && c_leb x (value x1)
               && c_leb (value y0) y && c_leb y (value y1)).
  { intros x y. unfold includes_xy. rewrite Ha, Hb. subst x0 x1 y0 y1. simpl.
    rewrite !c_max_lub, !c_min_glb.
    destruct (c_leb (value (xmin a)) x), (c_leb (value (xmin b)) x),
      (c_leb x (value (xmax a))), (c_leb x (value (xmax b))),
      (c_leb (value (ymin a)) y), (c_leb (value (ymin b)) y),
      (c_leb y (value (ymax a))), (c_leb y (value (ymax b))); reflexivity. }
  destruct (gt x0 x1 || gt y0 y1) eqn:G.
  - rewrite Bounds_init_Args0. eexists. split; [reflexivity |].
    intros x y. rewrite P.
    assert (R : c_leb (value x0) x && c_leb x (value x1)
                && c_leb (value y0) y && c_leb y (value y1) = false).
    { destruct (c_leb (value x0) x) eqn:E1; [| reflexivity].
      destruct (c_leb x (value x1)) eqn:E2; [| reflexivity].
      destruct (c_leb (value y0) y) eqn:E3; [| reflexivity].
      destruct (c_leb y (value y1)) eqn:E4; [| reflexivity].
      exfalso. apply orb_true_iff in G. destruct G as [G | G].
      - assert (L : c_leb (value x0) (value x1) = true)
          by (eapply c_leb_trans; eassumption).
        apply not_gt_leb in L. congruence.
      - assert (L : c_leb (value y0) (value y1) = true)
          by (eapply c_leb_trans; eassumption).
        apply not_gt_leb in L. congruence. }
    rewrite R. reflexivity.
  - unfold Bounds_init, _parse_args, check_valid, simple_and_invalid.
    cbn [xmin xmax ymin ymax _isdefined rbind].
    assert (J : is_py x0 = false) by reflexivity. rewrite J.
    cbn [andb]. eexists. split; [reflexivity |].
    intros x y. rewrite P.
    unfold includes_xy, isDefined. cbn [xmin xmax ymin ymax _isdefined].
    rewrite !c_cast_value. reflexivity.
Qed.

(** The union, where [jnp.maximum] and [jnp.minimum] are exact. *)
Lemma Bounds_add_exact (a b : Bounds T) (p : Position (scalar T)) :
  coords_jax_ok a = true -> coords_jax_ok b = true -> pos_jax_ok p = true ->
  (exists r, Bounds_add a (AddBounds b) = Ok r /\ covers r a /\ covers r b)
  /\ (exists r, Bounds_add a (AddPos p) = Ok r
                /\ covers r a
                /\ includes_xy r (value (pos_x p)) (value (pos_y p)) = true).
Proof.
  intros Ja Jb Jp.
  apply coords_jax_ok_spec in Ja. destruct Ja as (A0 & A1 & A2 & A3).
  apply coords_jax_ok_spec in Jb. destruct Jb as (B0 & B1 & B2 & B3).
  unfold pos_jax_ok in Jp. apply andb_true_iff in Jp. destruct Jp as [P0 P1].
  assert (Lmin : forall u v w : T,
             c_leb u w = true \/ c_leb v w = true ->
             c_leb (c_min u v) w = true).
  { intros u v w H.
    pose proof (c_min_glb u v (c_min u v)) as M.
    rewrite c_leb_reflexive in M. symmetry in M.
    apply andb_true_iff in M. destruct M as [M1 M2].
    destruct H as [H | H]; eapply c_leb_trans;
      [exact M1 | exact H | exact M2 | exact H]. }
  assert (Lmax : forall u v w : T,
             c_leb w u = true \/ c_leb w v = true ->
             c_leb w (c_max u v) = true).
  { intros u v w H.
    pose proof (c_max_lub u v (c_max u v)) as M.
    rewrite c_leb_reflexive in M. symmetry in M.
    apply andb_true_iff in M. destruct M as [M1 M2].
    destruct H as [H | H]; eapply c_leb_trans;
      [exact H | exact M1 | exact H | exact M2]. }
  split.
  - unfold Bounds_add.
    destruct (isDefined b) eqn:Hb; simpl.
    + destruct (isDefined a) eqn:Ha.
      * rewrite (jnp_minimum_ok _ _ A0 B0), (jnp_maximum_ok _ _ A1 B1),
          (jnp_minimum_ok _ _ A2 B2), (jnp_maximum_ok _ _ A3 B3).
        unfold Bounds_init, _parse_args, check_valid, simple_and_invalid.
        simpl. eexists. split; [reflexivity |].
        split; intros x y H; apply includes_xy_spec in H;
          destruct H as (_ & H1 & H2 & H3 & H4);
          apply includes_xy_spec; simpl; rewrite !c_cast_value; simpl;
          repeat split; auto.
      * exists b. split; [reflexivity |]. split; intros x y H.
        -- unfold includes_xy in H. rewrite Ha in H. discriminate.
        -- exact H.
    + exists a. split; [reflexivity |]. split; intros x y H.
      * exact H.
      * unfold includes_xy in H. rewrite Hb in H. discriminate.
  - unfold Bounds_add.
    destruct (isDefined a) eqn:Ha.
    + rewrite (jnp_minimum_ok _ _ A0 P0), (jnp_maximum_ok _ _ A1 P0),
        (jnp_minimum_ok _ _ A2 P1), (jnp_maximum_ok _ _ A3 P1).
      unfold Bounds_init, _parse_args, check_valid, simple_and_invalid.
      simpl. eexists. split; [reflexivity |]. split.
      * intros x y H. apply includes_xy_spec in H.
        destruct H as (_ & H1 & H2 & H3 & H4).
        apply includes_xy_spec; simpl; rewrite !c_cast_value; simpl.
        repeat split; auto.
      * apply includes_xy_spec; simpl; rewrite !c_cast_value; simpl.
        repeat split; auto using c_leb_reflexive.
    + unfold Bounds_init, _parse_args, check_valid, simple_and_invalid.
      simpl.
      assert (G : forall s : scalar T, gt s s = false).
      { intros s. apply not_gt_leb. apply c_leb_reflexive. }
      rewrite !G. rewrite !andb_false_r. simpl.
      eexists. split; [reflexivity |]. split.
      * intros x y H. unfold includes_xy in H. rewrite Ha in H. discriminate.
      * apply includes_xy_spec; simpl; rewrite !c_cast_value.
        repeat split; auto using c_leb_reflexive.
Qed.

(** X7.  Flattening a bounds and rebuilding it gives back an equal bounds,
    provided a bounds flagged defined is in order. *)
Theorem Bounds_tree_round_trip (b : Bounds T) :
  (isDefined b = true -> ordered b) ->
  exists b', Bounds_tree_unflatten (Bounds_tree_flatten b) = Ok b'
             /\ Bounds_eqb b' b = true.
Proof.
  intros Ho. unfold Bounds_tree_flatten, Bounds_tree_unflatten.
  destruct (isDefined b) eqn:Hd.
  - destruct (Ho eq_refl) as [Hx Hy].
    unfold Bounds_init, _parse_args, check_valid, simple_and_invalid. simpl.
    apply not_gt_leb in Hx. apply not_gt_leb in Hy. rewrite Hx, Hy.
    rewrite !andb_false_r. simpl. eexists. split; [reflexivity |].
    unfold Bounds_eqb, isDefined. simpl. unfold isDefined in Hd. rewrite Hd.
    rewrite !c_cast_value, !c_eqb_refl. reflexivity.
  - rewrite Bounds_init_Args0. eexists. split; [reflexivity |].
    unfold Bounds_eqb, isDefined. simpl. unfold isDefined in Hd. rewrite Hd.
    reflexivity.
Qed.

End BoundsAlgebra.



(** ** Composition: equality, parameters, constructors, signed fluxes *)

Lemma GSParams_eqb_sym (g h : GSParams) : GSParams_eqb g h = GSParams_eqb h g.
Proof.
  unfold GSParams_eqb.
  rewrite (Z.eqb_sym (minimum_fft_size g)), (Z.eqb_sym (maximum_fft_size g)),
    (Qeq_bool_comm (folding_threshold g)), (Qeq_bool_comm (kvalue_accuracy g)).
  reflexivity.
Qed.

Lemma bool_eqb_sym (a b : bool) : Bool.eqb a b = Bool.eqb b a.
Proof. destruct a, b; reflexivity. Qed.

Section CompositionMoreFacts.

Variables P C : Type.
Context `{CP : Contract P C} `{AC : Amplitude C} `{FS : FluxSigns P}.
Variable GSParams_combine : list GSParams -> GSParams.

Lemma GSObject_eqb_Convolution (l m : list (GSObject P)) (rs rs' : bool)
      (g h : GSParams) (pg pg' : bool) :
  GSObject_eqb (Convolution l rs g pg) (Convolution m rs' h pg')
  = obj_list_eqb l m && Bool.eqb rs rs' && GSParams_eqb g h && Bool.eqb pg pg'.
Proof. reflexivity. Qed.

Lemma obj_list_eqb_cons (x y : GSObject P) (l m : list (GSObject P)) :
  obj_list_eqb (x :: l) (y :: m) = GSObject_eqb x y && obj_list_eqb l m.
Proof. reflexivity. Qed.

(** X8.  The structural equality of objects is reflexive and symmetric as
    soon as the equality of primitive profiles is: the fast path
    [self is other] never changes an answer, and [a == b] agrees with
    [b == a]. *)
Theorem GSObject_eqb_refl_sym :
  (forall p : P, prim_eqb p p = true) ->
  (forall p q : P, prim_eqb p q = prim_eqb q p) ->
  (forall a : GSObject P, GSObject_eqb a a = true)
  /\ (forall a b : GSObject P, GSObject_eqb a b = GSObject_eqb b a).
Proof.
  intros Hr Hs. split.
  - intros a.
    induction a as [p g | l rs g pg IH | c g pg IH] using GSObject_induction.
    + simpl. rewrite Hr, GSParams_eqb_refl. reflexivity.
    + rewrite GSObject_eqb_Convolution.
      rewrite GSParams_eqb_refl, !eqb_reflx, !andb_true_r.
      induction IH as [| x l Hx _ IHl]; [reflexivity |].
      rewrite obj_list_eqb_cons, Hx, IHl. reflexivity.
    + simpl. rewrite IH, GSParams_eqb_refl, eqb_reflx. reflexivity.
  - intros a.
    induction a as [p g | l rs g pg IH | c g pg IH] using GSObject_induction;
      intros [q h | m rs' h pg' | d h pg']; try reflexivity.
    + simpl. rewrite (Hs p q), (GSParams_eqb_sym g h). reflexivity.
    + rewrite !GSObject_eqb_Convolution.
      rewrite (GSParams_eqb_sym g h), (bool_eqb_sym rs rs'),
        (bool_eqb_sym pg pg').
      do 3 f_equal.
      revert m. induction IH as [| x l Hx _ IHl]; intros [| y m];
        try reflexivity.
      rewrite !obj_list_eqb_cons, (Hx y), (IHl m). reflexivity.
    + simpl. rewrite (IH d), (GSParams_eqb_sym g h), (bool_eqb_sym pg pg').
      reflexivity.
Qed.

Lemma gsparams_withGSParams (o : GSObject P) (g : GSParams) :
  GSParams_eqb g (gsparams (withGSParams o (Some g))) = true.
Proof.
  rewrite withGSParams_eq. simpl.
  destruct (GSParams_eqb g (gsparams o)) eqn:E; [exact E |].
  destruct o; simpl; apply GSParams_eqb_refl.
Qed.

Lemma has_hard_edges_withGSParams (o : GSObject P) :
  forall g, has_hard_edges (withGSParams o g) = has_hard_edges o.
Proof.
  induction o as [p g0 | l rs g0 pg IH | c g0 pg IH] using GSObject_induction;
    intros g; rewrite withGSParams_eq;
    destruct (opt_GSParams_eqb g _); try reflexivity; simpl.
  destruct pg; [| reflexivity].
  destruct l as [| x [| y l]]; try reflexivity.
  simpl. inversion IH; subst. auto.
Qed.

(** X9.  [withGSParams(g)] returns an object that carries parameters equal
    to [g], with the flux, the centroid and the hard edges of the object it
    was called on; calling it again with [g] changes nothing more. *)
Theorem withGSParams_effect (o : GSObject P) (g : GSParams) :
  GSParams_eqb g (gsparams (withGSParams o (Some g))) = true
  /\ flux (withGSParams o (Some g)) = flux o
  /\ centroid (withGSParams o (Some g)) = centroid o
  /\ has_hard_edges (withGSParams o (Some g)) = has_hard_edges o
  /\ withGSParams (withGSParams o (Some g)) (Some g) = withGSParams o (Some g).
Proof.
  split; [apply gsparams_withGSParams |].
  split; [apply flux_withGSParams |].
  split; [apply centroid_withGSParams |].
  split; [apply has_hard_edges_withGSParams |].
  rewrite (withGSParams_eq (withGSParams o (Some g))). simpl.
  rewrite gsparams_withGSParams. reflexivity.
Qed.

(** X10.  With [propagate_gsparams], the constructors hand their own
    parameters down: every child of a convolution that is returned, and the
    object wrapped by a deconvolution, carry parameters equal to those of the
    composite.  A deconvolution built without [gsparams] wraps the very object
    it was given. *)
Theorem constructors_propagate_gsparams (args : list (conv_arg P))
        (objs : list (GSObject P)) (real_space : option bool)
        (gsparams_kw : option GSParams) (w : list warning) (c obj : GSObject P) :
  conv_objects args = Ok objs ->
  Convolution_init GSParams_combine args real_space gsparams_kw true
  = (w, Ok c) ->
  (exists l, c = Convolution l false (gsparams c) true
             /\ length l = length objs
             /\ Forall (fun o => GSParams_eqb (gsparams c) (gsparams o) = true) l)
  /\ (exists d g,
        Deconvolution_init obj gsparams_kw true = Deconvolution d g true
        /\ GSParams_eqb g (gsparams d) = true)
  /\ Deconvolution_init obj None true = Deconvolution obj (gsparams obj) true.
Proof.
  intros Ho Hc. rewrite (Convolution_init_returns _ _ _ _ _ Ho Hc).
  unfold dft_convolution. simpl. split; [| split].
  - eexists. split; [reflexivity |]. split; [apply length_map |].
    apply Forall_forall. intros o Hin. apply in_map_iff in Hin.
    destruct Hin as (o0 & <- & _). apply gsparams_withGSParams.
  - unfold Deconvolution_init. do 2 eexists. split; [reflexivity |].
    apply gsparams_withGSParams.
  - unfold Deconvolution_init. simpl. rewrite withGSParams_own. reflexivity.
Qed.

Lemma no_real_space_withGSParams (o : GSObject P) :
  forall g, no_real_space (withGSParams o g) = no_real_space o.
Proof.
  induction o as [p g0 | l rs g0 pg IH | c g0 pg IH] using GSObject_induction;
    intros g; rewrite withGSParams_eq;
    destruct (opt_GSParams_eqb g _); try reflexivity; simpl.
  - destruct pg; [| reflexivity]. f_equal.
    induction IH as [| x l Hx _ IHl]; [reflexivity |].
    simpl. rewrite Hx, IHl. reflexivity.
  - destruct pg; [| reflexivity]. apply IH.
Qed.

Lemma is_analytic_x_total (o : GSObject P) :
  no_real_space o = true -> exists b, is_analytic_x o = Ok b.
Proof.
  induction o as [p g0 | l rs g0 pg IH | c g0 pg IH] using GSObject_induction;
    simpl; intros H.
  - eexists. reflexivity.
  - apply andb_true_iff in H. destruct H as [Hrs Hl].
    apply negb_true_iff in Hrs. subst rs.
    destruct l as [| x [| y l]].
    + eexists. reflexivity.
    + inversion IH; subst. simpl in Hl. rewrite andb_true_r in Hl. auto.
    + eexists. reflexivity.
  - eexists. reflexivity.
Qed.

(** X11.  No constructor ever returns an object that asks for real-space
    convolution, so [is_analytic_x] never reaches the faulty branch of
    [Convolution._is_analytic_x]: on an object built by [Convolution] or
    [Deconvolution] from such objects it returns a Boolean, [False] for a
    convolution of two or more objects and for every deconvolution. *)
Theorem constructed_is_analytic_x (args : list (conv_arg P))
        (objs : list (GSObject P)) (real_space : option bool)
        (gsparams_kw : option GSParams) (propagate_gsparams : bool)
        (w : list warning) (c : GSObject P) :
  conv_objects args = Ok objs ->
  forallb (@no_real_space P) objs = true ->
  Convolution_init GSParams_combine args real_space gsparams_kw
    propagate_gsparams = (w, Ok c) ->
  no_real_space c = true
  /\ (exists b, is_analytic_x c = Ok b)
  /\ ((2 <= length objs)%nat -> is_analytic_x c = Ok false)
  /\ no_real_space (Deconvolution_init c gsparams_kw propagate_gsparams) = true
  /\ is_analytic_x (Deconvolution_init c gsparams_kw propagate_gsparams)
     = Ok false.
Proof.
  intros Ho Hn Hc.
  assert (N : no_real_space c = true).
  { rewrite (Convolution_init_returns _ _ _ _ _ Ho Hc).
    unfold dft_convolution. simpl. destruct propagate_gsparams; [| exact Hn].
    rewrite forallb_forall in *. intros o Hin. apply in_map_iff in Hin.
    destruct Hin as (o0 & <- & Hin). rewrite no_real_space_withGSParams.
    apply Hn. exact Hin. }
  split; [exact N |]. split; [apply is_analytic_x_total; exact N |].
  split; [| split].
  - intros Hl. rewrite (Convolution_init_returns _ _ _ _ _ Ho Hc).
    unfold dft_convolution.
    destruct objs as [| x [| y l]]; simpl in Hl; try lia.
    destruct propagate_gsparams; reflexivity.
  - unfold Deconvolution_init. simpl.
    destruct propagate_gsparams; [| exact N].
    rewrite no_real_space_withGSParams. exact N.
  - reflexivity.
Qed.


Lemma sequence_Forall2 {A B : Type} (f : A -> result B) (l : list A)
      (rs : list B) :
  sequence (map f l) = Ok rs -> Forall2 (fun a r => f a = Ok r) l rs.
Proof.
  revert rs. induction l as [| a l IH]; simpl; intros rs H.
  - inversion H. constructor.
  - destruct (f a) as [r |] eqn:Ea; simpl in H; [| discriminate].
    destruct (sequence (map f l)) as [rs' |]; simpl in H; [| discriminate].
    inversion H; subst. constructor; auto.
Qed.

Lemma fold_left_Qmult_compat (xs ys : list Q) :
  Forall2 Qeq xs ys ->
  forall a b, a == b -> fold_left Qmult xs a == fold_left Qmult ys b.
Proof.
  induction 1 as [| x y xs ys Hxy _ IH]; simpl; intros a b Hab.
  - exact Hab.
  - apply IH. rewrite Hab, Hxy. reflexivity.
Qed.

Lemma calc_pn_difference (pns : list (Q * Q)) (acc : Q * Q) :
  let r := fold_left
             (fun net pn =>
                ((fst net * fst pn + snd net * snd pn)%Q,
                 (fst net * snd pn + snd net * fst pn)%Q)) pns acc in
  fst r - snd r
  == fold_left Qmult (map (fun pn => fst pn - snd pn) pns) (fst acc - snd acc).
Proof.
  revert acc. induction pns as [| pn pns IH]; intros acc; simpl.
  - reflexivity.
  - rewrite IH. simpl. apply fold_left_Qmult_compat.
    + clear. induction pns; constructor; [reflexivity | assumption].
    + ring.
Qed.

Lemma combine_fst_snd {A B : Type} (l : list (A * B)) :
  combine (map fst l) (map snd l) = l.
Proof.
  induction l as [| [a b] l IH]; simpl; [reflexivity |]. rewrite IH.
  reflexivity.
Qed.

Lemma signed_fluxes_difference (o : GSObject P) :
  forall p n : Q, signed_fluxes o = Ok (p, n) -> p - n == flux o.
Proof.
  induction o as [p0 g0 | l rs g0 pg IH | c g0 pg IH]
    using GSObject_induction; intros p n H.
  - simpl in H. inversion H; subst. simpl. ring.
  - simpl in H.
    destruct (sequence (map (signed_fluxes (C:=C)) l)) as [pns |] eqn:Es;
      simpl in H; [| discriminate].
    apply sequence_Forall2 in Es.
    destruct Es as [| c0 pn0 cs pns Hc0 Hcs]; simpl in H; [discriminate |].
    rewrite combine_fst_snd in H.
    pose proof (calc_pn_difference pns (fst pn0, snd pn0)) as K.
    cbv zeta in K. injection H as Hr. rewrite Hr in K.
    cbn [fst snd] in K.
    inversion IH as [| ? ? I0 Is]; subst.
    cbn [flux map]. unfold jnp_prod. cbn [fold_left].
    rewrite K. apply fold_left_Qmult_compat.
    + clear - Hcs Is. induction Hcs as [| c1 pn1 cs pns H1 _ IHc];
        simpl; constructor.
      * inversion Is; subst. destruct pn1 as [p1 n1]. simpl. auto.
      * inversion Is; subst. auto.
    + destruct pn0 as [p0 n0]. simpl. rewrite (I0 p0 n0 Hc0). ring.
  - simpl in H. inversion H; subst. simpl. ring.
Qed.


Lemma flux_dft_convolution (objs : list (GSObject P))
      (gsparams_kw : option GSParams) (propagate_gsparams : bool) :
  flux (dft_convolution GSParams_combine objs gsparams_kw propagate_gsparams)
  = jnp_prod (map (@flux P C CP) objs).
Proof.
  unfold dft_convolution. simpl. destruct propagate_gsparams; [| reflexivity].
  rewrite map_map. f_equal. apply map_ext. intros o. apply flux_withGSParams.
Qed.

Lemma centroid_dft_convolution (objs : list (GSObject P))
      (gsparams_kw : option GSParams) (propagate_gsparams : bool) :
  centroid (dft_convolution GSParams_combine objs gsparams_kw
              propagate_gsparams)
  = (cen_list <- sequence (map (@centroid P C CP) objs) ;;
     sum_positions cen_list).
Proof.
  unfold dft_convolution. simpl. destruct propagate_gsparams; [| reflexivity].
  rewrite map_map. do 2 f_equal. apply map_ext. intros o.
  apply centroid_withGSParams.
Qed.

Lemma Qopp_opp_eq (q : Q) : (- - q)%Q = q.
Proof. destruct q as [a b]. unfold Qopp. simpl. rewrite Z.opp_involutive. reflexivity. Qed.


(** X15.  The clamp bounds the deconvolution in k-space: with a positive
    threshold [flux * kvalue_accuracy], and amplitudes whose magnitude obeys
    [|1/z| = 1/|z|] and [|r| = abs r] for a real [r], the magnitude of the
    k-value of a deconvolution never exceeds the reciprocal of the
    threshold. *)
Theorem deconvolution_kValue_bounded (child : GSObject P) (g : GSParams)
        (propagate_gsparams : bool) (kpos : PositionD) (kv : C) :
  (forall z : C, ~ Cabs z == 0 -> Cabs (Cinv z) == 1 / Cabs z) ->
  (forall r : Q, Cabs (CofQ r) == Qabs r) ->
  0 < flux child * kvalue_accuracy g ->
  _kValue child kpos = Ok kv ->
  exists v, _kValue (Deconvolution child g propagate_gsparams) kpos = Ok v
            /\ Cabs v <= 1 / (flux child * kvalue_accuracy g).
Proof.
  intros Hinv Hreal Ht Hk. simpl. rewrite Hk. simpl.
  unfold _inv_min_acc_kvalue, _min_acc_kvalue.
  set (t := flux child * kvalue_accuracy g) in *.
  eexists. split; [reflexivity |].
  assert (Ti : 0 < 1 / t).
  { unfold Qdiv. rewrite Qmult_1_l. apply Qinv_lt_0_compat. exact Ht. }
  destruct (Qltb (Cabs kv) t) eqn:E.
  - rewrite Hreal. rewrite Qabs_pos by (apply Qlt_le_weak; exact Ti).
    apply Qle_refl.
  - apply Qltb_false in E.
    assert (Ka : 0 < Cabs kv) by exact (Qlt_le_trans _ _ _ Ht E).
    rewrite Hinv by (intros Z0; rewrite Z0 in Ka; exact (Qlt_irrefl 0 Ka)).
    unfold Qdiv. rewrite !Qmult_1_l.
    destruct (Qle_lt_or_eq _ _ E) as [Hlt | Heq].
    + apply Qlt_le_weak. apply (Qinv_lt_contravar _ _ Ht Ka). exact Hlt.
    + rewrite Heq. apply Qle_refl.
Qed.

End CompositionMoreFacts.

(** ** The photon loop: chunks, conservation, divergence *)

Lemma Qsum_flux_factor (g : Q) (Ntot : Z) (ks : list Z) :
  Qsum (map (fun k => flux_factor g k Ntot) ks)
  == g * inject_Z (Zsum ks) / inject_Z Ntot.
Proof.
  unfold flux_factor. induction ks as [| k ks IH]; simpl.
  - unfold Qdiv. ring.
  - rewrite IH, inject_Z_plus. unfold Qdiv. ring.
Qed.

Lemma skip_scaling_factor (g : Q) (thisN Ntot : Z) :
  (0 < Ntot)%Z -> skip_scaling g thisN Ntot = true ->
  flux_factor g thisN Ntot == 1.
Proof.
  intros Hn H. apply skip_scaling_iff in H. destruct H as [Hg ->].
  unfold flux_factor. rewrite Hg. field.
  intros E. apply (inject_Z_injective Ntot 0) in E. lia.
Qed.

Lemma chunks_count (N m : Z) :
  (0 < m)%Z -> (0 < N)%Z ->
  Z.to_nat ((N + m - 1) / m)
  = S (Z.to_nat ((N - Z.min m N + m - 1) / m)).
Proof.
  intros Hm HN. destruct (Z.le_gt_cases N m) as [Hle | Hgt].
  - rewrite Z.min_r by lia.
    replace (N - N + m - 1)%Z with (m - 1)%Z by lia.
    rewrite (Z.div_small (m - 1) m) by lia.
    assert (E : ((N + m - 1) / m = 1)%Z).
    { symmetry. apply (Z.div_unique (N + m - 1) m 1 (N - 1)); lia. }
    rewrite E. reflexivity.
  - rewrite Z.min_l by lia.
    replace (N + m - 1)%Z with ((N - m + m - 1) + 1 * m)%Z by lia.
    rewrite Z.div_add by lia.
    rewrite Z2Nat.inj_add; [| apply Z.div_pos; lia | lia].
    simpl. lia.
Qed.

Section PhotonRunFacts.

Variables PhotonArray Rng Img PhotonOp : Type.
Context `{CO : Collaborators PhotonArray Rng Img PhotonOp}.

Lemma _body_fun_Nleft (maxN Ntot : Z) (g : Q) (photon_ops : list PhotonOp)
      (s s1 : loop_state PhotonArray Rng Img) :
  _body_fun maxN Ntot g photon_ops s = Ok s1 ->
  s_Nleft s1 = (s_Nleft s - thisN_of maxN s)%Z.
Proof.
  unfold _body_fun. intros Hb.
  destruct (_draw_phot_while_loop_shoot _ _ _ _ _ _ _ _ _);
    cbn [rbind] in Hb; [| discriminate].
  inversion Hb. reflexivity.
Qed.

Lemma _body_fun_returns (maxN Ntot : Z) (g : Q) (photon_ops : list PhotonOp)
      (s : loop_state PhotonArray Rng Img) :
  (forall rng : Rng, exists r, shoot maxN rng = Ok r) ->
  exists s1, _body_fun maxN Ntot g photon_ops s = Ok s1.
Proof.
  intros Hs. unfold _body_fun, _draw_phot_while_loop_shoot, shoot_step.
  destruct (Hs (s_rng s)) as [[shot rng1] E]. rewrite E. cbn [rbind fst snd].
  destruct (ops_step _ _ _) as [p r].
  destruct (accumulate_step _ _ _ _) as [[a i] b].
  cbn [rbind]. eexists. reflexivity.
Qed.

Lemma loop_run_while_loop
      (body : loop_state PhotonArray Rng Img
              -> result (loop_state PhotonArray Rng Img))
      (s s' : loop_state PhotonArray Rng Img)
      (tr : list (loop_state PhotonArray Rng Img)) :
  loop_run body s tr s' ->
  forall fuel : nat,
    ((length tr <= fuel)%nat -> while_loop fuel _cond_fun body s = Some (Ok s'))
    /\ ((fuel < length tr)%nat -> while_loop fuel _cond_fun body s = None).
Proof.
  induction 1 as [s Hc | s s1 s' tr Hc Hb _ IH]; intros fuel.
  - split; intros Hf; [| simpl in Hf; lia].
    destruct fuel; simpl; rewrite Hc; reflexivity.
  - split; intros Hf; simpl in Hf.
    + destruct fuel as [| fuel]; [lia |]. simpl. rewrite Hc, Hb.
      apply IH. lia.
    + destruct fuel as [| fuel]; simpl; rewrite Hc; [reflexivity |].
      rewrite Hb. apply IH. lia.
Qed.

Lemma photon_run_exists (maxN Ntot : Z) (g : Q) (photon_ops : list PhotonOp) :
  (0 < maxN)%Z ->
  (forall rng : Rng, exists r, shoot maxN rng = Ok r) ->
  forall (n : nat) (s : loop_state PhotonArray Rng Img),
    (Z.to_nat (s_Nleft s) <= n)%nat ->
    exists tr s',
      loop_run (_body_fun maxN Ntot g photon_ops) s tr s'
      /\ length tr = Z.to_nat ((Z.max 0 (s_Nleft s) + maxN - 1) / maxN)
      /\ (s_Nleft s' = Z.min 0 (s_Nleft s))%Z
      /\ Forall (fun t => (0 < thisN_of maxN t <= maxN)%Z) tr
      /\ Zsum (map (thisN_of maxN) tr) = Z.max 0 (s_Nleft s).
Proof.
  intros Hm Hs. induction n as [| n IH]; intros s Hn.
  - exists [], s. assert (Hz : (s_Nleft s <= 0)%Z) by lia.
    split; [apply run_done; unfold _cond_fun; apply Z.ltb_ge; exact Hz |].
    rewrite Z.max_l, Z.min_r by lia. simpl.
    rewrite (Z.div_small (maxN - 1) maxN) by lia.
    repeat split; constructor.
  - destruct (Z.le_gt_cases (s_Nleft s) 0) as [Hz | Hp].
    + exists [], s.
      split; [apply run_done; unfold _cond_fun; apply Z.ltb_ge; exact Hz |].
      rewrite Z.max_l, Z.min_r by lia. simpl.
      rewrite (Z.div_small (maxN - 1) maxN) by lia.
      repeat split; constructor.
    + destruct (_body_fun_returns maxN Ntot g photon_ops s Hs) as [s1 Hb].
      pose proof (_body_fun_Nleft _ _ _ _ _ Hb) as E. unfold thisN_of in E.
      destruct (IH s1) as (tr & s' & Hr & Hl & Hf & Hk & Hsum); [lia |].
      exists (s :: tr), s'.
      assert (E1 : Z.max 0 (s_Nleft s1)
                   = (s_Nleft s - Z.min maxN (s_Nleft s))%Z) by lia.
      split; [apply run_step with s1;
              [unfold _cond_fun; apply Z.ltb_lt; exact Hp | exact Hb | exact Hr]
             |].
      rewrite (Z.max_r 0 (s_Nleft s)) by lia.
      split; [| split; [| split]].
      * simpl. rewrite Hl, E1. symmetry. apply chunks_count; lia.
      * rewrite Hf. lia.
      * constructor; [unfold thisN_of; lia | exact Hk].
      * simpl. rewrite Hsum. unfold thisN_of. lia.
Qed.


(** X17.  A capacity of zero (or less) with photons to shoot never ends: no
    iteration keeps a photon, [Nleft] stays where it is, and the loop returns
    for no number of iterations.  [drawPhot] reaches this with [maxN=0] when
    no array size is set, and with an array size of 0 beside any [maxN]. *)
Theorem photon_loop_diverges (photons : PhotonArray) (rng : Rng) (image : Img)
        (g : Q) (Ntot maxN : Z) (photon_ops : list PhotonOp) :
  (maxN <= 0)%Z ->
  (0 < Ntot)%Z ->
  (forall rng : Rng, exists r, shoot maxN rng = Ok r) ->
  (forall fuel : nat,
     _draw_phot_while_loop fuel photons rng image g Ntot maxN photon_ops = None)
  /\ drawPhot_maxN (Some 0%Z) None = Some 0%Z
  /\ (forall m : Z, (0 <= m)%Z -> drawPhot_maxN (Some m) (Some 0%Z) = Some 0%Z).
Proof.
  intros Hm Hn Hs. split; [| split].
  - intros fuel. unfold _draw_phot_while_loop.
    assert (W : forall (s : loop_state PhotonArray Rng Img),
               (0 < s_Nleft s)%Z ->
               while_loop fuel _cond_fun (_body_fun maxN Ntot g photon_ops) s
               = None).
    { induction fuel as [| fuel IH]; intros s Hp; simpl;
        (assert (Hc : _cond_fun s = true)
          by (unfold _cond_fun; apply Z.ltb_lt; exact Hp));
        rewrite Hc; [reflexivity |].
      destruct (_body_fun_returns maxN Ntot g photon_ops s Hs) as [s1 Hb].
      rewrite Hb. apply IH.
      rewrite (_body_fun_Nleft _ _ _ _ _ Hb). unfold thisN_of. lia. }
    rewrite W by exact Hn. reflexivity.
  - reflexivity.
  - intros m H0. unfold drawPhot_maxN. rewrite Z.min_r by lia. reflexivity.
Qed.

End PhotonRunFacts.

(** ** Images: pixels read and written *)

Lemma wrap_index_nonneg (n i : Z) : (0 <= i)%Z -> wrap_index n i = i.
Proof.
  intros H. unfold wrap_index.
  destruct (Z.ltb_spec i 0); [lia | reflexivity].
Qed.

Lemma clamp_index_in (n i : Z) : (0 <= i < n)%Z -> clamp_index n i = Z.to_nat i.
Proof.
  intros H. unfold clamp_index. rewrite wrap_index_nonneg by lia.
  f_equal. lia.
Qed.

Lemma clip_index_in (n i : Z) : (0 <= i <= n)%Z -> clip_index n i = Z.to_nat i.
Proof.
  intros H. unfold clip_index. rewrite wrap_index_nonneg by lia.
  f_equal. lia.
Qed.

Lemma update_at_in {A : Type} (l : list A) (i : Z) (f : A -> A) (d : A) :
  (0 <= i < Z.of_nat (length l))%Z ->
  update_at l i f
  = firstn (Z.to_nat i) l ++ [f (nth (Z.to_nat i) l d)]
    ++ skipn (S (Z.to_nat i)) l.
Proof.
  intros H. unfold update_at. rewrite wrap_index_nonneg by lia.
  assert (B : ((0 <=? i) && (i <? Z.of_nat (length l)))%Z = true).
  { apply andb_true_iff. split; [apply Z.leb_le | apply Z.ltb_lt]; lia. }
  rewrite B.
  assert (L : (Z.to_nat i < length l)%nat) by lia.
  destruct (nth_error l (Z.to_nat i)) as [a |] eqn:E.
  - rewrite (nth_error_nth _ _ d E). reflexivity.
  - apply nth_error_None in E. lia.
Qed.

Lemma update_at_length {A : Type} (l : list A) (i : Z) (f : A -> A) :
  length (update_at l i f) = length l.
Proof.
  unfold update_at.
  set (n := Z.of_nat (length l)). set (i' := wrap_index n i).
  destruct ((0 <=? i') && (i' <? n))%Z eqn:B; [| reflexivity].
  apply andb_true_iff in B. destruct B as [B1 B2].
  apply Z.leb_le in B1. apply Z.ltb_lt in B2.
  assert (L : (Z.to_nat i' < length l)%nat) by (subst n; lia).
  destruct (nth_error l (Z.to_nat i')) as [a |] eqn:E.
  - rewrite !length_app, length_firstn, length_skipn. simpl. lia.
  - apply nth_error_None in E. lia.
Qed.

Lemma nth_update_at {A : Type} (l : list A) (i : Z) (f : A -> A) (d : A)
      (j : nat) :
  (0 <= i < Z.of_nat (length l))%Z ->
  nth j (update_at l i f) d
  = if Nat.eqb j (Z.to_nat i) then f (nth j l d) else nth j l d.
Proof.
  intros H. rewrite (update_at_in l f d H).
  assert (L : (Z.to_nat i < length l)%nat) by lia.
  set (k := Z.to_nat i) in *.
  assert (Lf : length (firstn k l) = k) by (rewrite length_firstn; lia).
  destruct (Nat.eqb_spec j k) as [-> | Hne].
  - rewrite app_nth2 by lia. rewrite Lf, Nat.sub_diag. reflexivity.
  - destruct (Nat.lt_ge_cases j k) as [Hlt | Hge].
    + rewrite app_nth1 by lia. rewrite nth_firstn.
      destruct (Nat.ltb_spec j k); [reflexivity | lia].
    + rewrite app_nth2 by lia. rewrite Lf.
      destruct (j - k)%nat as [| m] eqn:Em; [lia |].
      change ([f (nth k l d)] ++ skipn (S k) l)
        with (f (nth k l d) :: skipn (S k) l).
      cbn [nth]. rewrite nth_skipn. f_equal. lia.
Qed.

Lemma Forall_firstn_skipn {A : Type} (Q0 : A -> Prop) (n : nat) (l : list A) :
  Forall Q0 l -> Forall Q0 (firstn n l) /\ Forall Q0 (skipn n l).
Proof.
  revert l. induction n as [| n IH]; intros l H.
  - split; [constructor | exact H].
  - destruct l as [| a l]; [split; constructor |].
    inversion H as [| ? ? Ha Hl]; subst.
    destruct (IH l Hl) as [F1 F2].
    split; [constructor; assumption | exact F2].
Qed.

Lemma Forall_update_at {A : Type} (Q0 : A -> Prop) (l : list A) (i : Z)
      (f : A -> A) :
  Forall Q0 l -> (forall a, Q0 a -> Q0 (f a)) -> Forall Q0 (update_at l i f).
Proof.
  intros Hl Hf. unfold update_at.
  destruct (_ && _)%bool; [| exact Hl].
  apply Forall_app. split; [apply Forall_firstn_skipn; exact Hl |].
  apply Forall_app. split; [| apply Forall_firstn_skipn; exact Hl].
  destruct (nth_error l _) as [a |] eqn:E; [| constructor].
  constructor; [| constructor]. apply Hf.
  apply nth_error_In in E. rewrite Forall_forall in Hl. auto.
Qed.

Section PixelFacts.

Variables V WCS : Type.
Context `{PO : PixelOps V} `{WO : WcsOps WCS}.

Lemma includes_xy_Z (b : BoundsI) (x y : Z) :
  includes_xy b x y = true <->
  isDefined b = true
  /\ (value (xmin b) <= x <= value (xmax b))%Z
  /\ (value (ymin b) <= y <= value (ymax b))%Z.
Proof.
  unfold includes_xy. simpl. rewrite !andb_true_iff, !Z.leb_le. tauto.
Qed.

Lemma wf_row (im : Image V WCS) (k : nat) :
  Image_wf im ->
  (Z.of_nat k < value (ymax (_bounds im)) - value (ymin (_bounds im)) + 1)%Z ->
  Z.of_nat (length (nth k (arr_rows (_array im)) []))
  = (value (xmax (_bounds im)) - value (xmin (_bounds im)) + 1)%Z.
Proof.
  intros (_ & _ & _ & Hn & Hr) Hk.
  rewrite Forall_forall in Hr. apply Hr. apply nth_In. lia.
Qed.

Lemma _getValue_nth (im : Image V WCS) (x y : Z) :
  Image_wf im ->
  includes_xy (_bounds im) x y = true ->
  _getValue im x y
  = nth (Z.to_nat (x - value (xmin (_bounds im))))
        (nth (Z.to_nat (y - value (ymin (_bounds im))))
             (arr_rows (_array im)) [])
        vzero.
Proof.
  intros Hwf Hin. apply includes_xy_Z in Hin. destruct Hin as (_ & Hx & Hy).
  pose proof Hwf as (_ & _ & _ & Hn & _).
  unfold _getValue, Image_xmin, Image_ymin.
  rewrite Hn.
  rewrite (@clamp_index_in _ (y - value (ymin (_bounds im)))) by lia.
  rewrite (wf_row (Z.to_nat (y - value (ymin (_bounds im)))) Hwf) by lia.
  rewrite clamp_index_in by lia. reflexivity.
Qed.

(** Writing one pixel of a well-formed image through [f]. *)
Lemma update_pixel_spec (im : Image V WCS) (x y : Z) (f : V -> V) :
  Image_wf im ->
  includes_xy (_bounds im) x y = true ->
  Image_wf (update_pixel im x y f)
  /\ _getValue (update_pixel im x y f) x y = f (_getValue im x y)
  /\ (forall x' y', includes_xy (_bounds im) x' y' = true ->
        (x', y') <> (x, y) ->
        _getValue (update_pixel im x y f) x' y' = _getValue im x' y').
Proof.
  intros Hwf Hin. pose proof Hin as Hin0.
  apply includes_xy_Z in Hin. destruct Hin as (Hd & Hx & Hy).
  pose proof Hwf as (_ & Hox & Hoy & Hn & Hr).
  assert (W : Image_wf (update_pixel im x y f)).
  { unfold Image_wf, update_pixel, set_array, rectangular.
    cbn [_bounds _array arr_rows].
    repeat split; try assumption.
    - rewrite update_at_length. exact Hn.
    - apply Forall_update_at; [exact Hr |].
      intros row Hrow. rewrite update_at_length. exact Hrow. }
  split; [exact W |].
  assert (G : forall x' y', includes_xy (_bounds im) x' y' = true ->
            _getValue (update_pixel im x y f) x' y'
            = if Nat.eqb (Z.to_nat (y' - value (ymin (_bounds im))))
                         (Z.to_nat (y - value (ymin (_bounds im))))
                 && Nat.eqb (Z.to_nat (x' - value (xmin (_bounds im))))
                            (Z.to_nat (x - value (xmin (_bounds im))))
              then f (_getValue im x' y') else _getValue im x' y').
  { intros x' y' Hin'. rewrite (@_getValue_nth (update_pixel im x y f) x' y' W) by exact Hin'.
    rewrite (@_getValue_nth im x' y' Hwf Hin').
    apply includes_xy_Z in Hin'. destruct Hin' as (_ & Hx' & Hy').
    unfold update_pixel, set_array, Image_xmin, Image_ymin.
    cbn [_bounds _array arr_rows].
    rewrite (nth_update_at _ _ [] _) by lia.
    destruct (Nat.eqb_spec (Z.to_nat (y' - value (ymin (_bounds im))))
                           (Z.to_nat (y - value (ymin (_bounds im)))))
      as [Ey | Ny]; [| reflexivity].
    cbn [andb].
    rewrite (nth_update_at _ _ vzero _).
    - reflexivity.
    - rewrite (wf_row (Z.to_nat (y' - value (ymin (_bounds im)))) Hwf)
        by lia.
      lia. }
  split.
  - rewrite (G x y Hin0), !Nat.eqb_refl. reflexivity.
  - intros x' y' Hin' Hne. rewrite (G x' y' Hin').
    apply includes_xy_Z in Hin'. destruct Hin' as (_ & Hx' & Hy').
    destruct (Nat.eqb_spec (Z.to_nat (y' - value (ymin (_bounds im))))
                           (Z.to_nat (y - value (ymin (_bounds im)))))
      as [Ey | Ny]; [| reflexivity].
    destruct (Nat.eqb_spec (Z.to_nat (x' - value (xmin (_bounds im))))
                           (Z.to_nat (x - value (xmin (_bounds im)))))
      as [Ex | Nx]; [| reflexivity].
    exfalso. apply Hne. f_equal; lia.
Qed.



End PixelFacts.
(** ** Images: slices, sub-images and copies *)

Lemma py_slice_in {A : Type} (l : list A) (i1 i2 : Z) :
  (0 <= i1 <= i2)%Z -> (i2 <= Z.of_nat (length l))%Z ->
  py_slice l i1 i2
  = firstn (Z.to_nat (i2 - i1)) (skipn (Z.to_nat i1) l).
Proof.
  intros H1 H2. unfold py_slice. rewrite !clip_index_in by lia.
  f_equal. lia.
Qed.

Lemma py_slice_length {A : Type} (l : list A) (i1 i2 : Z) :
  (0 <= i1 <= i2)%Z -> (i2 <= Z.of_nat (length l))%Z ->
  Z.of_nat (length (py_slice l i1 i2)) = (i2 - i1)%Z.
Proof.
  intros H1 H2. rewrite py_slice_in by assumption.
  rewrite length_firstn, length_skipn. lia.
Qed.

Lemma nth_py_slice {A : Type} (l : list A) (i1 i2 : Z) (k : nat) (d : A) :
  (0 <= i1 <= i2)%Z -> (i2 <= Z.of_nat (length l))%Z ->
  (Z.of_nat k < i2 - i1)%Z ->
  nth k (py_slice l i1 i2) d = nth (Z.to_nat i1 + k) l d.
Proof.
  intros H1 H2 Hk. rewrite py_slice_in by assumption.
  rewrite nth_firstn.
  destruct (Nat.ltb_spec k (Z.to_nat (i2 - i1))); [| lia].
  apply nth_skipn.
Qed.

Lemma Forall_py_slice {A : Type} (Q0 : A -> Prop) (l : list A) (i1 i2 : Z) :
  Forall Q0 l -> Forall Q0 (py_slice l i1 i2).
Proof.
  intros H. unfold py_slice. apply Forall_firstn_skipn.
  apply Forall_firstn_skipn. exact H.
Qed.

Lemma nth_map_in {A B : Type} (f : A -> B) (l : list A) (k : nat) (d : A)
      (e : B) :
  (k < length l)%nat -> nth k (map f l) e = f (nth k l d).
Proof.
  intros H. rewrite (nth_indep (map f l) e (f d)) by (rewrite length_map; lia).
  apply map_nth.
Qed.

Section SubImageFacts.

Variables V WCS : Type.
Context `{PO : PixelOps V} `{WO : WcsOps WCS}.

Lemma wf_astype (a : ndarray V) (d : DType) (nrow ncol : Z) :
  rectangular a nrow ncol -> rectangular (astype a d) nrow ncol.
Proof.
  intros [Hn Hr]. unfold rectangular, astype. cbn [arr_rows].
  rewrite length_map. split; [exact Hn |].
  apply Forall_forall. intros row Hin. apply in_map_iff in Hin.
  destruct Hin as (row0 & <- & Hin0). rewrite length_map.
  rewrite Forall_forall in Hr. auto.
Qed.

Lemma rectangular_shape (a : ndarray V) (nrow ncol : Z) :
  (0 < nrow)%Z -> rectangular a nrow ncol -> shape a = (nrow, ncol).
Proof.
  intros Hp [Hn Hr]. unfold shape. rewrite Hn. f_equal.
  destruct (arr_rows a) as [| r rs]; [simpl in Hn; lia |].
  inversion Hr; subst. reflexivity.
Qed.

(** [Image(array, bounds=b, wcs=w)] on defined bounds of the shape of the
    array: the array is converted to the element type [_alias_dtypes] gives
    for its own. *)
Lemma Image_init_array_alias (a : ndarray V) (b : BoundsI) (w : option WCS) :
  isDefined b = true ->
  (value (xmin b) <= value (xmax b))%Z ->
  (value (ymin b) <= value (ymax b))%Z ->
  shape a = numpyShape b ->
  exists r d,
    Image_init (ImgArray a) (with_bounds_wcs b w) = Ok r
    /\ _alias_dtypes (arr_dtype a) = Some d
    /\ _array r = astype a d
    /\ _dtype r = d
    /\ isDefined (_bounds r) = true
    /\ Bounds_eqb (_bounds r) b = true
    /\ value (xmin (_bounds r)) = value (xmin b)
    /\ value (xmax (_bounds r)) = value (xmax b)
    /\ value (ymin (_bounds r)) = value (ymin b)
    /\ value (ymax (_bounds r)) = value (ymax b)
    /\ wcs r = w
    /\ _is_const r = false.
Proof.
  intros Hd Hx Hy Hs. unfold Image_init, with_bounds_wcs, _get_xmin_ymin.
  cbn [kw_xmin kw_ymin kw_bounds kw_dtype kw_init_value kw_scale kw_wcs
       kw_make_const].
  rewrite Hd. unfold numpyShape in Hs. rewrite Hd in Hs. rewrite Hs.
  cbn [fst snd]. rewrite !Z.eqb_refl. cbn [negb rbind].
  destruct (alias_is_valid (arr_dtype a)) as (d & Ha & _). rewrite Ha.
  cbn [rbind]. rewrite shape_astype, Hs. cbn [fst snd].
  unfold BoundsI_init, Bounds_init, _parse_args, check_valid,
    simple_and_invalid.
  cbn [xmin xmax ymin ymax _isdefined].
  assert (Gx : gt (xmin b)
                  (scalar_add (xmin b)
                     (value (xmax b) - value (xmin b) + 1 - 1)) = false).
  { unfold gt. destruct (xmin b); simpl in *; apply Z.ltb_ge; lia. }
  assert (Gy : gt (ymin b)
                  (scalar_add (ymin b)
                     (value (ymax b) - value (ymin b) + 1 - 1)) = false).
  { unfold gt. destruct (ymin b); simpl in *; apply Z.ltb_ge; lia. }
  rewrite Gx, Gy. rewrite !andb_false_r.
  cbn [rbind init_wcs xmin xmax ymin ymax _isdefined].
  eexists. exists d. split; [reflexivity |].
  assert (Vx : value (scalar_add (xmin b)
                        (value (xmax b) - value (xmin b) + 1 - 1))
               = value (xmax b)).
  { destruct (xmin b); simpl; lia. }
  assert (Vy : value (scalar_add (ymin b)
                        (value (ymax b) - value (ymin b) + 1 - 1))
               = value (ymax b)).
  { destruct (ymin b); simpl; lia. }
  unfold Bounds_eqb, isDefined.
  cbn [_bounds wcs _is_const _array _dtype xmin xmax ymin ymax _isdefined
       c_cast Coord_Z cast_to_int value c_eqb arr_dtype astype].
  unfold isDefined in Hd. rewrite Hd, Vx, Vy, !Z.eqb_refl.
  repeat split.
Qed.

(** The rows [i1:i2] and columns [j1:j2] of a rectangular array. *)
Lemma rectangular_slice (a : ndarray V) (nrow ncol i1 i2 j1 j2 : Z) :
  rectangular a nrow ncol ->
  (0 <= i1 <= i2)%Z -> (i2 <= nrow)%Z ->
  (0 <= j1 <= j2)%Z -> (j2 <= ncol)%Z ->
  rectangular
    (mkArray (arr_dtype a)
       (map (fun row => py_slice row j1 j2) (py_slice (arr_rows a) i1 i2)))
    (i2 - i1) (j2 - j1).
Proof.
  intros [Hn Hr] Hi1 Hi2 Hj1 Hj2. unfold rectangular. cbn [arr_rows].
  rewrite length_map, py_slice_length by lia. split; [reflexivity |].
  apply Forall_forall. intros row Hin. apply in_map_iff in Hin.
  destruct Hin as (row0 & <- & Hin0).
  assert (L : Z.of_nat (length row0) = ncol).
  { pose proof (Forall_py_slice i1 i2 Hr) as F.
    rewrite Forall_forall in F. apply F. exact Hin0. }
  apply py_slice_length; lia.
Qed.

Lemma includes_Z (B b : BoundsI) :
  includes B b = true <->
  isDefined B = true /\ isDefined b = true
  /\ (value (xmin B) <= value (xmin b))%Z /\ (value (xmax b) <= value (xmax B))%Z
  /\ (value (ymin B) <= value (ymin b))%Z /\ (value (ymax b) <= value (ymax B))%Z.
Proof.
  unfold includes. simpl. rewrite !andb_true_iff, !Z.leb_le. tauto.
Qed.

(** The pixel of the window [i1:i2, j1:j2] of a rectangular array, converted
    as [astype] does. *)
Lemma nth_window (rows : list (list V)) (d : DType) (nrow ncol i1 i2 j1 j2 : Z)
      (k c : nat) :
  Z.of_nat (length rows) = nrow ->
  Forall (fun row => Z.of_nat (length row) = ncol) rows ->
  (0 <= i1 <= i2)%Z -> (i2 <= nrow)%Z ->
  (0 <= j1 <= j2)%Z -> (j2 <= ncol)%Z ->
  (Z.of_nat k < i2 - i1)%Z -> (Z.of_nat c < j2 - j1)%Z ->
  nth c (nth k (map (map (convert d))
                  (map (fun row => py_slice row j1 j2) (py_slice rows i1 i2)))
             []) vzero
  = convert d (nth (Z.to_nat j1 + c) (nth (Z.to_nat i1 + k) rows []) vzero).
Proof.
  intros Hn Hr Hi1 Hi2 Hj1 Hj2 Hk Hc.
  assert (Lk : (k < length (py_slice rows i1 i2))%nat).
  { pose proof (@py_slice_length _ rows i1 i2) as L. lia. }
  rewrite map_map.
  rewrite (@nth_map_in _ _ (fun row => map (convert d) (py_slice row j1 j2))
             (py_slice rows i1 i2) k [] []) by exact Lk.
  rewrite (@nth_py_slice _ rows i1 i2 k []) by lia.
  set (row := nth (Z.to_nat i1 + k) rows []).
  assert (Lrow : Z.of_nat (length row) = ncol).
  { rewrite Forall_forall in Hr. apply Hr. apply nth_In. lia. }
  assert (Lc : (c < length (py_slice row j1 j2))%nat).
  { pose proof (@py_slice_length _ row j1 j2) as L. lia. }
  rewrite (@nth_map_in _ _ (convert d) (py_slice row j1 j2) c vzero vzero)
    by exact Lc.
  rewrite (@nth_py_slice _ row j1 j2 c vzero) by lia.
  reflexivity.
Qed.



End SubImageFacts.
(** ** Images: construction, resizing and filling *)

Lemma nth_repeat_in {A : Type} (a d : A) (n k : nat) :
  (k < n)%nat -> nth k (repeat a n) d = a.
Proof.
  revert k. induction n as [| n IH]; intros k H; [lia |].
  destruct k as [| k]; simpl; [reflexivity |]. apply IH. lia.
Qed.

Section FreshImageFacts.

Variables V WCS : Type.
Context `{PO : PixelOps V} `{WO : WcsOps WCS}.

(** The pixels of an image whose rows are those of a well-formed image mapped
    through [g]. *)
Lemma _getValue_map (im im' : Image V WCS) (g : V -> V) (x y : Z) :
  Image_wf im ->
  includes_xy (_bounds im) x y = true ->
  _bounds im' = _bounds im ->
  arr_rows (_array im') = map (map g) (arr_rows (_array im)) ->
  Image_wf im' /\ _getValue im' x y = g (_getValue im x y).
Proof.
  intros Hwf Hin Hb Hr. pose proof Hwf as (Hd & Hox & Hoy & Hn & Hrows).
  assert (W : Image_wf im').
  { unfold Image_wf, rectangular. rewrite Hb, Hr, length_map.
    repeat split; try assumption.
    apply Forall_forall. intros row Hi. apply in_map_iff in Hi.
    destruct Hi as (row0 & <- & Hi0). rewrite length_map.
    rewrite Forall_forall in Hrows. auto. }
  split; [exact W |].
  assert (Hin' : includes_xy (_bounds im') x y = true)
    by (rewrite Hb; exact Hin).
  rewrite (@_getValue_nth V WCS PO im' x y W Hin').
  rewrite (@_getValue_nth V WCS PO im x y Hwf Hin).
  rewrite Hb, Hr.
  apply includes_xy_Z in Hin. destruct Hin as (_ & Hx & Hy).
  rewrite (@nth_map_in _ _ (map g) (arr_rows (_array im)) _ [] []) by lia.
  apply nth_map_in.
  assert (L : Z.of_nat (length (nth (Z.to_nat (y - value (ymin (_bounds im))))
                                    (arr_rows (_array im)) []))
              = (value (xmax (_bounds im)) - value (xmin (_bounds im)) + 1)%Z).
  { rewrite Forall_forall in Hrows. apply Hrows. apply nth_In. lia. }
  lia.
Qed.

(** [_make_empty] on a shape with pixels: rows of zeros of the element
    type. *)
Lemma _make_empty_zeros (nrow ncol : Z) (d : DType) :
  (0 < nrow)%Z -> (0 < ncol)%Z ->
  _make_empty (nrow, ncol) d
  = Ok (mkArray d (repeat (repeat (convert d vzero) (Z.to_nat ncol))
                          (Z.to_nat nrow))).
Proof.
  intros Hr Hc. unfold _make_empty, jnp_zeros. cbn [fst snd].
  destruct (Z.eqb_spec (nrow * ncol) 0) as [E | _]; [nia |].
  destruct (Z.ltb_spec nrow 0); [lia |].
  destruct (Z.ltb_spec ncol 0); [lia |]. reflexivity.
Qed.

Lemma zeros_wf (b : BoundsI) (a : ndarray V) (w : option WCS) (d dt : DType)
      (c : bool) (z : V) :
  isDefined b = true ->
  (value (xmin b) <= value (xmax b))%Z ->
  (value (ymin b) <= value (ymax b))%Z ->
  arr_rows a
  = repeat (repeat z (Z.to_nat (value (xmax b) - value (xmin b) + 1)))
           (Z.to_nat (value (ymax b) - value (ymin b) + 1)) ->
  Image_wf (mkImage a b w dt c)
  /\ forall x y, includes_xy b x y = true ->
       getValue (mkImage a b w dt c) x y = Ok z.
Proof.
  intros Hd Hx Hy Hr.
  assert (W : Image_wf (mkImage a b w dt c)).
  { unfold Image_wf, rectangular. cbn [_bounds _array]. rewrite Hr.
    rewrite repeat_length. repeat split; try assumption; try lia.
    apply Forall_forall. intros row Hi. apply repeat_spec in Hi. subst row.
    rewrite repeat_length. lia. }
  split; [exact W |]. intros x y Hin. unfold getValue. cbn [_bounds].
  rewrite Hd, Hin. cbn [negb]. f_equal.
  rewrite (@_getValue_nth V WCS PO _ x y W Hin). cbn [_bounds _array].
  rewrite Hr. apply includes_xy_Z in Hin. destruct Hin as (_ & Hx' & Hy').
  rewrite (nth_repeat_in _ [] (n := Z.to_nat (value (ymax b) - value (ymin b) + 1)))
    by lia.
  apply nth_repeat_in. lia.
Qed.




End FreshImageFacts.
(** ** Images: writing a block, copying from another image *)

Lemma length_splice {A : Type} (l mid : list A) (a b : nat) :
  (a <= b <= length l)%nat -> length mid = (b - a)%nat ->
  length (firstn a l ++ mid ++ skipn b l) = length l.
Proof.
  intros H Hm. rewrite !length_app, length_firstn, length_skipn, Hm. lia.
Qed.

Lemma nth_splice {A : Type} (l mid : list A) (a b k : nat) (d : A) :
  (a <= b <= length l)%nat -> length mid = (b - a)%nat ->
  nth k (firstn a l ++ mid ++ skipn b l) d
  = if (k <? a)%nat then nth k l d
    else if (k <? b)%nat then nth (k - a) mid d else nth k l d.
Proof.
  intros H Hm.
  assert (La : length (firstn a l) = a) by (rewrite length_firstn; lia).
  destruct (Nat.ltb_spec k a) as [Ha | Ha].
  - rewrite app_nth1 by lia. rewrite nth_firstn.
    destruct (Nat.ltb_spec k a); [reflexivity | lia].
  - rewrite app_nth2 by lia. rewrite La.
    destruct (Nat.ltb_spec k b) as [Hb | Hb].
    + rewrite app_nth1 by lia. reflexivity.
    + rewrite app_nth2 by lia. rewrite Hm, nth_skipn. f_equal. lia.
Qed.

Lemma nth_map2_in {A B D : Type} (f : A -> B -> D) (l : list A) (m : list B)
      (k : nat) (da : A) (db : B) (d : D) :
  (k < length l)%nat -> (k < length m)%nat ->
  nth k (map2 f l m) d = f (nth k l da) (nth k m db).
Proof.
  revert m k. induction l as [| a l IH]; intros [| b m] k Hl Hm;
    simpl in *; try lia.
  destruct k as [| k]; [reflexivity |]. apply IH; lia.
Qed.

Lemma length_map2_min {A B D : Type} (f : A -> B -> D) (l : list A)
      (m : list B) :
  length (map2 f l m) = Nat.min (length l) (length m).
Proof.
  revert m. induction l as [| a l IH]; intros [| b m]; simpl; try reflexivity.
  rewrite IH. reflexivity.
Qed.

Section BlockFacts.

Variables V WCS : Type.
Context `{PO : PixelOps V} `{WO : WcsOps WCS}.

Lemma put_row_spec (d : DType) (j1 j2 : Z) (row new : list V) :
  (0 <= j1 <= j2)%Z -> (j2 <= Z.of_nat (length row))%Z ->
  Z.of_nat (length new) = (j2 - j1)%Z ->
  length (put_row d j1 j2 row new) = length row
  /\ forall c : nat,
       (c < length row)%nat ->
       nth c (put_row d j1 j2 row new) vzero
       = if ((Z.to_nat j1 <=? c) && (c <? Z.to_nat j2))%nat
         then convert d (nth (c - Z.to_nat j1) new vzero)
         else nth c row vzero.
Proof.
  intros H1 H2 Hn. unfold put_row. rewrite !clip_index_in by lia.
  assert (Lm : length (map (convert d)
                         (firstn (Z.to_nat j2 - Z.to_nat j1) new))
               = (Z.to_nat j2 - Z.to_nat j1)%nat).
  { rewrite length_map, length_firstn. lia. }
  split; [apply length_splice; [lia | exact Lm] |].
  intros c Hc. rewrite nth_splice by (try exact Lm; lia).
  destruct (Nat.ltb_spec c (Z.to_nat j1)) as [A | A].
  - destruct (Nat.leb_spec (Z.to_nat j1) c); [lia | reflexivity].
  - destruct (Nat.leb_spec (Z.to_nat j1) c); [| lia]. cbn [andb].
    destruct (Nat.ltb_spec c (Z.to_nat j2)) as [B | B]; [| reflexivity].
    rewrite (@nth_map_in _ _ (convert d) _ _ vzero vzero)
      by (rewrite length_firstn; lia).
    rewrite nth_firstn.
    destruct (Nat.ltb_spec (c - Z.to_nat j1) (Z.to_nat j2 - Z.to_nat j1));
      [reflexivity | lia].
Qed.

(** [a.at[i1:i2, j1:j2].set(rhs)] on rectangular arrays: the size stays, the
    window holds the values of [rhs] converted to the element type of [a],
    the rest is untouched. *)
Lemma set_block_spec (a rhs : ndarray V) (nrow ncol i1 i2 j1 j2 : Z) :
  rectangular a nrow ncol ->
  rectangular rhs (i2 - i1) (j2 - j1) ->
  (0 <= i1 <= i2)%Z -> (i2 <= nrow)%Z ->
  (0 <= j1 <= j2)%Z -> (j2 <= ncol)%Z ->
  rectangular (set_block a i1 i2 j1 j2 rhs) nrow ncol
  /\ forall k c : nat,
       (Z.of_nat k < nrow)%Z -> (Z.of_nat c < ncol)%Z ->
       nth c (nth k (arr_rows (set_block a i1 i2 j1 j2 rhs)) []) vzero
       = if ((Z.to_nat i1 <=? k) && (k <? Z.to_nat i2)
             && (Z.to_nat j1 <=? c) && (c <? Z.to_nat j2))%nat
         then convert (arr_dtype a)
                (nth (c - Z.to_nat j1)
                     (nth (k - Z.to_nat i1) (arr_rows rhs) []) vzero)
         else nth c (nth k (arr_rows a) []) vzero.
Proof.
  intros [Hn Hr] [Hn2 Hr2] Hi1 Hi2 Hj1 Hj2.
  unfold rectangular, set_block. cbn [arr_rows].
  change (fun row new : list V =>
            firstn (clip_index (Z.of_nat (length row)) j1) row
            ++ map (convert (arr_dtype a))
                 (firstn (clip_index (Z.of_nat (length row)) j2
                          - clip_index (Z.of_nat (length row)) j1) new)
            ++ skipn (clip_index (Z.of_nat (length row)) j2) row)
    with (put_row (arr_dtype a) j1 j2).
  rewrite !clip_index_in by lia.
  set (r1 := Z.to_nat i1). set (r2 := Z.to_nat i2).
  set (mid := map2 (put_row (arr_dtype a) j1 j2)
                (firstn (r2 - r1) (skipn r1 (arr_rows a))) (arr_rows rhs)).
  assert (Lm : length mid = (r2 - r1)%nat).
  { subst mid. rewrite length_map2_min, length_firstn, length_skipn.
    subst r1 r2. lia. }
  assert (Row : forall k : nat, (Z.of_nat k < nrow)%Z ->
            Z.of_nat (length (nth k (arr_rows a) [])) = ncol).
  { intros k Hk. rewrite Forall_forall in Hr. apply Hr. apply nth_In. lia. }
  assert (Row2 : forall k : nat, (Z.of_nat k < i2 - i1)%Z ->
            Z.of_nat (length (nth k (arr_rows rhs) [])) = (j2 - j1)%Z).
  { intros k Hk. rewrite Forall_forall in Hr2. apply Hr2. apply nth_In. lia. }
  assert (Mid : forall k : nat, (r1 <= k < r2)%nat ->
            nth (k - r1) mid []
            = put_row (arr_dtype a) j1 j2 (nth k (arr_rows a) [])
                (nth (k - r1) (arr_rows rhs) [])).
  { intros k Hk. subst mid.
    rewrite (@nth_map2_in _ _ _ _ _ _ (k - r1) [] [] [])
      by (try rewrite length_firstn, length_skipn; subst r1 r2; lia).
    rewrite nth_firstn.
    destruct (Nat.ltb_spec (k - r1) (r2 - r1)); [| lia].
    rewrite nth_skipn. do 2 f_equal. lia. }
  assert (N : forall k : nat, (Z.of_nat k < nrow)%Z ->
            nth k (firstn r1 (arr_rows a) ++ mid ++ skipn r2 (arr_rows a)) []
            = if ((r1 <=? k) && (k <? r2))%nat
              then put_row (arr_dtype a) j1 j2 (nth k (arr_rows a) [])
                     (nth (k - r1) (arr_rows rhs) [])
              else nth k (arr_rows a) []).
  { intros k Hk. rewrite nth_splice by (try exact Lm; subst r1 r2; lia).
    destruct (Nat.ltb_spec k r1) as [A | A].
    - destruct (Nat.leb_spec r1 k); [lia | reflexivity].
    - destruct (Nat.leb_spec r1 k); [| lia]. cbn [andb].
      destruct (Nat.ltb_spec k r2) as [B | B]; [| reflexivity].
      apply Mid. lia. }
  split.
  - split.
    + rewrite length_splice by (try exact Lm; subst r1 r2; lia). exact Hn.
    + apply Forall_nth. intros k d0 Hk.
      rewrite length_splice in Hk by (try exact Lm; subst r1 r2; lia).
      rewrite (nth_indep _ d0 []) 
        by (rewrite length_splice by (try exact Lm; subst r1 r2; lia); exact Hk).
      rewrite N by lia.
      destruct ((r1 <=? k) && (k <? r2))%nat eqn:Ek; [| apply Row; lia].
      apply andb_true_iff in Ek. destruct Ek as [E1 E2].
      apply Nat.leb_le in E1. apply Nat.ltb_lt in E2.
      destruct (@put_row_spec (arr_dtype a) j1 j2 (nth k (arr_rows a) [])
                  (nth (k - r1) (arr_rows rhs) [])) as [L _].
      * exact Hj1.
      * rewrite Row by lia. exact Hj2.
      * apply Row2. subst r1 r2. lia.
      * rewrite L. apply Row. lia.
  - intros k c Hk Hc. rewrite N by exact Hk.
    destruct (Nat.leb_spec r1 k) as [A | A]; cbn [andb]; [| reflexivity].
    destruct (Nat.ltb_spec k r2) as [B | B]; cbn [andb]; [| reflexivity].
    destruct (@put_row_spec (arr_dtype a) j1 j2 (nth k (arr_rows a) [])
                (nth (k - r1) (arr_rows rhs) [])) as [_ G].
    + exact Hj1.
    + rewrite Row by lia. exact Hj2.
    + apply Row2. subst r1 r2. lia.
    + rewrite G by (pose proof (Row k Hk); lia). reflexivity.
Qed.



End BlockFacts.
(** ** Images: arithmetic, pixel by pixel *)

Section ArithmeticFacts.

Variables V WCS : Type.
Context `{PO : PixelOps V} `{WO : WcsOps WCS}.

Lemma arr_binop_spec (op : V -> V -> V) (a b : ndarray V) (nrow ncol : Z) :
  rectangular a nrow ncol -> rectangular b nrow ncol ->
  rectangular (arr_binop op a b) nrow ncol
  /\ forall k c : nat,
       (Z.of_nat k < nrow)%Z -> (Z.of_nat c < ncol)%Z ->
       nth c (nth k (arr_rows (arr_binop op a b)) []) vzero
       = op (nth c (nth k (arr_rows a) []) vzero)
            (nth c (nth k (arr_rows b) []) vzero).
Proof.
  intros [Ha Hra] [Hb Hrb]. unfold rectangular, arr_binop. cbn [arr_rows].
  assert (Row : forall k : nat, (Z.of_nat k < nrow)%Z ->
            Z.of_nat (length (nth k (arr_rows a) [])) = ncol
            /\ Z.of_nat (length (nth k (arr_rows b) [])) = ncol).
  { intros k Hk. rewrite Forall_forall in Hra, Hrb.
    split; [apply Hra | apply Hrb]; apply nth_In; lia. }
  assert (N : forall k : nat, (Z.of_nat k < nrow)%Z ->
            nth k (map2 (map2 op) (arr_rows a) (arr_rows b)) []
            = map2 op (nth k (arr_rows a) []) (nth k (arr_rows b) [])).
  { intros k Hk. apply nth_map2_in; lia. }
  split; [split |].
  - rewrite length_map2_min. lia.
  - apply Forall_nth. intros k d0 Hk. rewrite length_map2_min in Hk.
    rewrite (nth_indep _ d0 []) by (rewrite length_map2_min; exact Hk).
    rewrite N by lia. rewrite length_map2_min.
    destruct (Row k) as [R1 R2]; lia.
  - intros k c Hk Hc. rewrite N by exact Hk.
    destruct (Row k Hk) as [R1 R2]. apply nth_map2_in; lia.
Qed.

(** The image built by a binary operator from the array [op(a1, a2)]. *)
Lemma binop_image_pixels (op : V -> V -> V) (im1 im2 : Image V WCS) :
  Image_wf im1 -> Image_wf im2 ->
  numpyShape (_bounds im1) = numpyShape (_bounds im2) ->
  exists r d,
    Image_init (ImgArray (arr_binop op (_array im1) (_array im2)))
      (with_bounds_wcs (_bounds im1) (wcs im1)) = Ok r
    /\ _alias_dtypes (result_type (arr_dtype (_array im1))
                                  (arr_dtype (_array im2))) = Some d
    /\ Image_wf r
    /\ _dtype r = d
    /\ Bounds_eqb (_bounds r) (_bounds im1) = true
    /\ wcs r = wcs im1
    /\ (forall x y, includes_xy (_bounds im1) x y = true ->
          getValue r x y
          = Ok (convert d
                  (op (_getValue im1 x y)
                      (_getValue im2
                         (x - value (xmin (_bounds im1))
                          + value (xmin (_bounds im2)))%Z
                         (y - value (ymin (_bounds im1))
                          + value (ymin (_bounds im2)))%Z)))).
Proof.
  intros Hw1 Hw2 Hsh.
  pose proof Hw1 as (Hd1 & Hx1 & Hy1 & Hr1).
  pose proof Hw2 as (Hd2 & Hx2 & Hy2 & Hr2).
  assert (Hsh' : (value (ymax (_bounds im1)) - value (ymin (_bounds im1))
                  = value (ymax (_bounds im2)) - value (ymin (_bounds im2))
                  /\ value (xmax (_bounds im1)) - value (xmin (_bounds im1))
                     = value (xmax (_bounds im2))
                       - value (xmin (_bounds im2)))%Z).
  { unfold numpyShape in Hsh. rewrite Hd1, Hd2 in Hsh.
    injection Hsh as H1 H2. lia. }
  destruct Hsh' as [Sy Sx].
  assert (Hr2' : rectangular (_array im2)
                   (value (ymax (_bounds im1)) - value (ymin (_bounds im1)) + 1)
                   (value (xmax (_bounds im1)) - value (xmin (_bounds im1)) + 1)).
  { rewrite Sy, Sx. exact Hr2. }
  destruct (@arr_binop_spec op (_array im1) (_array im2) _ _ Hr1 Hr2')
    as [R G].
  assert (Hs : shape (arr_binop op (_array im1) (_array im2))
               = numpyShape (_bounds im1)).
  { rewrite (fun H => @rectangular_shape V _ _ _ H R) by lia.
    unfold numpyShape. rewrite Hd1. reflexivity. }
  destruct (@Image_init_array_alias V WCS PO WO
              (arr_binop op (_array im1) (_array im2)) (_bounds im1) (wcs im1)
              Hd1 Hx1 Hy1 Hs)
    as (r & d & E & Ha & Harr & Hdt & Hdr & Heq & X1 & X2 & Y1 & Y2 & Hw & Hc).
  exists r, d. split; [exact E |]. split; [exact Ha |].
  assert (W : Image_wf r).
  { unfold Image_wf. rewrite X1, X2, Y1, Y2, Harr.
    split; [exact Hdr |]. split; [exact Hx1 |]. split; [exact Hy1 |].
    apply wf_astype. exact R. }
  split; [exact W |]. split; [exact Hdt |]. split; [exact Heq |].
  split; [exact Hw |].
  intros x y Hin. pose proof Hin as Hin0.
  apply includes_xy_Z in Hin. destruct Hin as (_ & Hx & Hy).
  assert (Hr : includes_xy (_bounds r) x y = true).
  { apply includes_xy_Z. rewrite X1, X2, Y1, Y2. split; [exact Hdr |]. lia. }
  assert (Hin2 : includes_xy (_bounds im2)
                   (x - value (xmin (_bounds im1)) + value (xmin (_bounds im2)))%Z
                   (y - value (ymin (_bounds im1)) + value (ymin (_bounds im2)))%Z
                 = true).
  { apply includes_xy_Z. split; [exact Hd2 |]. lia. }
  unfold getValue. rewrite Hdr, Hr. cbn [negb]. f_equal.
  rewrite (@_getValue_nth V WCS PO r x y W Hr).
  rewrite (@_getValue_nth V WCS PO im1 x y Hw1 Hin0).
  rewrite (@_getValue_nth V WCS PO im2 _ _ Hw2 Hin2).
  rewrite Harr, X1, Y1. unfold astype. cbn [arr_rows].
  destruct R as [Rn Rr].
  rewrite (@nth_map_in _ _ (map (convert d)) _ _ [] []) by lia.
  assert (L : Z.of_nat (length
                (nth (Z.to_nat (y - value (ymin (_bounds im1))))
                     (arr_rows (arr_binop op (_array im1) (_array im2))) []))
              = (value (xmax (_bounds im1)) - value (xmin (_bounds im1)) + 1)%Z).
  { rewrite Forall_forall in Rr. apply Rr. apply nth_In. lia. }
  rewrite (@nth_map_in _ _ (convert d) _ _ vzero vzero) by lia.
  rewrite G by lia. do 2 f_equal.
  f_equal; [| f_equal]; lia.
Qed.


End ArithmeticFacts.
(** ** Images: flips *)

Section FlipFacts.

Variables V WCS : Type.
Context `{PO : PixelOps V} `{WO : WcsOps WCS}.

(** The rows of a well-formed image read backwards, in one direction or in
    both, and converted. *)
Lemma flipped_pixels (im : Image V WCS) (d : DType) (ud lr : bool)
      (rows' : list (list V)) (c : bool) (x y : Z) :
  Image_wf im ->
  includes_xy (_bounds im) x y = true ->
  rows' = (if lr then map (@rev V) else fun l => l)
            ((if ud then @rev (list V) else fun l => l)
               (arr_rows (_array im))) ->
  let r := @mkImage V WCS (astype (mkArray (arr_dtype (_array im)) rows') d)
                    (_bounds im) None d c in
  Image_wf r
  /\ getValue r x y
     = Ok (convert d
             (_getValue im
                (if lr then value (xmin (_bounds im)) + value (xmax (_bounds im))
                            - x else x)%Z
                (if ud then value (ymin (_bounds im)) + value (ymax (_bounds im))
                            - y else y)%Z)).
Proof.
  intros Hwf Hin Hrows r.
  pose proof Hwf as (Hd & Hox & Hoy & Hn & Hr).
  pose proof Hin as Hin0. apply includes_xy_Z in Hin.
  destruct Hin as (_ & Hx & Hy).
  set (nr := length (arr_rows (_array im))) in *.
  assert (Row : forall k : nat, (k < nr)%nat ->
            Z.of_nat (length (nth k (arr_rows (_array im)) []))
            = (value (xmax (_bounds im)) - value (xmin (_bounds im)) + 1)%Z).
  { intros k Hk. rewrite Forall_forall in Hr. apply Hr. apply nth_In.
    exact Hk. }
  set (k := Z.to_nat (y - value (ymin (_bounds im)))).
  set (j := Z.to_nat (x - value (xmin (_bounds im)))).
  set (k' := if ud then (nr - S k)%nat else k).
  assert (Hk' : (k' < nr)%nat) by (subst k' k nr; destruct ud; lia).
  assert (Lrows : length rows' = nr).
  { subst rows'. destruct lr, ud;
      rewrite ?length_map, ?length_rev; reflexivity. }
  assert (Nrow : nth k rows' []
                 = (if lr then @rev V else fun l => l)
                     (nth k' (arr_rows (_array im)) [])).
  { subst rows' k'. destruct lr, ud.
    - rewrite (@nth_map_in _ _ (@rev V) _ _ [] [])
        by (rewrite length_rev; subst k nr; lia).
      rewrite rev_nth by (subst k nr; lia). reflexivity.
    - apply (@nth_map_in _ _ (@rev V) _ _ [] []). subst k nr. lia.
    - apply rev_nth. subst k nr. lia.
    - reflexivity. }
  assert (Lrow : Z.of_nat (length (nth k rows' []))
                 = (value (xmax (_bounds im)) - value (xmin (_bounds im)) + 1)%Z).
  { rewrite Nrow. destruct lr; rewrite ?length_rev; apply Row; exact Hk'. }
  assert (W : Image_wf r).
  { subst r. unfold Image_wf, rectangular, astype. cbn [_bounds _array arr_rows].
    rewrite length_map, Lrows. repeat split; try assumption.
    apply Forall_forall. intros row Hi. apply in_map_iff in Hi.
    destruct Hi as (row0 & <- & Hi0). rewrite length_map.
    rewrite Forall_forall in Hr. subst rows'.
    destruct lr, ud.
    - apply in_map_iff in Hi0. destruct Hi0 as (row1 & <- & Hi1).
      rewrite length_rev. apply Hr. apply in_rev. exact Hi1.
    - apply in_map_iff in Hi0. destruct Hi0 as (row1 & <- & Hi1).
      rewrite length_rev. apply Hr. exact Hi1.
    - apply Hr. apply in_rev. exact Hi0.
    - apply Hr. exact Hi0. }
  split; [exact W |].
  assert (Hin' : includes_xy (_bounds im)
                   (if lr then value (xmin (_bounds im))
                               + value (xmax (_bounds im)) - x else x)%Z
                   (if ud then value (ymin (_bounds im))
                               + value (ymax (_bounds im)) - y else y)%Z
                 = true).
  { apply includes_xy_Z. split; [exact Hd |]. destruct lr, ud; lia. }
  unfold getValue.
  change (_bounds r) with (_bounds im). rewrite Hd, Hin0. cbn [negb]. f_equal.
  rewrite (@_getValue_nth V WCS PO r x y W Hin0).
  rewrite (@_getValue_nth V WCS PO im _ _ Hwf Hin').
  subst r. unfold astype. cbn [_bounds _array arr_rows]. fold k j.
  rewrite (@nth_map_in _ _ (map (convert d)) rows' k [] []) by lia.
  rewrite (@nth_map_in _ _ (convert d) (nth k rows' []) j vzero vzero)
    by (subst j; lia).
  f_equal. rewrite Nrow.
  assert (Ek : Z.to_nat ((if ud then value (ymin (_bounds im))
                                     + value (ymax (_bounds im)) - y else y)
                         - value (ymin (_bounds im))) = k').
  { subst k' k nr. destruct ud; lia. }
  rewrite Ek.
  pose proof (Row k' Hk') as Lk'.
  destruct lr.
  - rewrite rev_nth by (subst j; lia). f_equal. subst j. lia.
  - reflexivity.
Qed.


End FlipFacts.
(** ** Random deviates *)

Section RandomFacts.

Variable Key : Type.
Context `{KO : KeyOps Key}.

Lemma fori_steps_discard (n : nat) (i : Z) (key : Key) :
  fori_steps n i (fun (_ : Z) (k : Key) => fst (jrandom_split k)) key
  = _key (snd (calls (mkDeviate key) n)).
Proof.
  revert i key. induction n as [| n IH]; intros i key; [reflexivity |].
  cbn [fori_steps calls]. unfold call, _generate_one. cbn [_key].
  destruct (jrandom_split key) as [k1 sub]. cbn [fst].
  rewrite (IH (i + 1)%Z k1).
  destruct (calls (mkDeviate k1) n) as [vs s2]. reflexivity.
Qed.

Lemma scan_calls (n : nat) (key : Key) :
  calls (mkDeviate key) n
  = (snd (scan (_generate_one (Key:=Key)) key n),
     mkDeviate (fst (scan (_generate_one (Key:=Key)) key n))).
Proof.
  revert key. induction n as [| n IH]; intros key; [reflexivity |].
  cbn [calls scan]. unfold call. cbn [_key].
  destruct (_generate_one key) as [k1 v]. rewrite (IH k1).
  destruct (scan (_generate_one (Key:=Key)) k1 n) as [kf ys]. reflexivity.
Qed.

Lemma generate_calls (self : BaseDeviate Key) (n : nat) :
  generate self n = calls self n.
Proof.
  destruct self as [key]. unfold generate, _generate. cbn [_key].
  rewrite scan_calls.
  destruct (scan (_generate_one (Key:=Key)) key n) as [kf ys]. reflexivity.
Qed.

Lemma calls_app (self : BaseDeviate Key) (n m : nat) :
  calls self (n + m)
  = (fst (calls self n) ++ fst (calls (snd (calls self n)) m),
     snd (calls (snd (calls self n)) m)).
Proof.
  revert self. induction n as [| n IH]; intros self.
  - simpl. destruct (calls self m). reflexivity.
  - cbn [Nat.add calls]. destruct (call self) as [v s1].
    rewrite (IH s1). destruct (calls s1 n) as [vs s2]. cbn [fst snd].
    destruct (calls s2 m) as [ws s3]. reflexivity.
Qed.

(** X29.  Discarding is reliable: [discard(n)] leaves a deviate in the state
    that [n] calls of a [UniformDeviate], or [generate] on [n] values, leave
    it in, and nowhere else for [n <= 0]; [generate] on [n + m] values gives
    the values of [generate] on [n] followed by those of [generate] on [m];
    and a duplicate generates what the original does. *)
Theorem discard_reliable (self : BaseDeviate Key) (n m : nat) :
  discard self (Z.of_nat n) = snd (generate self n)
  /\ discard self (Z.of_nat n) = snd (calls self n)
  /\ length (fst (generate self n)) = n
  /\ (forall k : Z, (k <= 0)%Z -> discard self k = self)
  /\ fst (generate self (n + m))
     = fst (generate self n) ++ fst (generate (snd (generate self n)) m)
  /\ snd (generate self (n + m)) = snd (generate (snd (generate self n)) m)
  /\ discard (discard self (Z.of_nat n)) (Z.of_nat m)
     = discard self (Z.of_nat (n + m))
  /\ generate (duplicate self) n = generate self n.
Proof.
  assert (D : forall (s : BaseDeviate Key) (k : nat),
             discard s (Z.of_nat k) = snd (calls s k)).
  { intros [key] k. unfold discard, fori_loop. cbn [_key].
    rewrite Z.sub_0_r, Nat2Z.id, fori_steps_discard.
    destruct (snd (calls (mkDeviate key) k)). reflexivity. }
  split; [rewrite generate_calls; apply D |].
  split; [apply D |].
  split.
  { rewrite generate_calls. revert self.
    induction n as [| n IH]; intros self; [reflexivity |].
    cbn [calls]. destruct (call self) as [v s1]. specialize (IH s1).
    destruct (calls s1 n) as [vs s2]. simpl in *. congruence. }
  split.
  { intros k Hk. destruct self as [key]. unfold discard, fori_loop.
    cbn [_key]. replace (Z.to_nat (k - 0)) with 0%nat by lia. reflexivity. }
  rewrite !generate_calls, calls_app. cbn [fst snd].
  split; [reflexivity |]. split; [reflexivity |].
  split.
  - rewrite !D, calls_app. reflexivity.
  - destruct self. reflexivity.
Qed.

End RandomFacts.

(** ** Image sizes *)

(** ** Concrete runs of the further properties *)

Lemma image_1_5_wf : Image_wf image_1_5.
Proof.
  unfold Image_wf, rectangular. simpl.
  repeat split; try lia. repeat constructor.
Qed.

Lemma row_left_wf : Image_wf row_left.
Proof.
  unfold Image_wf, rectangular. simpl.
  repeat split; try lia. repeat constructor.
Qed.

Lemma row_right_wf : Image_wf row_right.
Proof.
  unfold Image_wf, rectangular. simpl.
  repeat split; try lia. repeat constructor.
Qed.

Lemma StandIn_eqb_refl (p : StandIn) : StandIn_eqb p p = true.
Proof.
  unfold StandIn_eqb. rewrite !Qeq_bool_refl, !eqb_reflx. reflexivity.
Qed.

Lemma StandIn_eqb_sym (p q : StandIn) : StandIn_eqb p q = StandIn_eqb q p.
Proof.
  unfold StandIn_eqb.
  rewrite (Qeq_bool_comm (si_flux p)), (Qeq_bool_comm (pos_x (si_centroid p))),
    (Qeq_bool_comm (pos_y (si_centroid p))), (Qeq_bool_comm (si_kvalue p)),
    (bool_eqb_sym (si_has_hard_edges p)), (bool_eqb_sym (si_is_analytic_x p)).
  reflexivity.
Qed.

Lemma BoundsI_center_included_witness :
  includes_pos bounds_1_5 (BoundsI_center bounds_1_5) = true.
Proof.
  apply BoundsI_center_included; [reflexivity | split; reflexivity].
Defined.

Lemma BoundsI_area_monotone_witness :
  (1 <= BoundsI_area bounds_2_3 <= BoundsI_area bounds_1_5)%Z.
Proof.
  apply BoundsI_area_monotone; [reflexivity | split; reflexivity].
Defined.

Lemma includes_covers_witness :
  includes bounds_1_5 bounds_2_3 = true
  /\ includes_xy bounds_1_5 3%Z 2%Z = true.
Proof.
  split; [reflexivity |].
  apply (proj1 (@includes_covers Z Coord_Z CoordTotal_Z CoordOrder_Z
                  bounds_1_5 bounds_2_3)
               eq_refl 3%Z 2%Z).
  reflexivity.
Defined.



Lemma Bounds_tree_round_trip_witness :
  exists b', Bounds_tree_unflatten (Bounds_tree_flatten bounds_1_5) = Ok b'
             /\ Bounds_eqb b' bounds_1_5 = true.
Proof.
  apply (@Bounds_tree_round_trip Z Coord_Z CoordTotal_Z bounds_1_5).
  intros _. split; reflexivity.
Defined.

Lemma GSObject_eqb_refl_sym_witness :
  GSObject_eqb (Deconvolution smooth_a some_gsparams true)
               (Deconvolution smooth_a some_gsparams true) = true
  /\ GSObject_eqb smooth_a smooth_b = GSObject_eqb smooth_b smooth_a.
Proof.
  destruct (@GSObject_eqb_refl_sym StandIn Q Contract_StandIn
              StandIn_eqb_refl StandIn_eqb_sym) as [R S].
  split; [apply R | apply S].
Defined.

Lemma constructors_propagate_gsparams_witness :
  exists l,
    Convolution [smooth_a; smooth_b] false some_gsparams true
    = Convolution l false some_gsparams true
    /\ length l = 2%nat
    /\ Forall (fun o => GSParams_eqb some_gsparams (gsparams o) = true) l.
Proof.
  assert (Ho : conv_objects [ArgObj smooth_a; ArgObj smooth_b]
               = Ok [smooth_a; smooth_b]) by reflexivity.
  assert (Hc : Convolution_init first_gsparams
                 [ArgObj smooth_a; ArgObj smooth_b] None None true
               = ([], Ok (Convolution [smooth_a; smooth_b] false
                                      some_gsparams true)))
    by reflexivity.
  exact (proj1 (@constructors_propagate_gsparams StandIn Q Contract_StandIn
                  first_gsparams _ _ None None _ _ smooth_a Ho Hc)).
Defined.

Lemma constructed_is_analytic_x_witness :
  is_analytic_x (Convolution [smooth_a; smooth_b] false some_gsparams true)
  = Ok false.
Proof.
  assert (Ho : conv_objects [ArgObj smooth_a; ArgObj smooth_b]
               = Ok [smooth_a; smooth_b]) by reflexivity.
  assert (Hn : forallb (@no_real_space StandIn) [smooth_a; smooth_b] = true)
    by reflexivity.
  assert (Hc : Convolution_init first_gsparams
                 [ArgObj smooth_a; ArgObj smooth_b] None None true
               = ([], Ok (Convolution [smooth_a; smooth_b] false
                                      some_gsparams true)))
    by reflexivity.
  destruct (@constructed_is_analytic_x StandIn Q Contract_StandIn
              first_gsparams _ _ None None true _ _ Ho Hn Hc)
    as (_ & _ & H & _).
  apply H. simpl. lia.
Defined.



Lemma deconvolution_kValue_bounded_witness :
  exists v,
    _kValue (Deconvolution smooth_a some_gsparams true) (mkPosition 0 0) = Ok v
    /\ Qabs v <= 1 / (2 * (1 # 100000)).
Proof.
  assert (Hinv : forall z : Q, ~ Qabs z == 0 -> Qabs (1 / z) == 1 / Qabs z).
  { intros z _. unfold Qdiv. rewrite !Qmult_1_l. apply Qabs_Qinv. }
  assert (Hreal : forall r : Q, Qabs r == Qabs r) by (intros r; reflexivity).
  assert (Ht : 0 < flux smooth_a * kvalue_accuracy some_gsparams)
    by reflexivity.
  assert (Hk : _kValue smooth_a (mkPosition 0 0) = Ok (1 # 2)) by reflexivity.
  exact (@deconvolution_kValue_bounded StandIn Q Contract_StandIn Amplitude_Q
           smooth_a some_gsparams true _ _ Hinv Hreal Ht Hk).
Defined.


Lemma photon_loop_diverges_witness :
  _draw_phot_while_loop 50 (new_PhotonArray 0) tt 0 1 3%Z 0%Z [] = None
  /\ drawPhot 50 0 1 false (Some 3%Z) tt 0 None [] (Some 0%Z) None = None.
Proof.
  assert (Hs : forall rng : unit, exists r, shoot 0 rng = Ok r)
    by (intros rng; eexists; reflexivity).
  assert (Hm : (0 <= 0)%Z) by lia.
  split.
  - exact (proj1 (@photon_loop_diverges (list Q * Z) unit Q unit
                    Collaborators_unit (new_PhotonArray 0) tt 0 1 3%Z 0%Z []
                    Hm eq_refl Hs) 50%nat).
  - vm_compute. reflexivity.
Defined.











